(** * info_sender: a Telegram channel auto-poster fed from RSS

    A shallow embedding of the two programs of the repository,

    - [src/main.py]               (module [Main],  version 2.0 of the bot), and
    - [src/info_sender/mainn.py]  (module [Mainn], version 6.0 of the bot),

    and the properties of their polling cycle, duplicate store, publisher and
    text enhancer.

    Conventions of the embedding.  The network, the file system and the
    clock are inputs of the functions (oracles: what a fetch, a send or a
    probe answers); what the code does to the outside world is recorded as a
    trace of events in the order the calls are made; the module-level
    globals ([sent_news], [stats], the file [sent_news.txt]) are fields of
    an explicit state that every function threads.  A Python exception is a
    value: a failing call answers [None], [false] or an [inr]. *)

From Stdlib Require Import ZArith Ascii String List Bool Lia.
From stdpp Require Import base decidable option list strings gmap sets.

Local Open Scope string_scope.
Local Open Scope Z_scope.

(** ** Python values shared by both programs *)

Module Py.

(** [s[:n]] on a string, for a non-negative [n]. *)
Definition take_str (n : nat) (s : string) : string :=
  String.substring 0 n s.

(** [len(s)]; one [ascii] of the model stands for one character. *)
Definition len (s : string) : nat := String.length s.

(** Truth value of a string: the empty string is falsy. *)
Definition truthy_str (s : string) : bool :=
  match s with EmptyString => false | _ => true end.

(** The characters [str.strip()] and [int()] treat as white space. *)
Definition is_space (c : ascii) : bool :=
  let n := nat_of_ascii c in
  ((9 <=? n) && (n <=? 13) || (28 <=? n) && (n <=? 32))%nat.

Fixpoint lstrip (s : list ascii) : list ascii :=
  match s with
  | c :: r => if is_space c then lstrip r else s
  | [] => []
  end.

Definition strip_chars (s : list ascii) : list ascii :=
  rev (lstrip (rev (lstrip s))).

Definition strip (s : string) : string :=
  string_of_list_ascii (strip_chars (list_ascii_of_string s)).

Definition digit_of (c : ascii) : option Z :=
  let n := nat_of_ascii c in
  if ((48 <=? n) && (n <=? 57))%nat then Some (Z.of_nat n - 48) else None.

(** The digits of an integer literal: decimal digits, where a single
    underscore may separate two digits.  [after_digit] tells whether the
    previous character was a digit, [acc] is the value read so far. *)
Fixpoint int_digits (after_digit : bool) (acc : Z) (s : list ascii) : option Z :=
  match s with
  | [] => if after_digit then Some acc else None
  | c :: r =>
      match digit_of c with
      | Some d => int_digits true (10 * acc + d) r
      | None =>
          if (Ascii.eqb c "_" && after_digit)%bool
          then match r with
               | c' :: _ => match digit_of c' with
                            | Some _ => int_digits false acc r
                            | None => None
                            end
               | [] => None
               end
          else None
      end
  end.

(** [int(s)] for a string [s]: [None] is the [ValueError]. *)
Definition int (s : string) : option Z :=
  match strip_chars (list_ascii_of_string s) with
  | "-"%char :: r => Z.opp <$> int_digits false 0 r
  | "+"%char :: r => int_digits false 0 r
  | r => int_digits false 0 r
  end.

(** [os.getenv(name, default)] over an environment [env]. *)
Definition getenv (env : string -> option string) (name default : string) : string :=
  match env name with Some v => v | None => default end.

(** [s.split()]: the words between runs of white space; [word] is the word
    being read. *)
Fixpoint split_loop (s word : list ascii) : list string :=
  match s with
  | [] =>
      match word with
      | [] => []
      | _ => [string_of_list_ascii word]
      end
  | c :: r =>
      if is_space c then
        match word with
        | [] => split_loop r []
        | _ => string_of_list_ascii word :: split_loop r []
        end
      else split_loop r (word ++ [c])%list
  end.

Definition split (s : string) : list string :=
  split_loop (list_ascii_of_string s) [].

(** [sep.join(l)] *)
Definition join (sep : string) (l : list string) : string := String.concat sep l.

Definition LF : ascii := ascii_of_nat 10.
Definition CR : ascii := ascii_of_nat 13.

(** The characters at which [str.splitlines()] ends a line: line feed,
    vertical tab, form feed, carriage return, the file, group and record
    separators and the next-line character. *)
Definition is_line_boundary (c : ascii) : bool :=
  let n := nat_of_ascii c in
  ((10 <=? n) && (n <=? 13) || (28 <=? n) && (n <=? 30) || (n =? 133))%nat.

(** [s.splitlines()]: a carriage return followed by a line feed ends one
    line; what follows the last boundary is a line only when it is not
    empty.  [line] is the line being read. *)
Fixpoint splitlines_loop (s line : list ascii) : list string :=
  match s with
  | [] =>
      match line with
      | [] => []
      | _ => [string_of_list_ascii line]
      end
  | c :: r =>
      if is_line_boundary c then
        string_of_list_ascii line
        :: match r with
           | c' :: r' =>
               if Ascii.eqb c CR && Ascii.eqb c' LF
               then splitlines_loop r' [] else splitlines_loop r []
           | [] => []
           end
      else splitlines_loop r (line ++ [c])%list
  end.

Definition splitlines (s : string) : list string :=
  splitlines_loop (list_ascii_of_string s) [].

(** What [f.read()] hands out of a file opened in text mode: a carriage
    return, with or without a line feed after it, is read as a line feed. *)
Fixpoint universal_newlines (s : list ascii) : list ascii :=
  match s with
  | [] => []
  | c :: r =>
      if Ascii.eqb c CR then
        LF :: match r with
              | c' :: r' =>
                  if Ascii.eqb c' LF then universal_newlines r' else universal_newlines r
              | [] => []
              end
      else c :: universal_newlines r
  end.

Definition read_text (s : string) : string :=
  string_of_list_ascii (universal_newlines (list_ascii_of_string s)).

(** [time.sleep(secs)] for an integer: a negative number of seconds is a
    [ValueError], and a number whose nanoseconds do not fit in 64 bits is an
    [OverflowError]. *)
Definition sleep_max : Z := 9223372036.

Definition sleep_raises (secs : Z) : bool := (secs <? 0) || (sleep_max <? secs).

End Py.

(** ** src/main.py *)

Module Main.

(** *** Configuration (lines 16-30)

    The three numeric parameters are module globals assigned one after the
    other inside one [try]; [None] is a name that is not bound yet. *)

Record params := {
  POST_DELAY : option Z;
  CHECK_INTERVAL : option Z;
  MAX_HISTORY : option Z
}.

Definition unbound : params :=
  {| POST_DELAY := None; CHECK_INTERVAL := None; MAX_HISTORY := None |}.

Definition defaults : params :=
  {| POST_DELAY := Some 10; CHECK_INTERVAL := Some 300; MAX_HISTORY := Some 100 |}.

(** The body of the [try]: the assignments made before a [ValueError] stay
    made; the boolean tells whether the body raised. *)
Definition try_params (env : string -> option string) : params * bool :=
  match Py.int (Py.getenv env "POST_DELAY" "10") with
  | None => (unbound, true)
  | Some d =>
      match Py.int (Py.getenv env "CHECK_INTERVAL" "300") with
      | None => ({| POST_DELAY := Some d; CHECK_INTERVAL := None; MAX_HISTORY := None |}, true)
      | Some c =>
          match Py.int (Py.getenv env "MAX_HISTORY" "100") with
          | None => ({| POST_DELAY := Some d; CHECK_INTERVAL := Some c; MAX_HISTORY := None |}, true)
          | Some h => ({| POST_DELAY := Some d; CHECK_INTERVAL := Some c; MAX_HISTORY := Some h |}, false)
          end
      end
  end.

(** The [except ValueError] handler assigns the three names again. *)
Definition except_params (p : params) : params :=
  {| POST_DELAY := Some 10; CHECK_INTERVAL := Some 300; MAX_HISTORY := Some 100 |}.

Definition load_params (env : string -> option string) : params :=
  let '(p, raised) := try_params env in
  if raised then except_params p else p.

(** The environment variable [name] holds a string [int()] rejects. *)
Definition non_integer (env : string -> option string) (name : string) : Prop :=
  exists v, env name = Some v /\ Py.int v = None.

(** *** Feed entries and news items (lines 94-173)

    A feedparser entry is duck-typed: each attribute is there or not
    ([hasattr]).  [published_parsed] may be there and still not be a time
    ([Some None]: building the [datetime] raises).  Times are microseconds
    since the epoch. *)

Record media := {
  m_type : option string;      (* media.get('type', '') *)
  m_ref : option string        (* media['url'] or enclosure['href'] *)
}.

Record entry := {
  published_parsed : option (option Z);
  e_title : option string;
  e_link : option string;
  e_description : option string;
  media_content : option (list media);
  enclosures : option (list media)
}.

Record news_item := {
  title : string;
  link : string;
  summary : string;
  image : option string;
  source : string
}.

Definition NO_TITLE : string := "Без названия".

Definition lower_char (c : ascii) : ascii :=
  let n := nat_of_ascii c in
  if ((65 <=? n) && (n <=? 90))%nat then ascii_of_nat (n + 32) else c.

Fixpoint lower (s : string) : string :=
  match s with
  | EmptyString => EmptyString
  | String c r => String (lower_char c) (lower r)
  end.

Definition startswith (p s : string) : bool := String.prefix p s.

Definition endswith (suffix s : string) : bool :=
  let n := String.length s in
  let k := String.length suffix in
  ((k <=? n)%nat && String.eqb (String.substring (n - k) k s) suffix)%bool.

Definition image_extensions : list string :=
  [".jpg"; ".jpeg"; ".png"; ".gif"; ".webp"].

(** [is_image_url]: a falsy url (absent or empty) is no image. *)
Definition is_image_url (url : option string) : bool :=
  match url with
  | None => false
  | Some u => Py.truthy_str u && existsb (fun ext => endswith ext (lower u)) image_extensions
  end.

Definition truthy_image (i : option string) : bool :=
  match i with Some u => Py.truthy_str u | None => false end.

(** The two search loops (lines 149-160): the first medium whose type
    starts with "image" decides, and the loop stops there.  Reading its
    reference is a subscript: [inr tt] is the [KeyError] of a medium
    without one. *)
Fixpoint find_image (ms : list media) : option string + unit :=
  match ms with
  | [] => inl None
  | m :: r =>
      if startswith "image" (default "" (m_type m))
      then match m_ref m with Some u => inl (Some u) | None => inr tt end
      else find_image r
  end.

Definition day_us : Z := 86400 * 1000000.

(** [(datetime.now() - entry_time).days]: timedelta keeps its seconds in
    [0, 86400), so [days] is the floor. *)
Definition age_days (now t : Z) : Z := (now - t) / day_us.

(** What one turn of the loop over [feed.entries] does with an entry:
    skip it ([Skip]), append an item ([Item]), or raise ([Raise]). *)
Inductive turn := Skip | Item (n : news_item) | Raise.

Definition read_entry (clean_html : string -> string) (now : Z) (url : string) (e : entry) : turn :=
  match published_parsed e with
  | None => Skip
  | Some None => Skip
  | Some (Some t) =>
      if 1 <? age_days now t then Skip else
      let title := match e_title e with Some x => clean_html x | None => NO_TITLE end in
      let link := default "" (e_link e) in
      let summary := match e_description e with
                     | Some d => Py.take_str 200 (clean_html d) ++ "..."
                     | None => ""
                     end in
      match (match media_content e with Some ms => find_image ms | None => inl None end) with
      | inr _ => Raise
      | inl img1 =>
          match (if negb (truthy_image img1)
                 then match enclosures e with Some ms =>
                        match find_image ms with
                        | inl (Some u) => inl (Some u)
                        | inl None => inl img1
                        | inr _ => inr tt
                        end
                      | None => inl img1 end
                 else inl img1) with
          | inr _ => Raise
          | inl img2 =>
              let img3 := if truthy_image img2 && negb (is_image_url img2) then None else img2 in
              Item {| title := title; link := link; summary := summary;
                      image := img3; source := url |}
          end
      end
  end.

(** The loop over [feed.entries]: [all_news] is one shared list, so the
    items appended before an exception stay in it.  The boolean tells
    whether the loop raised. *)
Fixpoint read_entries (clean_html : string -> string) (now : Z) (url : string)
    (es : list entry) (all_news : list news_item) : list news_item * bool :=
  match es with
  | [] => (all_news, false)
  | e :: r =>
      match read_entry clean_html now url e with
      | Skip => read_entries clean_html now url r all_news
      | Item n => read_entries clean_html now url r (all_news ++ [n])
      | Raise => (all_news, true)
      end
  end.

(** *** The outside world and the globals

    Every call that leaves the process is an event of the trace.  What
    the outside answers is an oracle, asked with the number of events made
    so far (the time of the call), so that the same call may be answered
    differently later. *)

(** What [send_admin_message] is called with. *)
Inductive notice :=
| NWorkerStarted
| NWorkerStopped
| NRssError (url : string)
| NSendError (item_title : string)
| NFound (new_count total : nat)
| NDelivered (sent_in_cycle : nat)
| NControlStarted
| NCritical.

Inductive event :=
| EvLoad                                   (* sent_news.txt is read *)
| EvSave (text : string)                   (* sent_news.txt is written *)
| EvFetch (url : string)                   (* feedparser.parse(url) *)
| EvHead (url : string)                    (* requests.head(image) *)
| EvSendPhoto (photo caption : string)     (* bot.send_photo to the channel *)
| EvSendText (text : string)               (* bot.send_message to the channel *)
| EvAdmin (n : notice)                     (* send_admin_message *)
| EvSleep (seconds : Z)                    (* time.sleep *)
| EvPublish (item : news_item) (seen : gset string).
    (* send_news(item) is entered; [seen] is sent_news at that moment *)

Record world := {
  w_clean_html : string -> string;         (* re.sub of the tag pattern *)
  w_now : nat -> Z;                        (* datetime.now() *)
  w_feed : nat -> string -> option (list entry);   (* None: parse raises *)
  w_head : nat -> string -> option Z;      (* None: raises, Some: status *)
  w_photo : nat -> string -> string -> bool;       (* false: raises *)
  w_text : nat -> string -> bool;          (* false: raises *)
  w_file : nat -> bool;                    (* false: the file operation raises *)
  w_running : nat -> bool;                 (* is_running as the worker reads it *)
  w_order : gset string -> list string     (* list(s): iteration order of a set *)
}.

(** The iteration order of a Python set is up to the hash table; all the
    model asks of it is that it lists the members once each. *)
Definition order_ok (w : world) : Prop :=
  forall s : gset string, w_order w s ≡ₚ elements s.

Record state := {
  sent_news : gset string;
  disk : option string;                    (* the text of sent_news.txt *)
  posts_sent : Z;
  errors : Z;
  last_check : option Z;
  trace : list event
}.

Definition now_of (st : state) : nat := length (trace st).

Definition emit (e : event) (st : state) : state :=
  {| sent_news := sent_news st; disk := disk st; posts_sent := posts_sent st;
     errors := errors st; last_check := last_check st; trace := trace st ++ [e] |}.

Definition set_sent (s : gset string) (st : state) : state :=
  {| sent_news := s; disk := disk st; posts_sent := posts_sent st;
     errors := errors st; last_check := last_check st; trace := trace st |}.

Definition set_disk (d : option string) (st : state) : state :=
  {| sent_news := sent_news st; disk := d; posts_sent := posts_sent st;
     errors := errors st; last_check := last_check st; trace := trace st |}.

Definition add_error (st : state) : state :=
  {| sent_news := sent_news st; disk := disk st; posts_sent := posts_sent st;
     errors := errors st + 1; last_check := last_check st; trace := trace st |}.

Definition add_post (st : state) : state :=
  {| sent_news := sent_news st; disk := disk st; posts_sent := posts_sent st + 1;
     errors := errors st; last_check := last_check st; trace := trace st |}.

Definition set_last_check (t : Z) (st : state) : state :=
  {| sent_news := sent_news st; disk := disk st; posts_sent := posts_sent st;
     errors := errors st; last_check := Some t; trace := trace st |}.

Definition nl : string := String Py.LF EmptyString.

(** [load_history] (lines 62-72): when the file is there and can be read,
    the lines of its text become the set; otherwise the set is left as it
    is. *)
Definition load_history (w : world) (st : state) : bool * state :=
  match disk st with
  | None => (false, st)
  | Some text =>
      let ok := w_file w (now_of st) in
      let st := emit EvLoad st in
      if ok then (true, set_sent (list_to_set (Py.splitlines (Py.read_text text))) st)
      else (false, st)
  end.

(** Line 78: the members, in iteration order, with a line feed between
    them. *)
Definition history_text (w : world) (s : gset string) : string :=
  Py.join nl (w_order w s).

(** [save_history] (lines 75-82); the text is written as it is (the line
    separator of the system is the line feed). *)
Definition save_history (w : world) (st : state) : bool * state :=
  let text := history_text w (sent_news st) in
  let ok := w_file w (now_of st) in
  let st := emit (EvSave text) st in
  if ok then (true, set_disk (Some text) st) else (false, st).

(** [send_admin_message] (lines 84-92) swallows its own failures. *)
Definition send_admin_message (n : notice) (st : state) : state :=
  emit (EvAdmin n) st.

(** [get_news] (lines 107-173), the loop over [RSS_URLS]. *)
Fixpoint get_news_loop (w : world) (urls : list string)
    (all_news : list news_item) (st : state) : list news_item * state :=
  match urls with
  | [] => (all_news, st)
  | url :: r =>
      if negb (Py.truthy_str (Py.strip url)) then get_news_loop w r all_news st else
      let answer := w_feed w (now_of st) (Py.strip url) in
      let now := w_now w (now_of st) in
      let st := emit (EvFetch (Py.strip url)) st in
      match answer with
      | None =>
          get_news_loop w r all_news (send_admin_message (NRssError url) (add_error st))
      | Some es =>
          let '(all_news, raised) := read_entries (w_clean_html w) now url es all_news in
          if raised
          then get_news_loop w r all_news (send_admin_message (NRssError url) (add_error st))
          else get_news_loop w r all_news st
      end
  end.

Definition get_news (w : world) (urls : list string) (st : state) : list news_item * state :=
  get_news_loop w urls [] (set_last_check (w_now w (now_of st)) st).

(** *** The publisher: [send_news] (lines 175-211) *)

Definition format_message (item : news_item) : string :=
  let title := if (200 <? Py.len (title item))%nat
               then Py.take_str 200 (title item) ++ "..."
               else title item in
  let summary := if Py.truthy_str (summary item)
                 then Py.take_str 300 (summary item) else "" in
  "<b>" ++ title ++ "</b>" ++ nl ++ nl ++ summary ++ nl ++ nl ++ "🔗 " ++ link item.

(** The text send that ends [send_news], with the outer [except]. *)
Definition send_text (w : world) (item : news_item) (st : state) : bool * state :=
  let message := format_message item in
  let ok := w_text w (now_of st) message in
  let st := emit (EvSendText message) st in
  if ok then (true, add_post st)
  else (false, send_admin_message (NSendError (Py.take_str 50 (title item))) (add_error st)).

Definition send_news (w : world) (item : news_item) (st : state) : bool * state :=
  let st := emit (EvPublish item (sent_news st)) st in
  let message := format_message item in
  if truthy_image (image item) then
    let url := default "" (image item) in
    let answer := w_head w (now_of st) url in
    let st := emit (EvHead url) st in
    match answer with
    | Some status_code =>
        if status_code =? 200 then
          let ok := w_photo w (now_of st) url message in
          let st := emit (EvSendPhoto url message) st in
          if ok then (true, add_post st) else send_text w item st
        else send_text w item st
    | None => send_text w item st
    end
  else send_text w item st.

(** *** The worker: one cycle of [bot_worker] (lines 279-323) *)

Definition is_new (s : gset string) (item : news_item) : bool :=
  Py.truthy_str (link item) && bool_decide (link item ∉ s).

(** The state a part of the worker leaves, and whether it leaves by an
    exception that is on its way to the handler of line 318. *)
Definition left : Type := state * bool.

(** The loop over the news of the cycle (lines 290-299).  The sleep of
    line 299 is the one call of the cycle that does not catch its own
    exceptions: when [time.sleep] refuses POST_DELAY, the loop is left at
    once. *)
Fixpoint send_loop (w : world) (post_delay : Z) (news : list news_item)
    (sent_in_cycle : nat) (st : state) : nat * left :=
  match news with
  | [] => (sent_in_cycle, (st, false))
  | item :: r =>
      if negb (w_running w (now_of st)) then (sent_in_cycle, (st, false)) else
      if is_new (sent_news st) item then
        let '(ok, st) := send_news w item st in
        if ok then
          let st := set_sent ({[ link item ]} ∪ sent_news st) st in
          if Py.sleep_raises post_delay then (S sent_in_cycle, (st, true))
          else send_loop w post_delay r (S sent_in_cycle) (emit (EvSleep post_delay) st)
        else send_loop w post_delay r sent_in_cycle st
      else send_loop w post_delay r sent_in_cycle st
  end.

(** [l[k:]] for any integer [k]. *)
Definition slice_from {A} (k : Z) (l : list A) : list A :=
  let n := Z.of_nat (length l) in
  let k := if k <? 0 then Z.max 0 (k + n) else Z.min k n in
  drop (Z.to_nat k) l.

(** Lines 306-307; [-MAX_HISTORY//2] is [(-MAX_HISTORY)//2]. *)
Definition evict (w : world) (max_history : Z) (st : state) : state :=
  if max_history <? Z.of_nat (size (sent_news st))
  then set_sent (list_to_set (slice_from ((- max_history) / 2) (w_order w (sent_news st)))) st
  else st.

(** The wait for the next check (lines 313-316): one second at a time,
    while the flag is up. *)
Fixpoint wait_loop (w : world) (wait_time : nat) (st : state) : state :=
  match wait_time with
  | O => st
  | S n => if w_running w (now_of st) then wait_loop w n (emit (EvSleep 1) st) else st
  end.

Record settings := {
  rss_urls : list string;
  post_delay : Z;
  check_interval : Z;
  max_history : Z
}.

Definition count_new (s : gset string) (news : list news_item) : nat :=
  length (filter (fun item => is_new s item = true) news).

(** The cycle up to the end of the sends (lines 281-303).  [get_news],
    [send_news] and [send_admin_message] catch their own exceptions; the
    exception of the sleep of line 299 passes through. *)
Definition try_sends (w : world) (c : settings) (st : state) : left :=
  let '(news, st) := get_news w (rss_urls c) st in
  let new_count := count_new (sent_news st) news in
  let st := if (0 <? new_count)%nat
            then send_admin_message (NFound new_count (length news)) st else st in
  let '(sent_in_cycle, (st, raised)) := send_loop w (post_delay c) news 0 st in
  if raised then (st, true) else
  (if (0 <? sent_in_cycle)%nat then send_admin_message (NDelivered sent_in_cycle) st else st,
   false).

(** The state when lines 281-303 are left, and whether they are left by
    the exception. *)
Definition cycle_sends (w : world) (c : settings) (st : state) : state :=
  (try_sends w c st).1.

Definition cycle_raises (w : world) (c : settings) (st : state) : bool :=
  (try_sends w c st).2.

(** Lines 305-309: the trim and the save; [save_history] catches its own
    exceptions. *)
Definition keep_history (w : world) (c : settings) (st : state) : state :=
  (save_history w (evict w (max_history c) st)).2.

(** The handler of lines 318-323. *)
Definition on_error (st : state) : state :=
  emit (EvSleep 60) (send_admin_message NCritical (add_error st)).

(** One turn of the [while] of [bot_worker] (lines 279-323): an exception
    skips the trim, the save and the wait. *)
Definition cycle (w : world) (c : settings) (st : state) : state :=
  let '(st, raised) := try_sends w c st in
  if raised then on_error st
  else wait_loop w (Z.to_nat (check_interval c)) (keep_history w c st).

(** [bot_worker] (lines 267-326); [fuel] bounds the number of cycles the
    model follows. *)
Fixpoint worker_loop (w : world) (c : settings) (fuel : nat) (st : state) : bool * state :=
  match fuel with
  | O => (false, st)
  | S n => if w_running w (now_of st) then worker_loop w c n (cycle w c st) else (true, st)
  end.

(** The boolean tells whether the worker came to its end within [fuel]
    cycles; otherwise the state is the one after [fuel] cycles. *)
Definition bot_worker (w : world) (c : settings) (fuel : nat) (st : state) : bool * state :=
  let st := send_admin_message NWorkerStarted st in
  let st := (load_history w st).2 in
  let '(ended, st) := worker_loop w c fuel st in
  if ended then (true, send_admin_message NWorkerStopped st) else (false, st).

(** *** The commands (lines 328-375), run by the command thread *)

Record control := {
  is_running : bool;
  globals : state
}.

(** [start_bot] raises the flag and resets the counters; the thread it
    starts runs [bot_worker]. *)
Definition start_bot (k : control) : control :=
  if is_running k then k
  else {| is_running := true;
          globals := {| sent_news := sent_news (globals k); disk := disk (globals k);
                        posts_sent := 0; errors := 0; last_check := None;
                        trace := trace (globals k) |} |}.

Definition stop_bot (w : world) (k : control) : control :=
  if negb (is_running k) then k
  else {| is_running := false; globals := (save_history w (globals k)).2 |}.

Definition pause_bot (k : control) : control :=
  if negb (is_running k) then k
  else {| is_running := false; globals := globals k |}.

(** A new process: the module is loaded again (lines 51-59), and only the
    file system is what the last process left. *)
Definition fresh (previous : state) : state :=
  {| sent_news := ∅; disk := disk previous; posts_sent := 0;
     errors := 0; last_check := None; trace := [] |}.

(** Lines 632-638 *)
Definition boot (w : world) (previous : state) : control :=
  {| is_running := false;
     globals := send_admin_message NControlStarted (load_history w (fresh previous)).2 |}.

(** [restart_bot] (lines 371-375) *)
Definition restart_bot (w : world) (k : control) : control :=
  let k := stop_bot w k in
  start_bot {| is_running := is_running k; globals := emit (EvSleep 2) (globals k) |}.

(** *** The start of the module (lines 16-34) *)

(** [s.split(c)] for a separator of one character. *)
Fixpoint split_on (c : ascii) (s : string) : list string :=
  match s with
  | EmptyString => [EmptyString]
  | String a r =>
      if Ascii.eqb a c then EmptyString :: split_on c r
      else match split_on c r with
           | h :: t => String a h :: t
           | [] => [String a EmptyString]
           end
  end.

(** [not os.getenv(name)]: the variable is not set or is empty. *)
Definition unset (env : string -> option string) (name : string) : bool :=
  match env name with Some v => negb (Py.truthy_str v) | None => true end.

Definition RSS_URLS (env : string -> option string) : list string :=
  split_on "," (Py.getenv env "RSS_URLS" "").

(** The check of lines 33-34: true when the module raises [ValueError]. *)
Definition startup_raises (env : string -> option string) : bool :=
  unset env "BOT_TOKEN" || unset env "CHANNEL_ID"
  || match RSS_URLS env with [] => true | _ => false end
  || unset env "ADMIN_ID".

(** *** The command handlers (lines 491-616)

    A handler gets the message and the controls and gives the controls
    back together with the replies it sent, each with the keyboard of that
    moment ([create_reply_keyboard] looks at [is_running]). *)

Record chat_message := {
  sender : string;       (* str(message.from_user.id) *)
  text : string          (* message.text *)
}.

Inductive reply_text :=
| TWelcome | TStatus | TCombined | TSources | TInfo | TUnknown | TDenied
| TStarted | TAlreadyRunning
| TPaused | TAlreadyPaused
| TStopped | TAlreadyStopped.

Record reply := {
  said : reply_text;
  keyboard_running : bool
}.

Definition reply_to (t : reply_text) (k : control) : list reply :=
  [{| said := t; keyboard_running := is_running k |}].

Definition handler := world -> string -> chat_message -> control -> control * list reply.

Definition authorized (admin_id : string) (m : chat_message) : bool :=
  String.eqb (sender m) admin_id.

Definition send_welcome : handler := fun w admin_id m k =>
  if negb (authorized admin_id m) then (k, []) else (k, reply_to TWelcome k).

Definition send_status : handler := fun w admin_id m k =>
  if negb (authorized admin_id m) then (k, []) else (k, reply_to TStatus k).

Definition send_stats : handler := fun w admin_id m k =>
  if negb (authorized admin_id m) then (k, []) else (k, reply_to TCombined k).

Definition start_command : handler := fun w admin_id m k =>
  if negb (authorized admin_id m) then (k, []) else
  let result := if is_running k then TAlreadyRunning else TStarted in
  let k := start_bot k in
  (k, reply_to result k).

Definition pause_command : handler := fun w admin_id m k =>
  if negb (authorized admin_id m) then (k, []) else
  let result := if is_running k then TPaused else TAlreadyPaused in
  let k := pause_bot k in
  (k, reply_to result k).

Definition stop_command : handler := fun w admin_id m k =>
  if negb (authorized admin_id m) then (k, []) else
  let result := if is_running k then TStopped else TAlreadyStopped in
  let k := stop_bot w k in
  (k, reply_to result k).

(** [restart_bot] answers what its [start_bot] answers. *)
Definition restart_command : handler := fun w admin_id m k =>
  if negb (authorized admin_id m) then (k, []) else
  let stopped := stop_bot w k in
  let result := if is_running stopped then TAlreadyRunning else TStarted in
  let k := restart_bot w k in
  (k, reply_to result k).

Definition sources_command : handler := fun w admin_id m k =>
  if negb (authorized admin_id m) then (k, []) else (k, reply_to TSources k).

(** The handler of every other text (lines 581-616): the buttons. *)
Definition handle_text_messages : handler := fun w admin_id m k =>
  let text := Py.strip (text m) in
  if negb (authorized admin_id m) then (k, reply_to TDenied k) else
  if String.eqb text "▶️ Запустить" then start_command w admin_id m k
  else if String.eqb text "⏸️ Приостановить" then pause_command w admin_id m k
  else if String.eqb text "🛑 Остановить" then stop_command w admin_id m k
  else if String.eqb text "🔄 Перезапустить" then restart_command w admin_id m k
  else if String.eqb text "📊 Статистика" then (k, reply_to TCombined k)
  else if String.eqb text "📝 Источники" then sources_command w admin_id m k
  else if String.eqb text "❓ Помощь" then send_welcome w admin_id m k
  else if String.eqb text "ℹ️ Инфо" then (k, reply_to TInfo k)
  else (k, reply_to TUnknown k).

(** The handlers that are registered for a command. *)
Definition command_handlers : list handler :=
  [send_welcome; send_status; send_stats; start_command; pause_command;
   stop_command; restart_command; sources_command].

End Main.

(** ** src/info_sender/mainn.py *)

Module Mainn.

(** *** JSON values, as [json.loads] and [dict.get] hand them out *)

#[local] Set Warnings "-register-all".

Inductive jvalue :=
| JNull
| JBool (b : bool)
| JNum (nonzero : bool)        (* a number; the code only tests its truth *)
| JStr (s : string)
| JArr (items : list jvalue)
| JObj (members : list (string * jvalue)).

Definition truthy (v : jvalue) : bool :=
  match v with
  | JNull => false
  | JBool b => b
  | JNum nz => nz
  | JStr s => Py.truthy_str s
  | JArr l => negb (Nat.eqb (length l) 0)
  | JObj m => negb (Nat.eqb (length m) 0)
  end.

(** [len(v)]: [None] is the [TypeError] of a value without a length. *)
Definition len (v : jvalue) : option nat :=
  match v with
  | JStr s => Some (Py.len s)
  | JArr l => Some (length l)
  | JObj m => Some (length m)
  | _ => None
  end.

Fixpoint lookup_key (k : string) (m : list (string * jvalue)) : option jvalue :=
  match m with
  | [] => None
  | (k', v) :: r => if String.eqb k k' then Some v else lookup_key k r
  end.

(** [data.get(key, fallback)] *)
Definition dict_get (m : list (string * jvalue)) (k : string) (fallback : jvalue) : jvalue :=
  default fallback (lookup_key k m).

(** [s.find(c)] and [s.rfind(c)] for a character, [-1] when absent. *)
Fixpoint find_from (c : ascii) (s : string) (i : Z) : Z :=
  match s with
  | EmptyString => -1
  | String a r => if Ascii.eqb a c then i else find_from c r (i + 1)
  end.

Definition find (c : ascii) (s : string) : Z := find_from c s 0.

Fixpoint rfind_from (c : ascii) (s : string) (i : Z) (last : Z) : Z :=
  match s with
  | EmptyString => last
  | String a r => rfind_from c r (i + 1) (if Ascii.eqb a c then i else last)
  end.

Definition rfind (c : ascii) (s : string) : Z := rfind_from c s 0 (-1).

(** [s[i:j]] for [0 <= i] and [0 <= j]. *)
Definition slice (i j : Z) (s : string) : string :=
  String.substring (Z.to_nat i) (Z.to_nat (j - i)) s.

(** *** The outside world and the globals *)

Record entry := {
  e_title : option string;
  e_description : option string;
  e_link : option string
}.

(** The formatted post: the f-string of line 619 is fixed text around
    these three values. *)
Record message := {
  msg_title : jvalue;
  msg_description : jvalue;
  msg_link : string
}.

(** What the completion endpoint does with a request. *)
Inductive gpt_answer :=
| GptRequestError                 (* requests.exceptions.RequestException *)
| GptMalformed                    (* no JSON, or not the expected nesting *)
| GptText (result_text : string). (* result.alternatives[0].message.text *)

Inductive event :=
| EvFetch (url : string)                     (* feedparser.parse(url) *)
| EvGpt (title description : string)         (* requests.post to the model *)
| EvImage (title : jvalue)                   (* image_generator.generate_image *)
| EvSendPhoto (path : string) (caption : message)
| EvRemove (path : string)                   (* os.remove *)
| EvSendText (text : message)
| EvSleep (seconds : Z)
| EvWait (seconds : Z)                       (* stop_event.wait *)
| EvPublish (e : entry) (seen : gset string).
    (* the entry passed line 503; [seen] is sent_entries at that moment *)

Record world := {
  w_clean : string -> string;                (* re.sub of the tag pattern *)
  w_json_loads : string -> option jvalue;    (* None: JSONDecodeError *)
  w_feed : nat -> string -> option (list entry);   (* None: parse raises *)
  w_gpt : nat -> string -> string -> gpt_answer;
  w_image : nat -> jvalue -> option string;  (* the path written, None: failure *)
  w_photo : nat -> string -> message -> bool;      (* false: raises *)
  w_text : nat -> message -> bool;           (* false: raises *)
  w_stop : nat -> bool;                      (* stop_event.is_set() *)
  w_running : nat -> bool                    (* self.is_running *)
}.

Record config := {
  RSS_URLS : list string;
  CHECK_INTERVAL : Z;
  yagpt_enabled : bool   (* not DISABLE_YAGPT and YANDEX_API_KEY and YANDEX_FOLDER_ID *)
}.

Record state := {
  sent_entries : gset string;
  files : gset string;           (* the image files in OUTPUT_DIR *)
  posts_sent : Z;
  errors : Z;
  yagpt_used : Z;
  yagpt_errors : Z;
  images_generated : Z;
  trace : list event
}.

Definition now_of (st : state) : nat := length (trace st).

Definition emit (e : event) (st : state) : state :=
  {| sent_entries := sent_entries st; files := files st; posts_sent := posts_sent st;
     errors := errors st; yagpt_used := yagpt_used st; yagpt_errors := yagpt_errors st;
     images_generated := images_generated st; trace := trace st ++ [e] |}.

Definition set_sent (s : gset string) (st : state) : state :=
  {| sent_entries := s; files := files st; posts_sent := posts_sent st;
     errors := errors st; yagpt_used := yagpt_used st; yagpt_errors := yagpt_errors st;
     images_generated := images_generated st; trace := trace st |}.

Definition set_files (f : gset string) (st : state) : state :=
  {| sent_entries := sent_entries st; files := f; posts_sent := posts_sent st;
     errors := errors st; yagpt_used := yagpt_used st; yagpt_errors := yagpt_errors st;
     images_generated := images_generated st; trace := trace st |}.

Definition add_post (st : state) : state :=
  {| sent_entries := sent_entries st; files := files st; posts_sent := posts_sent st + 1;
     errors := errors st; yagpt_used := yagpt_used st; yagpt_errors := yagpt_errors st;
     images_generated := images_generated st; trace := trace st |}.

Definition add_error (st : state) : state :=
  {| sent_entries := sent_entries st; files := files st; posts_sent := posts_sent st;
     errors := errors st + 1; yagpt_used := yagpt_used st; yagpt_errors := yagpt_errors st;
     images_generated := images_generated st; trace := trace st |}.

Definition add_yagpt_used (st : state) : state :=
  {| sent_entries := sent_entries st; files := files st; posts_sent := posts_sent st;
     errors := errors st; yagpt_used := yagpt_used st + 1; yagpt_errors := yagpt_errors st;
     images_generated := images_generated st; trace := trace st |}.

Definition add_yagpt_error (st : state) : state :=
  {| sent_entries := sent_entries st; files := files st; posts_sent := posts_sent st;
     errors := errors st; yagpt_used := yagpt_used st; yagpt_errors := yagpt_errors st + 1;
     images_generated := images_generated st; trace := trace st |}.

Definition add_image (st : state) : state :=
  {| sent_entries := sent_entries st; files := files st; posts_sent := posts_sent st;
     errors := errors st; yagpt_used := yagpt_used st; yagpt_errors := yagpt_errors st;
     images_generated := images_generated st + 1; trace := trace st |}.

(** *** The enhancer: [enhance_with_yagpt] (lines 353-434) *)

Definition MAX_INPUT_LENGTH : nat := 3000.

(** Lines 360-361: the description as it is put into the prompt. *)
Definition clip_input (description : string) : string :=
  if (MAX_INPUT_LENGTH <? Py.len description)%nat
  then Py.take_str MAX_INPUT_LENGTH description ++ "..."
  else description.

(** Lines 409-425 and what the outer handlers make of them: the answer,
    and whether [yagpt_errors] is counted. *)
Definition read_answer (w : world) (title description result_text : string)
    : option (jvalue * jvalue) * bool :=
  let json_start := find "{" result_text in
  let json_end := rfind "}" result_text + 1 in
  if (json_start =? -1) || (json_end =? 0) then (None, false) else
  match w_json_loads w (slice json_start json_end result_text) with
  | None => (None, false)
  | Some (JObj data) =>
      (Some (dict_get data "title" (JStr title),
             dict_get data "description" (JStr description)), false)
  | Some _ => (None, true)     (* no [get] on it: AttributeError *)
  end.

Definition enhance_with_yagpt (w : world) (c : config) (title description : string)
    (st : state) : option (jvalue * jvalue) * state :=
  if negb (yagpt_enabled c) then (None, st) else
  let description := clip_input description in
  let answer := w_gpt w (now_of st) title description in
  let st := emit (EvGpt title description) st in
  match answer with
  | GptRequestError => (None, add_yagpt_error st)
  | GptMalformed => (None, add_yagpt_error st)
  | GptText result_text =>
      let '(r, counted) := read_answer w title description result_text in
      (r, if counted then add_yagpt_error st else st)
  end.

(** *** [BotController.format_message] (lines 564-620) *)

Definition clean (w : world) (text : string) : string :=
  if Py.truthy_str text then w_clean w text else "".

(** The condition of lines 587-589, evaluated left to right with the
    short cuts of [and]; [None] is the [TypeError] of [len]. *)
Definition validate (new_title new_description : jvalue) : option bool :=
  if negb (truthy new_title) then Some false else
  match len new_title with
  | None => None
  | Some a =>
      if negb (10 <? a)%nat then Some false else
      if negb (truthy new_description) then Some false else
      match len new_description with
      | None => None
      | Some b => Some ((30 <? b)%nat && (a <? 120)%nat && (b <? 600)%nat)
      end
  end.

(** Lines 578-598: the title and the description the post is made of. *)
Definition select_text (w : world) (c : config) (title description : string)
    (st : state) : (jvalue * jvalue) * state :=
  if negb (yagpt_enabled c) then ((JStr title, JStr description), st) else
  match enhance_with_yagpt w c title description st with
  | (None, st) => ((JStr title, JStr description), st)
  | (Some (new_title, new_description), st) =>
      match validate new_title new_description with
      | Some true => ((new_title, new_description), add_yagpt_used st)
      | Some false => ((JStr title, JStr description), st)
      | None => ((JStr title, JStr description), add_yagpt_error st)
      end
  end.

(** Lines 601-602; [None] is the [TypeError] of cutting or extending a
    value that is no string. *)
Definition shorten (description : jvalue) : option jvalue :=
  match len description with
  | None => None
  | Some n =>
      if (500 <? n)%nat then
        match description with
        | JStr s => Some (JStr (Py.take_str 500 s ++ "..."))
        | _ => None
        end
      else Some description
  end.

(** Lines 604-616 together with the end of [generate_image]: a written
    file appears in the output directory and is counted. *)
Definition make_image (w : world) (title : jvalue) (original_title : string)
    (st : state) : option string * state :=
  let image_title := if truthy title then title else JStr original_title in
  if truthy image_title then
    let answer := w_image w (now_of st) image_title in
    let st := emit (EvImage image_title) st in
    match answer with
    | Some path => (Some path, add_image (set_files ({[ path ]} ∪ files st) st))
    | None => (None, st)
    end
  else (None, st).

(** The result is [None] when the function raises. *)
Definition format_message (w : world) (c : config) (e : entry) (st : state)
    : option (message * option string) * state :=
  let title := clean w (default "No title" (e_title e)) in
  let description := clean w (default "" (e_description e)) in
  let link := default "" (e_link e) in
  let '((title', description'), st) := select_text w c title description st in
  match shorten description' with
  | None => (None, st)
  | Some description'' =>
      let '(image_path, st) := make_image w title' title st in
      (Some ({| msg_title := title'; msg_description := description'';
                msg_link := link |}, image_path), st)
  end.

(** *** The publish step of [rss_loop] (lines 506-547) *)

Definition has_image (image_path : option string) (st : state) : bool :=
  match image_path with
  | Some p => Py.truthy_str p && bool_decide (p ∈ files st)
  | None => false
  end.

(** [bot.send_message]; the boolean is false when it raises. *)
Definition send_text (w : world) (m : message) (st : state) : bool * state :=
  let ok := w_text w (now_of st) m in
  (ok, emit (EvSendText m) st).

(** Lines 510-535: the send, with the photo first when there is one. *)
Definition send (w : world) (m : message) (image_path : option string)
    (st : state) : bool * state :=
  if has_image image_path st then
    let p := default "" image_path in
    let ok := w_photo w (now_of st) p m in
    let st := emit (EvSendPhoto p m) st in
    if ok
    then (true, emit (EvRemove p) (set_files (files st ∖ {[ p ]}) st))
    else send_text w m st
  else send_text w m st.

(** The body of the loop for one entry that has a link that is not in
    the store (lines 506-547).  The boolean tells whether it was posted. *)
Definition publish (w : world) (c : config) (e : entry) (st : state) : bool * state :=
  let st := emit (EvPublish e (sent_entries st)) st in
  match format_message w c e st with
  | (None, st) => (false, add_error st)
  | (Some (m, image_path), st) =>
      let '(ok, st) := send w m image_path st in
      if ok then
        let st := set_sent ({[ default "" (e_link e) ]} ∪ sent_entries st) st in
        (true, emit (EvSleep 3) (add_post st))
      else (false, add_error st)
  end.

(** Whether line 503 lets the entry through. *)
Definition is_new (s : gset string) (e : entry) : bool :=
  match e_link e with
  | Some l => bool_decide (l ∉ s)
  | None => false
  end.

(** The loop over the entries of one feed (lines 499-547). *)
Fixpoint entries_loop (w : world) (c : config) (es : list entry) (st : state) : state :=
  match es with
  | [] => st
  | e :: r =>
      if w_stop w (now_of st) then st else
      if is_new (sent_entries st) e
      then entries_loop w c r (publish w c e st).2
      else entries_loop w c r st
  end.

(** [reversed(feed.entries[:10])] *)
Definition batch (entries : list entry) : list entry := rev (take 10 entries).

(** The loop over the sources (lines 488-551). *)
Fixpoint feeds_loop (w : world) (c : config) (urls : list string) (st : state) : state :=
  match urls with
  | [] => st
  | url :: r =>
      if w_stop w (now_of st) then st else
      let answer := w_feed w (now_of st) url in
      let st := emit (EvFetch url) st in
      match answer with
      | None => feeds_loop w c r (add_error st)
      | Some [] => feeds_loop w c r st
      | Some entries => feeds_loop w c r (entries_loop w c (batch entries) st)
      end
  end.

(** One turn of the [while] of [rss_loop] (lines 483-555). *)
Definition cycle (w : world) (c : config) (st : state) : state :=
  emit (EvWait (CHECK_INTERVAL c)) (feeds_loop w c (RSS_URLS c) st).

Fixpoint rss_loop (w : world) (c : config) (fuel : nat) (st : state) : bool * state :=
  match fuel with
  | O => (false, st)
  | S n =>
      if w_running w (now_of st) && negb (w_stop w (now_of st))
      then rss_loop w c n (cycle w c st)
      else (true, st)
  end.

(** *** The controller (lines 437-478) and the start of the process *)

Record control := {
  is_running : bool;
  stop_event : bool;
  globals : state
}.

Definition start (k : control) : bool * control :=
  if is_running k then (false, k)
  else (true,
        {| is_running := true; stop_event := false;
           globals := {| sent_entries := sent_entries (globals k);
                         files := files (globals k);
                         posts_sent := 0; errors := 0; yagpt_used := 0;
                         yagpt_errors := 0; images_generated := 0;
                         trace := trace (globals k) |} |}).

Definition stop (k : control) : bool * control :=
  if negb (is_running k) then (false, k)
  else (true, {| is_running := false; stop_event := true; globals := globals k |}).

(** A new process: the module is loaded again (line 104 and the
    counters), and only the file system is what the last process left. *)
Definition boot (previous : state) : control :=
  {| is_running := false; stop_event := false;
     globals := {| sent_entries := ∅; files := files previous;
                   posts_sent := 0; errors := 0; yagpt_used := 0;
                   yagpt_errors := 0; images_generated := 0; trace := [] |} |}.

(** [restart_command] (lines 884-886), the part on the controller: the
    boolean is what [start] answers. *)
Definition restart (k : control) : bool * control :=
  let k := (stop k).2 in
  start {| is_running := is_running k; stop_event := stop_event k;
           globals := emit (EvSleep 1) (globals k) |}.

(** *** The place of the text on the image (lines 306-330) *)

Definition calculate_x_position (image_width text_width : Z) (position : string)
    (offset : Z) : Z :=
  if String.eqb position "left" then offset
  else if String.eqb position "right" then image_width - text_width + offset
  else (image_width - text_width) / 2 + offset.

Definition calculate_y_position (image_height total_height : Z) (position : string)
    (offset : Z) : Z :=
  if String.eqb position "top" then offset
  else if String.eqb position "bottom" then image_height - total_height + offset
  else (image_height - total_height) / 2 + offset.

(** *** Reading the environment: [get_env_var] (lines 35-64)

    The default of a variable is any Python value, and it is what
    [os.getenv] hands back when the variable is not set.  Floats are not
    looked into: [F] is the type of floats, and what [float(v)] and [int(f)]
    do is given from outside. *)

Inductive pyval (F : Type) :=
| VNone
| VBool (b : bool)
| VInt (z : Z)
| VFloat (f : F)
| VStr (s : string)
| VList (l : list string)
| VTuple (l : list Z).

Arguments VNone {F}.
Arguments VBool {F} b.
Arguments VInt {F} z.
Arguments VFloat {F} f.
Arguments VStr {F} s.
Arguments VList {F} l.
Arguments VTuple {F} l.

(** What a conversion does: it gives a value, raises [TypeError] or
    [ValueError] (which [get_env_var] catches), or raises something else. *)
Inductive conv (A : Type) :=
| Done (a : A)
| Caught
| Uncaught.

Arguments Done {A} a.
Arguments Caught {A}.
Arguments Uncaught {A}.

Inductive var_type := TStr | TInt | TList | TBool | TTuple | TFloat.

(** How a call of [get_env_var] ends: with a value, with [exit(1)], or
    with an exception that nothing catches. *)
Inductive outcome (F : Type) :=
| Returns (v : pyval F)
| Exits
| Raises.

Arguments Returns {F} v.
Arguments Exits {F}.
Arguments Raises {F}.

(** [s.strip(chars)] *)
Fixpoint lstrip_set (chars : list ascii) (s : list ascii) : list ascii :=
  match s with
  | c :: r => if existsb (Ascii.eqb c) chars then lstrip_set chars r else s
  | [] => []
  end.

Definition strip_set (chars : list ascii) (s : string) : string :=
  string_of_list_ascii
    (rev (lstrip_set chars (rev (lstrip_set chars (list_ascii_of_string s))))).

(** [[int(p) for p in parts]]: [None] when one of them is no integer. *)
Fixpoint ints (parts : list string) : option (list Z) :=
  match parts with
  | [] => Some []
  | p :: r =>
      match Py.int p, ints r with
      | Some z, Some zs => Some (z :: zs)
      | _, _ => None
      end
  end.

Definition truthy_words : list string := ["true"; "1"; "yes"; "y"].

(** The two quote characters, single and double. *)
Definition quotes : list ascii := [ascii_of_nat 39; ascii_of_nat 34].

(** The list comprehension of line 54: the pieces between the commas that
    are not blank, each stripped of white space and then of quotes. *)
Definition urls_of (value : string) : list string :=
  map (fun url => strip_set quotes (Py.strip url))
    (List.filter (fun url => Py.truthy_str (Py.strip url)) (Main.split_on "," value)).

Section get_env_var.
Variable F : Type.
Variable to_float : pyval F -> conv F.     (* float(v) *)
Variable float_to_int : F -> conv Z.       (* int(f) *)

(** [int(value)] *)
Definition to_int (value : pyval F) : conv Z :=
  match value with
  | VStr s => match Py.int s with Some z => Done z | None => Caught end
  | VInt z => Done z
  | VBool b => Done (if b then 1 else 0)
  | VFloat f => float_to_int f
  | _ => Caught
  end.

Definition get_env_var (env : string -> option string) (name : string)
    (default : pyval F) (required : bool) (ty : var_type) : outcome F :=
  let value := match env name with Some s => VStr s | None => default end in
  match value with
  | VNone => if required then Exits else Returns default
  | _ =>
      match ty with
      | TInt =>
          match to_int value with
          | Done z => Returns (VInt z)
          | Caught => Returns default
          | Uncaught => Raises
          end
      | TList =>
          match value with
          | VStr s => Returns (VList (urls_of (strip_set ["["; "]"]%char s)))
          | _ => Raises
          end
      | TBool =>
          match value with
          | VStr s => Returns (VBool (existsb (String.eqb (Main.lower s)) truthy_words))
          | _ => Raises
          end
      | TTuple =>
          match value with
          | VStr s =>
              match ints (Main.split_on "," s) with
              | Some zs => Returns (VTuple zs)
              | None => Returns default
              end
          | _ => Raises
          end
      | TFloat =>
          match to_float value with
          | Done f => Returns (VFloat f)
          | Caught => Returns default
          | Uncaught => Raises
          end
      | TStr => Returns value
      end
  end.

(** The settings the cycle and the commands use (lines 67-80). *)
Definition TOKEN env := get_env_var env "TELEGRAM_TOKEN" VNone true TStr.
Definition OWNER_ID env := get_env_var env "OWNER_ID" VNone true TInt.
Definition RSS_URLS_setting env :=
  get_env_var env "RSS_URLS" (VStr "https://www.interfax.ru/rss.asp") false TList.
Definition CHECK_INTERVAL_setting env :=
  get_env_var env "CHECK_INTERVAL" (VInt 300) false TInt.
Definition DISABLE_YAGPT env := get_env_var env "DISABLE_YAGPT" (VBool false) false TBool.
Definition DEBUG_GRID env := get_env_var env "DEBUG_GRID" (VBool false) false TBool.

End get_env_var.

(** *** The command handlers (lines 822-997)

    A handler gets the message and the controller and gives the controller
    back together with the replies it sent, each with the keyboard of that
    moment ([create_reply_keyboard] looks at [controller.status()]).
    [owner] is OWNER_ID: an integer, or nothing when the setting could not
    be read as one. *)

Record chat_message := {
  from_user : option Z;      (* message.from_user.id, when there is a user *)
  text : option string       (* message.text *)
}.

Inductive reply_text :=
| TWelcome | TStatus | TCombined | TSources | TInfo | TUnknown
| TStarted | TAlreadyRunning
| TStopped | TAlreadyStopped
| TRestarted | TRestartError.

Record reply := {
  said : reply_text;
  keyboard_running : bool
}.

Definition reply_to (t : reply_text) (k : control) : list reply :=
  [{| said := t; keyboard_running := is_running k |}].

Definition handler := option Z -> chat_message -> control -> control * list reply.

(** [message.from_user is None or message.from_user.id != OWNER_ID] is
    false. *)
Definition authorized (owner : option Z) (m : chat_message) : bool :=
  match from_user m, owner with
  | Some id, Some o => id =? o
  | _, _ => false
  end.

Definition send_welcome : handler := fun owner m k =>
  if negb (authorized owner m) then (k, []) else (k, reply_to TWelcome k).

Definition send_status : handler := fun owner m k =>
  if negb (authorized owner m) then (k, []) else (k, reply_to TStatus k).

Definition send_stats : handler := fun owner m k =>
  if negb (authorized owner m) then (k, []) else (k, reply_to TCombined k).

Definition start_command : handler := fun owner m k =>
  if negb (authorized owner m) then (k, []) else
  let '(ok, k) := start k in
  (k, reply_to (if ok then TStarted else TAlreadyRunning) k).

Definition stop_command : handler := fun owner m k =>
  if negb (authorized owner m) then (k, []) else
  let '(ok, k) := stop k in
  (k, reply_to (if ok then TStopped else TAlreadyStopped) k).

Definition restart_command : handler := fun owner m k =>
  if negb (authorized owner m) then (k, []) else
  let '(ok, k) := restart k in
  (k, reply_to (if ok then TRestarted else TRestartError) k).

Definition sources_command : handler := fun owner m k =>
  if negb (authorized owner m) then (k, []) else (k, reply_to TSources k).

(** The handler of every other text (lines 965-997): the buttons. *)
Definition handle_text_messages : handler := fun owner m k =>
  if negb (authorized owner m) then (k, []) else
  match text m with
  | None => (k, [])
  | Some t =>
      let text := Py.strip t in
      if String.eqb text "▶️ Запустить" then start_command owner m k
      else if String.eqb text "⏸️ Приостановить" || String.eqb text "🛑 Остановить"
      then stop_command owner m k
      else if String.eqb text "🔄 Перезапустить" then restart_command owner m k
      else if String.eqb text "📊 Статистика" then (k, reply_to TCombined k)
      else if String.eqb text "📝 Источники" then sources_command owner m k
      else if String.eqb text "❓ Помощь" then send_welcome owner m k
      else if String.eqb text "ℹ️ Инфо" then (k, reply_to TInfo k)
      else (k, reply_to TUnknown k)
  end.

(** The handlers the buttons and these commands reach. *)
Definition control_handlers : list handler :=
  [send_welcome; send_status; send_stats; start_command; stop_command;
   restart_command; sources_command; handle_text_messages].

(** *** The lines of the title on the image (lines 236-256 of
    [generate_image])

    [width] is the width [draw.textbbox] measures for a text, [words] is
    [title.split()]. *)

(** Lines 243-250: what is done with [current_line] when a line is
    complete. *)
Definition close_line (current_line : string) (lines : list string) : list string :=
  if Py.truthy_str current_line then (lines ++ [Py.strip current_line])%list else lines.

(** The loop of lines 240-248. *)
Fixpoint wrap_loop (width : string -> Z) (max_width : Z) (words : list string)
    (current_line : string) (lines : list string) : list string * string :=
  match words with
  | [] => (lines, current_line)
  | word :: r =>
      let test_line := ((current_line ++ word) ++ " ")%string in
      if width test_line <=? max_width
      then wrap_loop width max_width r test_line lines
      else wrap_loop width max_width r (word ++ " ")%string (close_line current_line lines)
  end.

(** Lines 236-251 *)
Definition wrap (width : string -> Z) (max_width : Z) (words : list string) : list string :=
  let '(lines, current_line) := wrap_loop width max_width words "" [] in
  close_line current_line lines.

(** [l[:k]] for any integer [k]. *)
Definition slice_to {A} (k : Z) (l : list A) : list A :=
  let n := Z.of_nat (length l) in
  let k := if k <? 0 then Z.max 0 (k + n) else Z.min k n in
  take (Z.to_nat k) l.

(** [s[:-3]] *)
Definition drop_last3 (s : string) : string :=
  String.substring 0 (String.length s - 3) s.

(** Lines 253-256; [None] is the [IndexError] of [lines[-1]] on an empty
    list, which the handler of [generate_image] turns into no image. *)
Definition limit_lines (max_lines : Z) (lines : list string) : option (list string) :=
  if max_lines <? Z.of_nat (length lines) then
    let lines := slice_to max_lines lines in
    match last lines with
    | None => None
    | Some l =>
        if (15 <? Py.len l)%nat
        then Some (removelast lines ++ [(drop_last3 l ++ "...")%string])%list
        else Some lines
    end
  else Some lines.

End Mainn.

(** * Properties *)

Local Open Scope list_scope.
#[local] Set Warnings "-clear-no-such-hyp".

(** ** Traces

    Both programs keep their trace in their state; the lemmas on how a
    trace is extended are the same for both. *)

Class Traced (S E : Type) := trace_of : S -> list E.

Section traces.
Context {S E : Type} `{Traced S E}.

(** [grows P st st']: [st'] has the trace of [st] followed by events that
    all satisfy [P]. *)
Definition grows (P : E -> Prop) (st st' : S) : Prop :=
  exists ev, trace_of st' = trace_of st ++ ev /\ Forall P ev.

(** The events made between [st] and a later [st']. *)
Definition since (st st' : S) : list E :=
  drop (length (trace_of st)) (trace_of st').

Lemma grows_refl P st : grows P st st.
Proof. exists []. split; [by rewrite app_nil_r | constructor]. Qed.

Lemma grows_same P st st' : trace_of st' = trace_of st -> grows P st st'.
Proof. intros Eq. exists []. split; [by rewrite app_nil_r | constructor]. Qed.

Lemma grows_one (P : E -> Prop) e st st' :
  trace_of st' = trace_of st ++ [e] -> P e -> grows P st st'.
Proof. intros Eq HP. exists [e]. split; [done | by constructor]. Qed.

Lemma grows_trans P st1 st2 st3 :
  grows P st1 st2 -> grows P st2 st3 -> grows P st1 st3.
Proof.
  intros (e1 & E1 & F1) (e2 & E2 & F2). exists (e1 ++ e2). split.
  - by rewrite E2, E1, app_assoc.
  - by apply Forall_app.
Qed.

Lemma grows_since P st st' : grows P st st' -> Forall P (since st st').
Proof.
  intros (ev & Eq & F). unfold since. by rewrite Eq, drop_app_length.
Qed.

Lemma grows_all P st st' :
  grows P st st' -> Forall P (trace_of st) -> Forall P (trace_of st').
Proof. intros (ev & Eq & F) Hall. rewrite Eq. by apply Forall_app. Qed.

Lemma grows_weaken (P Q : E -> Prop) st st' :
  (forall e, P e -> Q e) -> grows P st st' -> grows Q st st'.
Proof.
  intros HPQ (ev & Eq & F). exists ev. split; [done |].
  eapply Forall_impl; eauto.
Qed.

Lemma since_app st st' ev : trace_of st' = trace_of st ++ ev -> since st st' = ev.
Proof. intros Eq. unfold since. by rewrite Eq, drop_app_length. Qed.

(** [extends st st' ev]: [ev] is what was added to the trace. *)
Definition extends (st st' : S) (ev : list E) : Prop :=
  trace_of st' = trace_of st ++ ev.

Lemma extends_refl st : extends st st [].
Proof. unfold extends. by rewrite app_nil_r. Qed.

Lemma extends_trans st1 st2 st3 ev1 ev2 :
  extends st1 st2 ev1 -> extends st2 st3 ev2 -> extends st1 st3 (ev1 ++ ev2).
Proof. unfold extends. intros E1 E2. by rewrite E2, E1, app_assoc. Qed.

Lemma extends_since st st' ev : extends st st' ev -> since st st' = ev.
Proof. apply since_app. Qed.
End traces.

#[global] Instance main_traced : Traced Main.state Main.event := Main.trace.
#[global] Instance mainn_traced : Traced Mainn.state Mainn.event := Mainn.trace.

(** ** Lines of a text *)

Module PyFacts.

(** A text that is one line: it is not empty and has no character at
    which [splitlines] ends a line. *)
Definition one_line (s : string) : bool :=
  Py.truthy_str s
  && forallb (fun c => negb (Py.is_line_boundary c)) (list_ascii_of_string s).

Lemma ascii_of_append (a b : string) :
  list_ascii_of_string (a ++ b)%string = list_ascii_of_string a ++ list_ascii_of_string b.
Proof.
  induction a as [| c a IH]; [done |].
  change (String c a ++ b)%string with (String c (a ++ b)). simpl. by rewrite IH.
Qed.

Lemma ascii_of_join (x y : string) (l : list string) :
  list_ascii_of_string (Py.join Main.nl (x :: y :: l))
  = list_ascii_of_string x ++ Py.LF :: list_ascii_of_string (Py.join Main.nl (y :: l)).
Proof.
  change (Py.join Main.nl (x :: y :: l))
    with (x ++ Main.nl ++ Py.join Main.nl (y :: l))%string.
  by rewrite !ascii_of_append.
Qed.

Lemma one_line_chars (s : string) :
  one_line s = true ->
  list_ascii_of_string s <> []
  /\ Forall (fun c => Py.is_line_boundary c = false) (list_ascii_of_string s).
Proof.
  unfold one_line. intros H. apply andb_true_iff in H as [Ht Hf]. split.
  - by destruct s.
  - pose proof (proj1 (List.forallb_forall _ _) Hf) as Hall.
    apply Forall_forall. intros c Hc.
    apply negb_true_iff, Hall. by apply list_elem_of_In.
Qed.

Lemma splitlines_loop_plain (x rest line : list ascii) :
  Forall (fun c => Py.is_line_boundary c = false) x ->
  Py.splitlines_loop (x ++ rest) line = Py.splitlines_loop rest (line ++ x).
Proof.
  intros Hx. revert line. induction Hx as [| c x Hc _ IH]; intros line; simpl.
  - by rewrite app_nil_r.
  - rewrite Hc, IH. by rewrite <- app_assoc.
Qed.

Lemma splitlines_loop_feed (rest line : list ascii) :
  Py.splitlines_loop (Py.LF :: rest) line
  = string_of_list_ascii line :: Py.splitlines_loop rest [].
Proof. by destruct rest. Qed.

(** Lines that are joined and split again are the same lines. *)
Lemma splitlines_join (l : list string) :
  Forall (fun s => one_line s = true) l -> Py.splitlines (Py.join Main.nl l) = l.
Proof.
  unfold Py.splitlines. induction 1 as [| x l Hx Hl IH]; [done |].
  destruct (one_line_chars x Hx) as [Hne Hp].
  destruct l as [| y l].
  - change (Py.join Main.nl [x]) with x.
    rewrite <- (app_nil_r (list_ascii_of_string x)), splitlines_loop_plain by done.
    simpl. destruct (list_ascii_of_string x) eqn:E; [done |].
    by rewrite <- E, string_of_list_ascii_of_string.
  - rewrite ascii_of_join, splitlines_loop_plain, splitlines_loop_feed by done.
    by rewrite app_nil_l, string_of_list_ascii_of_string, IH.
Qed.

Lemma universal_newlines_same (s : list ascii) :
  Forall (fun c => c <> Py.CR) s -> Py.universal_newlines s = s.
Proof.
  induction 1 as [| c s Hc _ IH]; simpl; [done |].
  destruct (Ascii.eqb_spec c Py.CR) as [-> | _]; [done | by rewrite IH].
Qed.

Lemma join_chars (P : ascii -> Prop) (l : list string) :
  P Py.LF -> Forall (fun s => Forall P (list_ascii_of_string s)) l ->
  Forall P (list_ascii_of_string (Py.join Main.nl l)).
Proof.
  intros HP. induction 1 as [| x l Hx Hl IH]; [constructor |].
  destruct l as [| y l]; [done |].
  rewrite ascii_of_join. apply Forall_app. split; [done |]. by constructor.
Qed.

(** A text of joined lines is read as it was written. *)
Lemma read_text_join (l : list string) :
  Forall (fun s => one_line s = true) l ->
  Py.read_text (Py.join Main.nl l) = Py.join Main.nl l.
Proof.
  intros Hl. unfold Py.read_text.
  rewrite universal_newlines_same; [apply string_of_list_ascii_of_string |].
  apply join_chars; [done |].
  eapply Forall_impl; [exact Hl |]. intros s Hs.
  destruct (one_line_chars s Hs) as [_ Hp].
  eapply Forall_impl; [exact Hp |]. intros c Hc ->. done.
Qed.

End PyFacts.

(** ** Traces of src/main.py *)

Module MainFacts.
Import Main.

Definition is_call (e : event) : bool :=
  match e with EvPublish _ _ => true | _ => false end.

Lemma grows_emit (P : event -> Prop) e st : P e -> grows P st (emit e st).
Proof. by apply grows_one. Qed.

Section quiet.
(** A property of events that only calls of [send_news] can break. *)
Variable P : event -> Prop.
Hypothesis quiet : forall e, is_call e = false -> P e.

Lemma grows_admin n st : grows P st (send_admin_message n st).
Proof. apply grows_emit. by apply quiet. Qed.

Lemma grows_load w st : grows P st (load_history w st).2.
Proof.
  unfold load_history. destruct (disk st); [| apply grows_refl].
  destruct (w_file w (now_of st)); simpl; apply grows_emit; by apply quiet.
Qed.

Lemma grows_save w st : grows P st (save_history w st).2.
Proof.
  unfold save_history.
  destruct (w_file w (now_of st)); simpl; apply grows_emit; by apply quiet.
Qed.

Lemma grows_evict w h st : grows P st (evict w h st).
Proof. unfold evict. case_match; [by apply grows_same | apply grows_refl]. Qed.

Lemma grows_wait w n st : grows P st (wait_loop w n st).
Proof.
  revert st. induction n as [| n IH]; intros st; simpl; [apply grows_refl |].
  case_match; [| apply grows_refl].
  eapply grows_trans; [| apply IH]. apply grows_emit. by apply quiet.
Qed.

Lemma grows_get_news_loop w urls acc st : grows P st (get_news_loop w urls acc st).2.
Proof.
  revert acc st. induction urls as [| u r IH]; intros acc st; simpl; [apply grows_refl |].
  case_match; [apply IH |].
  assert (G : grows P st (emit (EvFetch (Py.strip u)) st))
    by (apply grows_emit; by apply quiet).
  destruct (w_feed w (now_of st) (Py.strip u)) as [es |].
  - destruct (read_entries _ _ _ es acc) as [acc' raised].
    destruct raised.
    + eapply grows_trans; [| apply IH].
      eapply grows_trans; [apply G |]. eapply grows_trans; [| apply grows_admin].
      by apply grows_same.
    + eapply grows_trans; [apply G | apply IH].
  - eapply grows_trans; [| apply IH].
    eapply grows_trans; [apply G |]. eapply grows_trans; [| apply grows_admin].
    by apply grows_same.
Qed.

Lemma grows_get_news w urls st : grows P st (get_news w urls st).2.
Proof.
  unfold get_news. eapply grows_trans; [| apply grows_get_news_loop].
  by apply grows_same.
Qed.

Lemma grows_send_text w item st : grows P st (send_text w item st).2.
Proof.
  unfold send_text.
  assert (G : grows P st (emit (EvSendText (format_message item)) st))
    by (apply grows_emit; by apply quiet).
  destruct (w_text w (now_of st) (format_message item)); simpl.
  - eapply grows_trans; [apply G | by apply grows_same].
  - eapply grows_trans; [apply G |]. eapply grows_trans; [| apply grows_admin].
    by apply grows_same.
Qed.

(** [send_news] makes its own call event, then only quiet ones. *)
Lemma grows_send_news w item st :
  P (EvPublish item (sent_news st)) -> grows P st (send_news w item st).2.
Proof.
  intros HP. unfold send_news.
  set (st1 := emit (EvPublish item (sent_news st)) st).
  assert (G : grows P st st1) by (by apply grows_emit).
  eapply grows_trans; [apply G |].
  destruct (truthy_image (image item)); [| apply grows_send_text].
  set (st2 := emit (EvHead _) st1).
  assert (G2 : grows P st1 st2) by (apply grows_emit; by apply quiet).
  eapply grows_trans; [apply G2 |].
  destruct (w_head w (now_of st1) _) as [status |]; [| apply grows_send_text].
  destruct (status =? 200); [| apply grows_send_text].
  set (st3 := emit (EvSendPhoto _ _) st2).
  assert (G3 : grows P st2 st3) by (apply grows_emit; by apply quiet).
  destruct (w_photo w (now_of st2) _ _); simpl.
  + eapply grows_trans; [apply G3 | by apply grows_same].
  + eapply grows_trans; [apply G3 | apply grows_send_text].
Qed.

End quiet.

(** *** The store between the calls *)

Lemma send_text_store w item st : sent_news (send_text w item st).2 = sent_news st.
Proof. unfold send_text. by destruct (w_text w (now_of st) _). Qed.

Lemma send_news_store w item st : sent_news (send_news w item st).2 = sent_news st.
Proof.
  unfold send_news. repeat (case_match; simpl); by rewrite ?send_text_store.
Qed.

Lemma get_news_loop_store w urls acc st :
  sent_news (get_news_loop w urls acc st).2 = sent_news st.
Proof.
  revert acc st. induction urls as [| u r IH]; intros acc st; simpl; [done |].
  repeat (case_match; simpl); by rewrite IH.
Qed.

Lemma get_news_store w urls st : sent_news (get_news w urls st).2 = sent_news st.
Proof. unfold get_news. by rewrite get_news_loop_store. Qed.

Lemma truthy_str_nonempty s : Py.truthy_str s = true -> s <> "".
Proof. by destruct s. Qed.

(** What every call of [send_news] has to satisfy: the item has a link,
    the link is not in the store at that moment, and the store at that
    moment still holds all of [s0]. *)
Definition guarded_from (s0 : gset string) (e : event) : Prop :=
  match e with
  | EvPublish item seen => link item <> "" /\ (link item ∉ seen) /\ (s0 ⊆ seen)
  | _ => True
  end.

Lemma guarded_quiet s0 e : is_call e = false -> guarded_from s0 e.
Proof. by destruct e. Qed.

Lemma send_loop_guarded w d news k st s0 :
  s0 ⊆ sent_news st ->
  grows (guarded_from s0) st (send_loop w d news k st).2.1
  /\ s0 ⊆ sent_news (send_loop w d news k st).2.1.
Proof.
  revert k st. induction news as [| item r IH]; intros k st Hs; simpl.
  { split; [apply grows_refl | done]. }
  destruct (w_running w (now_of st)); simpl; [| split; [apply grows_refl | done]].
  destruct (is_new (sent_news st) item) eqn:Hnew; [| by apply IH].
  apply andb_true_iff in Hnew as [Hl Hn]. apply bool_decide_eq_true in Hn.
  pose proof (grows_send_news (guarded_from s0) (guarded_quiet s0) w item st) as G.
  pose proof (send_news_store w item st) as Es.
  destruct (send_news w item st) as [ok st1]; simpl in *.
  assert (G1 : grows (guarded_from s0) st st1).
  { apply G. split; [by apply truthy_str_nonempty | done]. }
  destruct ok.
  - assert (Hs1 : s0 ⊆ {[link item]} ∪ sent_news st1).
    { intros x Hx. apply elem_of_union. right. rewrite Es. by apply Hs. }
    destruct (Py.sleep_raises d); simpl.
    { split; [| done]. eapply grows_trans; [apply G1 | by apply grows_same]. }
    set (st2 := emit _ _).
    destruct (IH (S k) st2) as [G2 S2]; [done |].
    split; [| done].
    eapply grows_trans; [apply G1 |]. eapply grows_trans; [| apply G2].
    eapply grows_trans; [| apply grows_emit; by apply guarded_quiet].
    by apply grows_same.
  - destruct (IH k st1) as [G2 S2]; [by rewrite Es |].
    split; [| done]. eapply grows_trans; eauto.
Qed.

(** What [cycle] is, by the two ways lines 281-303 are left. *)
Lemma cycle_cases w c st :
  cycle w c st
  = if cycle_raises w c st then on_error (cycle_sends w c st)
    else wait_loop w (Z.to_nat (check_interval c)) (keep_history w c (cycle_sends w c st)).
Proof. unfold cycle, cycle_raises, cycle_sends. by destruct (try_sends w c st). Qed.

Lemma grows_on_error (P : event -> Prop) st :
  (forall e, is_call e = false -> P e) -> grows P st (on_error st).
Proof.
  intros quiet. unfold on_error.
  eapply grows_trans; [| apply grows_emit; by apply quiet].
  eapply grows_trans; [| by apply grows_admin]. by apply grows_same.
Qed.

Lemma on_error_store st : sent_news (on_error st) = sent_news st.
Proof. done. Qed.

Lemma on_error_disk st : disk (on_error st) = disk st.
Proof. done. Qed.

Lemma cycle_sends_guarded w c st :
  grows (guarded_from (sent_news st)) st (cycle_sends w c st).
Proof.
  unfold cycle_sends, try_sends.
  pose proof (grows_get_news _ (guarded_quiet (sent_news st)) w (rss_urls c) st) as G.
  pose proof (get_news_store w (rss_urls c) st) as Es.
  destruct (get_news w (rss_urls c) st) as [news st1]; simpl in *.
  set (st2 := if (0 <? count_new _ _)%nat then _ else _).
  assert (G2 : grows (guarded_from (sent_news st)) st1 st2).
  { subst st2. case_match; [apply grows_admin, guarded_quiet | apply grows_refl]. }
  assert (E2 : sent_news st2 = sent_news st1) by (subst st2; by case_match).
  destruct (send_loop_guarded w (post_delay c) news 0 st2 (sent_news st)) as [G3 _].
  { by rewrite E2, Es. }
  destruct (send_loop w (post_delay c) news 0 st2) as [k [st3 raised]]; simpl in *.
  eapply grows_trans; [apply G |]. eapply grows_trans; [apply G2 |].
  destruct raised; simpl; [exact G3 |].
  eapply grows_trans; [apply G3 |].
  case_match; [apply grows_admin, guarded_quiet | apply grows_refl].
Qed.

Lemma cycle_guarded w c st : grows (guarded_from (sent_news st)) st (cycle w c st).
Proof.
  rewrite cycle_cases. destruct (cycle_raises w c st).
  - eapply grows_trans; [apply cycle_sends_guarded |].
    apply grows_on_error, guarded_quiet.
  - unfold keep_history.
    eapply grows_trans; [| apply grows_wait, guarded_quiet].
    eapply grows_trans; [| apply grows_save, guarded_quiet].
    eapply grows_trans; [| apply grows_evict].
    apply cycle_sends_guarded.
Qed.

Lemma guarded_from_empty s0 e : guarded_from s0 e -> guarded_from ∅ e.
Proof. destruct e; simpl; try done. intros (? & ? & ?). set_solver. Qed.

Lemma worker_loop_guarded w c fuel st :
  grows (guarded_from ∅) st (worker_loop w c fuel st).2.
Proof.
  revert st. induction fuel as [| n IH]; intros st; simpl; [apply grows_refl |].
  case_match; [| apply grows_refl].
  eapply grows_trans; [| apply IH].
  eapply grows_weaken; [apply guarded_from_empty | apply cycle_guarded].
Qed.

Lemma bot_worker_guarded w c fuel st :
  grows (guarded_from ∅) st (bot_worker w c fuel st).2.
Proof.
  unfold bot_worker.
  set (st1 := (load_history w (send_admin_message NWorkerStarted st)).2).
  assert (G1 : grows (guarded_from ∅) st st1).
  { eapply grows_trans; [apply grows_admin, guarded_quiet |].
    apply grows_load, guarded_quiet. }
  pose proof (worker_loop_guarded w c fuel st1) as G2.
  destruct (worker_loop w c fuel st1) as [ended st2]; simpl in *.
  destruct ended; simpl.
  - eapply grows_trans; [apply G1 |]. eapply grows_trans; [apply G2 |].
    apply grows_admin, guarded_quiet.
  - eapply grows_trans; eauto.
Qed.

(** *** The bound on the store *)

(** [ceil(h/2)] *)
Definition half_up (h : Z) : Z := (h + 1) / 2.

Lemma slice_from_length {A} (k : Z) (l : list A) :
  k < 0 -> - k <= Z.of_nat (length l) ->
  Z.of_nat (length (slice_from k l)) = - k.
Proof.
  intros Hk Hl. unfold slice_from.
  destruct (Z.ltb_spec k 0) as [_ | ?]; [| lia].
  rewrite length_drop. lia.
Qed.

Lemma slice_from_sublist {A} (k : Z) (l : list A) x : x ∈ slice_from k l -> x ∈ l.
Proof. unfold slice_from. intros Hx. eapply elem_of_sublist; [done | apply sublist_drop]. Qed.

Lemma order_NoDup w s : order_ok w -> NoDup (w_order w s).
Proof. intros H. rewrite (H s). apply NoDup_elements. Qed.

Lemma order_length w s : order_ok w -> length (w_order w s) = size s.
Proof. intros H. by rewrite (H s). Qed.

Lemma order_elem w s x : order_ok w -> x ∈ w_order w s <-> x ∈ s.
Proof. intros H. rewrite (H s). apply elem_of_elements. Qed.

Lemma evict_subset w h st : order_ok w -> sent_news (evict w h st) ⊆ sent_news st.
Proof.
  intros Ho. unfold evict. case_match; [| done]. simpl.
  intros x Hx. apply elem_of_list_to_set in Hx.
  apply slice_from_sublist in Hx. by apply (order_elem w) in Hx.
Qed.

Lemma evict_size_over w h st :
  order_ok w -> 1 <= h -> h < Z.of_nat (size (sent_news st)) ->
  Z.of_nat (size (sent_news (evict w h st))) = half_up h.
Proof.
  intros Ho Hh Hs. unfold evict.
  destruct (Z.ltb_spec h (Z.of_nat (size (sent_news st)))) as [_ | ?]; [| lia].
  simpl. rewrite size_list_to_set.
  - rewrite slice_from_length.
    + unfold half_up. Z.div_mod_to_equations. lia.
    + Z.div_mod_to_equations. lia.
    + rewrite order_length by done. Z.div_mod_to_equations. lia.
  - unfold slice_from. eapply sublist_NoDup; [| apply sublist_drop].
    by apply order_NoDup.
Qed.

Lemma evict_size_within w h st :
  Z.of_nat (size (sent_news st)) <= h -> evict w h st = st.
Proof.
  intros Hs. unfold evict.
  by destruct (Z.ltb_spec h (Z.of_nat (size (sent_news st)))) as [? | _]; [lia |].
Qed.

Lemma evict_bounded w h st :
  order_ok w -> 1 <= h -> Z.of_nat (size (sent_news (evict w h st))) <= h.
Proof.
  intros Ho Hh.
  destruct (Z.le_gt_cases (Z.of_nat (size (sent_news st))) h) as [Hle | Hgt].
  - by rewrite evict_size_within.
  - rewrite evict_size_over by (done || lia).
    unfold half_up. Z.div_mod_to_equations. lia.
Qed.

Lemma save_history_store w st : sent_news (save_history w st).2 = sent_news st.
Proof. unfold save_history. by destruct (w_file w (now_of st)). Qed.

Lemma wait_loop_store w n st : sent_news (wait_loop w n st) = sent_news st.
Proof.
  revert st. induction n as [| n IH]; intros st; simpl; [done |].
  case_match; [by rewrite IH | done].
Qed.

Lemma keep_history_store w c st :
  sent_news (keep_history w c st) = sent_news (evict w (max_history c) st).
Proof. unfold keep_history. by rewrite save_history_store. Qed.

(** The store at the end of a cycle: trimmed when the cycle comes to its
    end, and as the sends left it when the cycle is cut short. *)
Lemma cycle_store w c st :
  sent_news (cycle w c st)
  = if cycle_raises w c st then sent_news (cycle_sends w c st)
    else sent_news (evict w (max_history c) (cycle_sends w c st)).
Proof.
  rewrite cycle_cases. destruct (cycle_raises w c st); [done |].
  by rewrite wait_loop_store, keep_history_store.
Qed.

(** During the sends the store grows by one link for each counted post. *)
Lemma send_text_posts w item st :
  posts_sent (send_text w item st).2
  = posts_sent st + (if (send_text w item st).1 then 1 else 0).
Proof. unfold send_text. destruct (w_text w (now_of st) _); simpl; lia. Qed.

Lemma send_news_posts w item st :
  posts_sent (send_news w item st).2
  = posts_sent st + (if (send_news w item st).1 then 1 else 0).
Proof.
  unfold send_news. set (st1 := emit (EvPublish item (sent_news st)) st).
  change (posts_sent st) with (posts_sent st1).
  destruct (truthy_image (image item)); [| apply send_text_posts].
  set (st2 := emit (EvHead _) st1). change (posts_sent st1) with (posts_sent st2).
  destruct (w_head w (now_of st1) _) as [status |]; [| apply send_text_posts].
  destruct (status =? 200); [| apply send_text_posts].
  set (st3 := emit (EvSendPhoto _ _) st2). change (posts_sent st2) with (posts_sent st3).
  destruct (w_photo w (now_of st2) _ _); [simpl; lia | apply send_text_posts].
Qed.

Lemma send_loop_counts w d news k st :
  let r := send_loop w d news k st in
  sent_news st ⊆ sent_news r.2.1
  /\ Z.of_nat (size (sent_news r.2.1)) - Z.of_nat (size (sent_news st))
     = posts_sent r.2.1 - posts_sent st
  /\ posts_sent r.2.1 - posts_sent st = Z.of_nat r.1 - Z.of_nat k.
Proof.
  revert k st. induction news as [| item r IH]; intros k st; simpl.
  { split; [done | lia]. }
  destruct (w_running w (now_of st)); simpl; [| split; [done | lia]].
  destruct (is_new (sent_news st) item) eqn:Hnew; [| apply IH].
  apply andb_true_iff in Hnew as [Hl Hn]. apply bool_decide_eq_true in Hn.
  pose proof (send_news_store w item st) as Es.
  pose proof (send_news_posts w item st) as Ep.
  destruct (send_news w item st) as [ok st1]; simpl in *.
  destruct ok.
  - assert (Hsz : size ({[link item]} ∪ sent_news st1) = S (size (sent_news st))).
    { rewrite Es. rewrite size_union by (by apply disjoint_singleton_l).
      by rewrite size_singleton. }
    destruct (Py.sleep_raises d); simpl.
    { split; [rewrite Es; apply union_subseteq_r | lia]. }
    set (st2 := emit _ _).
    destruct (IH (S k) st2) as (S2 & C2 & K2).
    assert (Hsz2 : size (sent_news st2) = S (size (sent_news st))) by done.
    assert (Hp : posts_sent st2 = posts_sent st + 1) by (simpl; lia).
    split; [| lia].
    etrans; [| apply S2]. simpl. rewrite Es. apply union_subseteq_r.
  - destruct (IH k st1) as (S2 & C2 & K2). rewrite Es in *.
    split; [done | lia].
Qed.

(** The loop is left by the exception exactly when [time.sleep] refuses
    the delay and an item was sent; it is then left after the first item
    that was sent. *)
Lemma send_loop_raised w d news k st :
  (send_loop w d news k st).2.2
  = Py.sleep_raises d && (k <? (send_loop w d news k st).1)%nat
  /\ (k <= (send_loop w d news k st).1)%nat
  /\ (Py.sleep_raises d = true -> ((send_loop w d news k st).1 <= S k)%nat).
Proof.
  revert k st. induction news as [| item r IH]; intros k st; simpl.
  { rewrite Nat.ltb_irrefl, andb_false_r. split; [done |]. split; [done | lia]. }
  destruct (w_running w (now_of st)); simpl.
  2: { rewrite Nat.ltb_irrefl, andb_false_r. split; [done |]. split; [done | lia]. }
  destruct (is_new (sent_news st) item); [| apply IH].
  destruct (send_news w item st) as [ok st1]; simpl.
  destruct ok; [| apply IH].
  destruct (Py.sleep_raises d) eqn:Hd; simpl.
  - split; [symmetry; apply Nat.ltb_lt; lia |]. split; [lia | done].
  - destruct (IH (S k) (emit (EvSleep d) (set_sent ({[link item]} ∪ sent_news st1) st1)))
      as (R & K & _).
    simpl in R. split; [done |]. split; [lia | done].
Qed.

Lemma get_news_loop_posts w urls acc st :
  posts_sent (get_news_loop w urls acc st).2 = posts_sent st.
Proof.
  revert acc st. induction urls as [| u r IH]; intros acc st; simpl; [done |].
  repeat (case_match; simpl); by rewrite IH.
Qed.

Lemma cycle_sends_counts w c st :
  sent_news st ⊆ sent_news (cycle_sends w c st)
  /\ Z.of_nat (size (sent_news (cycle_sends w c st))) - Z.of_nat (size (sent_news st))
     = posts_sent (cycle_sends w c st) - posts_sent st.
Proof.
  unfold cycle_sends, try_sends.
  pose proof (get_news_store w (rss_urls c) st) as Es.
  assert (Ep : posts_sent (get_news w (rss_urls c) st).2 = posts_sent st).
  { unfold get_news. by rewrite get_news_loop_posts. }
  destruct (get_news w (rss_urls c) st) as [news st1]; simpl in *.
  set (st2 := if (0 <? count_new _ _)%nat then _ else _).
  assert (E2 : sent_news st2 = sent_news st1) by (subst st2; by case_match).
  assert (P2 : posts_sent st2 = posts_sent st1) by (subst st2; by case_match).
  destruct (send_loop_counts w (post_delay c) news 0 st2) as (S3 & C3 & _).
  destruct (send_loop w (post_delay c) news 0 st2) as [k [st3 raised]]; simpl in *.
  rewrite E2, Es in *. rewrite P2, Ep in *.
  destruct raised; simpl; [done |].
  case_match; simpl; split; done.
Qed.

(** A cycle is cut short exactly when [time.sleep] refuses POST_DELAY and
    the cycle has sent an item. *)
Lemma cycle_raises_iff w c st :
  cycle_raises w c st
  = Py.sleep_raises (post_delay c) && (posts_sent st <? posts_sent (cycle_sends w c st)).
Proof.
  unfold cycle_raises, cycle_sends, try_sends.
  assert (Ep : posts_sent (get_news w (rss_urls c) st).2 = posts_sent st).
  { unfold get_news. by rewrite get_news_loop_posts. }
  destruct (get_news w (rss_urls c) st) as [news st1]; simpl in *.
  set (st2 := if (0 <? count_new _ _)%nat then _ else _).
  assert (P2 : posts_sent st2 = posts_sent st1) by (subst st2; by case_match).
  destruct (send_loop_counts w (post_delay c) news 0 st2) as (_ & _ & K3).
  destruct (send_loop_raised w (post_delay c) news 0 st2) as (R3 & _ & _).
  destruct (send_loop w (post_delay c) news 0 st2) as [k [st3 raised]]; simpl in *.
  rewrite P2, Ep in K3.
  assert (Hk : (0 <? k)%nat = (posts_sent st <? posts_sent st3)).
  { destruct (Nat.ltb_spec 0 k), (Z.ltb_spec (posts_sent st) (posts_sent st3)); try done; lia. }
  subst raised. destruct (Py.sleep_raises (post_delay c)); simpl; [| done].
  destruct (0 <? k)%nat; simpl; [done |]. by rewrite <- Hk.
Qed.

(** *** The life of the store *)

(** The links [send_news] was called with, in the order of the calls. *)
Definition published_links (ev : list event) : list string :=
  omap (fun e => match e with EvPublish i _ => Some (link i) | _ => None end) ev.

Lemma published_links_app ev1 ev2 :
  published_links (ev1 ++ ev2) = published_links ev1 ++ published_links ev2.
Proof. apply omap_app. Qed.

Lemma send_text_extends w item st : exists ev, extends st (send_text w item st).2 ev.
Proof.
  unfold send_text, extends, trace_of, main_traced.
  destruct (w_text w (now_of st) _); simpl.
  - by eexists.
  - eexists. by rewrite <- app_assoc.
Qed.

Lemma send_news_first w item st :
  exists ev, extends st (send_news w item st).2 (EvPublish item (sent_news st) :: ev).
Proof.
  unfold send_news. set (st1 := emit (EvPublish item (sent_news st)) st).
  assert (E1 : extends st st1 [EvPublish item (sent_news st)]) by done.
  assert (T : forall st2 ev2, extends st1 st2 ev2 ->
            exists ev, extends st (send_text w item st2).2 (EvPublish item (sent_news st) :: ev)).
  { intros st2 ev2 E2. destruct (send_text_extends w item st2) as [ev3 E3].
    exists (ev2 ++ ev3).
    apply (extends_trans _ _ _ _ _ E1 (extends_trans _ _ _ _ _ E2 E3)). }
  destruct (truthy_image (image item)).
  2: { apply (T st1 []). unfold extends. by rewrite app_nil_r. }
  set (st2 := emit (EvHead _) st1).
  assert (E2 : extends st1 st2 [EvHead (default ""%string (image item))]) by done.
  destruct (w_head w (now_of st1) _) as [status |]; [| by eapply T].
  destruct (status =? 200); [| by eapply T].
  set (st3 := emit (EvSendPhoto _ _) st2).
  assert (E3 : extends st1 st3 [EvHead (default ""%string (image item));
                                EvSendPhoto (default ""%string (image item)) (format_message item)]).
  { unfold extends, trace_of, main_traced. subst st3 st2. simpl. by rewrite <- app_assoc. }
  destruct (w_photo w (now_of st2) _ _); [| by eapply T].
  eexists. apply (extends_trans _ _ _ _ _ E1 E3).
Qed.

Lemma send_loop_recorded w d news k st :
  exists ev, extends st (send_loop w d news k st).2.1 ev
    /\ sent_news (send_loop w d news k st).2.1
       ⊆ sent_news st ∪ list_to_set (published_links ev).
Proof.
  revert k st. induction news as [| item r IH]; intros k st; simpl.
  { exists []. split; [unfold extends; by rewrite app_nil_r | apply union_subseteq_l]. }
  destruct (w_running w (now_of st)); simpl.
  2: { exists []. split; [unfold extends; by rewrite app_nil_r | apply union_subseteq_l]. }
  destruct (is_new (sent_news st) item); [| apply IH].
  destruct (send_news_first w item st) as [ev1 E1].
  pose proof (send_news_store w item st) as Es.
  destruct (send_news w item st) as [ok st1]; simpl in *.
  destruct ok.
  - destruct (Py.sleep_raises d); simpl.
    { exists (EvPublish item (sent_news st) :: ev1). split; [exact E1 |].
      rewrite Es. simpl. set_solver. }
    set (st2 := emit _ _).
    destruct (IH (S k) st2) as (ev2 & E2 & S2).
    exists ((EvPublish item (sent_news st) :: ev1) ++ [EvSleep d] ++ ev2). split.
    + eapply extends_trans; [apply E1 |]. eapply extends_trans; [| apply E2]. done.
    + etrans; [apply S2 |]. simpl. rewrite Es.
      rewrite !published_links_app. simpl.
      rewrite !list_to_set_app_L. simpl. set_solver.
  - destruct (IH k st1) as (ev2 & E2 & S2).
    exists ((EvPublish item (sent_news st) :: ev1) ++ ev2). split.
    + eapply extends_trans; eauto.
    + etrans; [apply S2 |]. rewrite Es.
      rewrite published_links_app, list_to_set_app_L. simpl. set_solver.
Qed.

Lemma cycle_sends_recorded w c st :
  sent_news (cycle_sends w c st)
  ⊆ sent_news st ∪ list_to_set (published_links (since st (cycle_sends w c st))).
Proof.
  unfold cycle_sends, try_sends.
  pose proof (grows_get_news (fun e => is_call e = false) (fun e H => H) w (rss_urls c) st)
    as (ev1 & E1 & F1).
  pose proof (get_news_store w (rss_urls c) st) as Es.
  destruct (get_news w (rss_urls c) st) as [news st1]; simpl in *.
  set (st2 := if (0 <? count_new _ _)%nat then _ else _).
  assert (E2 : sent_news st2 = sent_news st1) by (subst st2; by case_match).
  assert (T2 : exists ev2, extends st1 st2 ev2).
  { subst st2. case_match; [by eexists | exists []; unfold extends; by rewrite app_nil_r]. }
  destruct T2 as [ev2 T2].
  destruct (send_loop_recorded w (post_delay c) news 0 st2) as (ev3 & E3 & S3).
  destruct (send_loop w (post_delay c) news 0 st2) as [k [st3 raised]]; simpl in *.
  destruct raised; simpl.
  { assert (T : extends st st3 (ev1 ++ ev2 ++ ev3)).
    { eapply extends_trans; [exact E1 |]. eapply extends_trans; [exact T2 | exact E3]. }
    rewrite (since_app (H:=main_traced) st st3 _ T). etrans; [apply S3 |].
    rewrite E2, Es, !published_links_app, !list_to_set_app_L. set_solver. }
  set (st4 := if (0 <? k)%nat then _ else _).
  assert (E4 : sent_news st4 = sent_news st3) by (subst st4; by case_match).
  assert (T4 : exists ev4, extends st3 st4 ev4).
  { subst st4. case_match; [by eexists | exists []; unfold extends; by rewrite app_nil_r]. }
  destruct T4 as [ev4 T4].
  assert (T : extends st st4 (ev1 ++ ev2 ++ ev3 ++ ev4)).
  { eapply extends_trans; [exact E1 |]. eapply extends_trans; [exact T2 |].
    eapply extends_trans; [exact E3 | exact T4]. }
  rewrite (since_app (H:=main_traced) st st4 _ T), E4. etrans; [apply S3 |].
  rewrite E2, Es, !published_links_app, !list_to_set_app_L. set_solver.
Qed.

(** The last thing lines 305-309 do is writing the store. *)
Lemma keep_history_saves w c st :
  extends st (keep_history w c st)
    [EvSave (history_text w (sent_news (keep_history w c st)))].
Proof.
  rewrite keep_history_store. unfold keep_history, save_history, evict, extends.
  change (trace_of ?x) with (trace x).
  destruct (w_file w _); by case_match.
Qed.

Lemma save_history_disk w st :
  w_file w (now_of st) = true ->
  disk (save_history w st).2 = Some (history_text w (sent_news st)).
Proof. intros H. unfold save_history. by rewrite H. Qed.

Lemma keep_history_disk w c st :
  (forall t, w_file w t = true) ->
  disk (keep_history w c st) = Some (history_text w (sent_news (keep_history w c st))).
Proof.
  intros Hf. rewrite keep_history_store. unfold keep_history.
  by rewrite save_history_disk by apply Hf.
Qed.

Lemma send_text_disk w item st : disk (send_text w item st).2 = disk st.
Proof. unfold send_text. by destruct (w_text w (now_of st) _). Qed.

Lemma send_news_disk w item st : disk (send_news w item st).2 = disk st.
Proof.
  unfold send_news. repeat (case_match; simpl); by rewrite ?send_text_disk.
Qed.

Lemma get_news_disk w urls st : disk (get_news w urls st).2 = disk st.
Proof.
  unfold get_news.
  set (st0 := set_last_check _ st). change (disk st) with (disk st0).
  generalize (@nil news_item). generalize st0. clear st0.
  induction urls as [| u r IH]; intros st0 acc; simpl; [done |].
  repeat (case_match; simpl); by rewrite IH.
Qed.

Lemma send_loop_disk w d news k st : disk (send_loop w d news k st).2.1 = disk st.
Proof.
  revert k st. induction news as [| item r IH]; intros k st; simpl; [done |].
  destruct (w_running w (now_of st)); simpl; [| done].
  destruct (is_new (sent_news st) item); [| apply IH].
  pose proof (send_news_disk w item st) as Ed.
  destruct (send_news w item st) as [ok st1]; simpl in *.
  destruct ok; [| by rewrite IH].
  destruct (Py.sleep_raises d); simpl; [done |]. by rewrite IH.
Qed.

(** The sends of a cycle leave the file alone. *)
Lemma cycle_sends_disk w c st : disk (cycle_sends w c st) = disk st.
Proof.
  unfold cycle_sends, try_sends.
  pose proof (get_news_disk w (rss_urls c) st) as Ed.
  destruct (get_news w (rss_urls c) st) as [news st1]; simpl in *.
  set (st2 := if (0 <? count_new _ _)%nat then _ else _).
  assert (E2 : disk st2 = disk st1) by (subst st2; by case_match).
  pose proof (send_loop_disk w (post_delay c) news 0 st2) as E3.
  destruct (send_loop w (post_delay c) news 0 st2) as [k [st3 raised]]; simpl in *.
  destruct raised; simpl; [congruence |].
  case_match; simpl; congruence.
Qed.

Lemma wait_loop_disk w n st : disk (wait_loop w n st) = disk st.
Proof.
  revert st. induction n as [| n IH]; intros st; simpl; [done |].
  case_match; [by rewrite IH | done].
Qed.

Lemma order_round_trip w s : order_ok w -> list_to_set (w_order w s) = s.
Proof.
  intros Ho. apply set_eq. intros x.
  rewrite elem_of_list_to_set. by apply order_elem.
Qed.

(** What [save_history] writes of a store of one-line links is read back
    by [load_history] as the same store. *)
Lemma history_round_trip w (s : gset string) :
  order_ok w -> (forall id, id ∈ s -> PyFacts.one_line id = true) ->
  list_to_set (Py.splitlines (Py.read_text (history_text w s))) = s.
Proof.
  intros Ho Hs. unfold history_text.
  assert (Hl : Forall (fun id => PyFacts.one_line id = true) (w_order w s)).
  { apply Forall_forall. intros id Hid. apply Hs. by apply (order_elem w). }
  rewrite PyFacts.read_text_join, PyFacts.splitlines_join by done.
  by apply order_round_trip.
Qed.

Lemma load_history_store w st text :
  disk st = Some text -> w_file w (now_of st) = true ->
  sent_news (load_history w st).2 = list_to_set (Py.splitlines (Py.read_text text)).
Proof. intros Hd Hf. unfold load_history. by rewrite Hd, Hf. Qed.

(** *** The sources of a cycle *)

Definition fetches (ev : list event) : list string :=
  omap (fun e => match e with EvFetch u => Some u | _ => None end) ev.

(** Line 114 lets the url through. *)
Definition nonblank (url : string) : bool := Py.truthy_str (Py.strip url).

(** The feed of [url] cannot be parsed, or reading its entries raises,
    when the source is asked at time [t]. *)
Definition source_fails_at (w : world) (t : nat) (url : string) : bool :=
  match w_feed w t (Py.strip url) with
  | None => true
  | Some es => (read_entries (w_clean_html w) (w_now w t) url es []).2
  end.

(** The feeds and the clock answer the same whenever they are asked. *)
Definition steady (w : world) : Prop :=
  forall t, w_feed w t = w_feed w 0%nat /\ w_now w t = w_now w 0%nat.

Definition failing_sources (w : world) (urls : list string) : list string :=
  List.filter (fun u => nonblank u && source_fails_at w 0 u) urls.

Lemma fetches_app ev1 ev2 : fetches (ev1 ++ ev2) = fetches ev1 ++ fetches ev2.
Proof. apply omap_app. Qed.

Lemma read_entries_raised cl now url es acc :
  (read_entries cl now url es acc).2 = (read_entries cl now url es []).2.
Proof.
  revert acc. generalize (@nil news_item).
  induction es as [| e r IH]; intros acc0 acc; simpl; [done |].
  destruct (read_entry cl now url e); simpl; auto.
Qed.

(** One turn of the loop of [get_news] for a source that is asked: the
    fetch is an event, a failure adds one error and a notice, and the loop
    goes on with the rest of the sources either way. *)
Lemma get_news_loop_step w url r acc st :
  nonblank url = true ->
  exists acc' st',
    get_news_loop w (url :: r) acc st = get_news_loop w r acc' st'
    /\ errors st' = errors st + (if source_fails_at w (now_of st) url then 1 else 0)
    /\ extends st st'
         (EvFetch (Py.strip url)
          :: if source_fails_at w (now_of st) url then [EvAdmin (NRssError url)] else []).
Proof.
  intros Hb. unfold nonblank in Hb. simpl. rewrite Hb. simpl.
  unfold source_fails_at.
  destruct (w_feed w (now_of st) (Py.strip url)) as [es |].
  - rewrite <- (read_entries_raised _ _ _ es acc).
    destruct (read_entries _ _ _ es acc) as [acc' raised]. simpl.
    destruct raised; do 2 eexists; (split; [reflexivity |]); split.
    + reflexivity.
    + unfold extends, trace_of, main_traced. simpl. by rewrite <- app_assoc.
    + simpl. lia.
    + done.
  - do 2 eexists. split; [reflexivity |]. split; [done |].
    unfold extends, trace_of, main_traced. simpl. by rewrite <- app_assoc.
Qed.

Lemma get_news_loop_fetches w urls acc st :
  exists ev, extends st (get_news_loop w urls acc st).2 ev
    /\ fetches ev = map Py.strip (List.filter nonblank urls).
Proof.
  revert acc st. induction urls as [| u r IH]; intros acc st.
  { exists []. split; [apply extends_refl | done]. }
  destruct (nonblank u) eqn:Hb.
  - destruct (get_news_loop_step w u r acc st Hb) as (acc' & st' & E & _ & T).
    rewrite E. destruct (IH acc' st') as (ev & T' & F).
    eexists. split; [eapply extends_trans; eauto |].
    rewrite fetches_app, F. simpl. rewrite Hb. simpl.
    by destruct (source_fails_at w (now_of st) u).
  - simpl. unfold nonblank in Hb. rewrite Hb. simpl.
    destruct (IH acc st) as (ev & T' & F). exists ev. split; [done |].
    unfold nonblank. by rewrite Hb.
Qed.

Lemma source_fails_steady w t url : steady w -> source_fails_at w t url = source_fails_at w 0 url.
Proof. intros Hs. unfold source_fails_at. by destruct (Hs t) as [-> ->]. Qed.

Lemma get_news_loop_errors w urls acc st :
  steady w ->
  errors (get_news_loop w urls acc st).2
  = errors st + Z.of_nat (length (failing_sources w urls)).
Proof.
  intros Hs. revert acc st. induction urls as [| u r IH]; intros acc st.
  { simpl. lia. }
  unfold failing_sources in *. destruct (nonblank u) eqn:Hb.
  - destruct (get_news_loop_step w u r acc st Hb) as (acc' & st' & E & Er & _).
    rewrite E, IH, Er, (source_fails_steady w _ u Hs). simpl. rewrite Hb. simpl.
    destruct (source_fails_at w 0 u); simpl; lia.
  - simpl. unfold nonblank in Hb. rewrite Hb. simpl.
    rewrite IH. unfold nonblank. by rewrite Hb.
Qed.

(** *** The entries of a feed *)

(** What a run of turns leaves in [all_news]: the items, in the order of
    the turns, up to the first turn that raises. *)
Fixpoint kept (ts : list turn) : list news_item :=
  match ts with
  | [] => []
  | Skip :: r => kept r
  | Item n :: r => n :: kept r
  | Raise :: _ => []
  end.

Definition raises (ts : list turn) : bool :=
  existsb (fun t => match t with Raise => true | _ => false end) ts.

Lemma read_entries_all cl now url es acc :
  read_entries cl now url es acc
  = (acc ++ kept (map (read_entry cl now url) es),
     raises (map (read_entry cl now url) es)).
Proof.
  revert acc. induction es as [| e r IH]; intros acc; simpl.
  { by rewrite app_nil_r. }
  unfold raises in *. destruct (read_entry cl now url e); simpl.
  - apply IH.
  - rewrite IH. by rewrite <- app_assoc.
  - by rewrite app_nil_r.
Qed.

(** *** The publisher *)

Definition texts (ev : list event) : nat :=
  length (List.filter (fun e => match e with EvSendText _ => true | _ => false end) ev).

Definition photos (ev : list event) : nat :=
  length (List.filter (fun e => match e with EvSendPhoto _ _ => true | _ => false end) ev).

(** The events of the text send that is asked at time [t]. *)
Definition text_events (w : world) (t : nat) (item : news_item) : list event :=
  EvSendText (format_message item)
  :: if w_text w t (format_message item) then []
     else [EvAdmin (NSendError (Py.take_str 50 (title item)))].

(** The probe of the image that is asked at time [t] answers 200. *)
Definition probe_ok (w : world) (t : nat) (url : string) : bool :=
  match w_head w t url with Some status_code => status_code =? 200 | None => false end.

Lemma now_of_emit e st : now_of (emit e st) = (now_of st + 1)%nat.
Proof. unfold now_of. simpl. by rewrite length_app. Qed.

Lemma send_text_spec w item st :
  extends st (send_text w item st).2 (text_events w (now_of st) item)
  /\ (send_text w item st).1 = w_text w (now_of st) (format_message item)
  /\ posts_sent (send_text w item st).2
     = posts_sent st + (if w_text w (now_of st) (format_message item) then 1 else 0)
  /\ errors (send_text w item st).2
     = errors st + (if w_text w (now_of st) (format_message item) then 0 else 1).
Proof.
  unfold send_text, text_events, extends, trace_of, main_traced.
  destruct (w_text w (now_of st) (format_message item)); simpl.
  - repeat split; try done. lia.
  - rewrite <- app_assoc. repeat split; try done. lia.
Qed.

(** All that [send_news] does for an item with an image. *)
Lemma send_news_with_image w item st :
  truthy_image (image item) = true ->
  let url := default ""%string (image item) in
  let msg := format_message item in
  let t := now_of st in
  let r := send_news w item st in
  since st r.2
  = [EvPublish item (sent_news st); EvHead url]
    ++ (if probe_ok w (t + 1) url
        then EvSendPhoto url msg
             :: (if w_photo w (t + 2) url msg then [] else text_events w (t + 3) item)
        else text_events w (t + 2) item)
  /\ r.1 = (if probe_ok w (t + 1) url
            then (if w_photo w (t + 2) url msg then true else w_text w (t + 3) msg)
            else w_text w (t + 2) msg)
  /\ posts_sent r.2 = posts_sent st + (if r.1 then 1 else 0)
  /\ errors r.2 = errors st + (if r.1 then 0 else 1).
Proof.
  intros Hi url msg t r. subst r. unfold send_news. rewrite Hi.
  fold url. fold msg.
  set (st1 := emit (EvPublish item (sent_news st)) st).
  set (st2 := emit (EvHead url) st1).
  set (st3 := emit (EvSendPhoto url msg) st2).
  assert (T1 : now_of st1 = (t + 1)%nat) by apply now_of_emit.
  assert (T2 : now_of st2 = (t + 2)%nat).
  { unfold st2. rewrite now_of_emit, T1. lia. }
  assert (T3 : now_of st3 = (t + 3)%nat).
  { unfold st3. rewrite now_of_emit, T2. lia. }
  assert (E2 : extends st st2 [EvPublish item (sent_news st); EvHead url]).
  { unfold extends, trace_of, main_traced. subst st2 st1. simpl. by rewrite <- app_assoc. }
  assert (E3 : extends st st3 [EvPublish item (sent_news st); EvHead url; EvSendPhoto url msg]).
  { unfold extends, trace_of, main_traced. subst st3 st2 st1. simpl.
    by rewrite <- !app_assoc. }
  assert (Text : forall st' ev, extends st st' ev ->
            posts_sent st' = posts_sent st -> errors st' = errors st ->
            since st (send_text w item st').2 = ev ++ text_events w (now_of st') item
            /\ (send_text w item st').1 = w_text w (now_of st') msg
            /\ posts_sent (send_text w item st').2
               = posts_sent st + (if (send_text w item st').1 then 1 else 0)
            /\ errors (send_text w item st').2
               = errors st + (if (send_text w item st').1 then 0 else 1)).
  { intros st' ev E Hp He.
    destruct (send_text_spec w item st') as (Et & R & P & Er).
    split; [apply extends_since; by eapply extends_trans |].
    rewrite R, P, Er, Hp, He. done. }
  unfold probe_ok. rewrite T1.
  destruct (w_head w (t + 1) url) as [status |].
  2: { rewrite <- T2. by apply Text. }
  destruct (status =? 200).
  2: { rewrite <- T2. by apply Text. }
  rewrite T2. destruct (w_photo w (t + 2) url msg).
  - split; [by apply extends_since |]. simpl. split; [done |]. split; lia.
  - rewrite <- T3.
    destruct (Text st3 _ E3 eq_refl eq_refl) as (Q1 & Q2 & Q3 & Q4).
    split; [| done]. by rewrite Q1.
Qed.

(** The one-second sleeps of the wait. *)
Lemma wait_loop_events w n st :
  exists k, (k <= n)%nat
    /\ extends st (wait_loop w n st) (replicate k (EvSleep 1))
    /\ (forall j, (j < k)%nat -> w_running w (now_of st + j) = true)
    /\ ((k < n)%nat -> w_running w (now_of st + k) = false).
Proof.
  revert st. induction n as [| n IH]; intros st; simpl.
  { exists 0%nat. split; [lia |]. split; [apply extends_refl |]. split; intros; lia. }
  destruct (w_running w (now_of st)) eqn:Hr.
  - destruct (IH (emit (EvSleep 1) st)) as (k & Hk & E & Hup & Hdown).
    rewrite now_of_emit in Hup, Hdown.
    exists (S k). split; [lia |]. split; [| split].
    + apply (extends_trans st (emit (EvSleep 1) st) _ [EvSleep 1] _); [done | exact E].
    + intros j Hj. destruct j as [| j].
      * by rewrite Nat.add_0_r.
      * replace (now_of st + S j)%nat with (now_of st + 1 + j)%nat by lia.
        apply Hup. lia.
    + intros Hlt. replace (now_of st + S k)%nat with (now_of st + 1 + k)%nat by lia.
      apply Hdown. lia.
  - exists 0%nat. split; [lia |]. split; [apply extends_refl |]. split.
    + intros; lia.
    + intros _. by rewrite Nat.add_0_r.
Qed.

(** A cycle that is cut short ends in the handler: one error, the notice
    and a sleep of a minute; the store and the file stay as the sends left
    them. *)
Lemma cycle_raised w c st :
  cycle_raises w c st = true ->
  sent_news (cycle w c st) = sent_news (cycle_sends w c st)
  /\ disk (cycle w c st) = disk st
  /\ errors (cycle w c st) = errors (cycle_sends w c st) + 1
  /\ extends (cycle_sends w c st) (cycle w c st) [EvAdmin NCritical; EvSleep 60].
Proof.
  intros Hr. rewrite cycle_cases, Hr. split; [done |].
  split; [apply cycle_sends_disk |]. split; [done |].
  unfold extends, on_error, trace_of, main_traced. simpl. by rewrite <- app_assoc.
Qed.

(** A cycle that comes to its end writes the store after the sends and
    the trim, and then only waits. *)
Lemma cycle_done w c st :
  cycle_raises w c st = false ->
  exists k,
    extends (cycle_sends w c st) (cycle w c st)
      (EvSave (history_text w (sent_news (cycle w c st))) :: replicate k (EvSleep 1))
    /\ (k <= Z.to_nat (check_interval c))%nat
    /\ ((forall t, w_file w t = true) ->
        disk (cycle w c st) = Some (history_text w (sent_news (cycle w c st)))).
Proof.
  intros Hr. rewrite cycle_cases, Hr.
  set (mid := cycle_sends w c st). set (kept := keep_history w c mid).
  destruct (wait_loop_events w (Z.to_nat (check_interval c)) kept) as (k & Hk & E & _).
  exists k. rewrite wait_loop_store, wait_loop_disk. split; [| split; [done |]].
  - apply (extends_trans mid kept _ [EvSave (history_text w (sent_news kept))] _);
      [apply keep_history_saves | exact E].
  - intros Hf. by apply keep_history_disk.
Qed.

End MainFacts.

(** ** Traces of src/info_sender/mainn.py *)

Module MainnFacts.
Import Mainn.

(** The events of the publish step after its call event: the enhancer,
    the image generator and the sends. *)
Definition is_inner (e : event) : bool :=
  match e with EvPublish _ _ | EvFetch _ | EvWait _ => false | _ => true end.

Lemma grows_emit_n (P : event -> Prop) e st : P e -> grows P st (emit e st).
Proof. by apply grows_one. Qed.

Section quiet.
(** A property of events that holds of all the inner events. *)
Variable P : event -> Prop.
Hypothesis quiet : forall e, is_inner e = true -> P e.

Lemma grows_enhance w c t d st : grows P st (enhance_with_yagpt w c t d st).2.
Proof.
  unfold enhance_with_yagpt. case_match; [apply grows_refl |].
  set (st1 := emit _ st).
  assert (G : grows P st st1) by (apply grows_emit_n; by apply quiet).
  destruct (w_gpt w (now_of st) t _) as [| | txt]; simpl;
    try (eapply grows_trans; [apply G | by apply grows_same]).
  destruct (read_answer w t _ txt) as [r counted]; simpl.
  eapply grows_trans; [apply G |]. destruct counted; by apply grows_same.
Qed.

Lemma grows_select_text w c t d st : grows P st (select_text w c t d st).2.
Proof.
  unfold select_text. case_match; [apply grows_refl |].
  pose proof (grows_enhance w c t d st) as G.
  destruct (enhance_with_yagpt w c t d st) as [[[nt nd] |] st1]; simpl in *; [| done].
  destruct (validate nt nd) as [[|] |]; simpl; try done.
  all: eapply grows_trans; [apply G | by apply grows_same].
Qed.

Lemma grows_make_image w t o st : grows P st (make_image w t o st).2.
Proof.
  unfold make_image. set (it := if truthy t then t else JStr o).
  destruct (truthy it); [| apply grows_refl].
  set (st1 := emit _ st).
  assert (G : grows P st st1) by (apply grows_emit_n; by apply quiet).
  destruct (w_image w (now_of st) it); simpl; [| apply G].
  eapply grows_trans; [apply G | by apply grows_same].
Qed.

Lemma grows_format_message w c e st : grows P st (format_message w c e st).2.
Proof.
  unfold format_message.
  pose proof (grows_select_text w c (clean w (default "No title" (e_title e)))
                (clean w (default ""%string (e_description e))) st) as G.
  destruct (select_text _ _ _ _ st) as [[t' d'] st1]; simpl in *.
  destruct (shorten d') as [d'' |]; simpl; [| done].
  pose proof (grows_make_image w t' (clean w (default "No title" (e_title e))) st1) as G2.
  destruct (make_image _ _ _ st1) as [ip st2]; simpl in *.
  eapply grows_trans; eauto.
Qed.

Lemma grows_send_message w m st : grows P st (send_text w m st).2.
Proof. unfold send_text; simpl. apply grows_emit_n. by apply quiet. Qed.

Lemma grows_send w m ip st : grows P st (send w m ip st).2.
Proof.
  unfold send. case_match; [| apply grows_send_message].
  set (st1 := emit _ st).
  assert (G : grows P st st1) by (apply grows_emit_n; by apply quiet).
  case_match; simpl.
  - eapply grows_trans; [apply G |].
    eapply grows_trans; [| apply grows_emit_n; by apply quiet]. by apply grows_same.
  - eapply grows_trans; [apply G | apply (grows_send_message w m st1)].
Qed.

(** [publish] makes its own call event, then only quiet ones. *)
Lemma grows_publish w c e st :
  P (EvPublish e (sent_entries st)) -> grows P st (publish w c e st).2.
Proof.
  intros HP. unfold publish.
  set (st0 := emit _ st).
  assert (G0 : grows P st st0) by (by apply grows_emit_n).
  pose proof (grows_format_message w c e st0) as G1.
  destruct (format_message w c e st0) as [[[m ip] |] st1]; simpl in *.
  - pose proof (grows_send w m ip st1) as G2.
    destruct (send w m ip st1) as [ok st2]; simpl in *.
    eapply grows_trans; [apply G0 |]. eapply grows_trans; [apply G1 |].
    eapply grows_trans; [apply G2 |].
    destruct ok; simpl; [| by apply grows_same].
    eapply grows_trans; [| apply grows_emit_n; by apply quiet]. by apply grows_same.
  - eapply grows_trans; [apply G0 |]. eapply grows_trans; [apply G1 |].
    by apply grows_same.
Qed.
End quiet.

(** *** The store between the calls *)

Lemma enhance_store w c t d st :
  sent_entries (enhance_with_yagpt w c t d st).2 = sent_entries st.
Proof.
  unfold enhance_with_yagpt. repeat (case_match; simpl); done.
Qed.

Lemma select_text_store w c t d st :
  sent_entries (select_text w c t d st).2 = sent_entries st.
Proof.
  unfold select_text. case_match; [done |].
  pose proof (enhance_store w c t d st) as Es.
  destruct (enhance_with_yagpt w c t d st) as [[[nt nd] |] st1]; simpl in *; [| done].
  by destruct (validate nt nd) as [[|] |].
Qed.

Lemma make_image_store w t o st : sent_entries (make_image w t o st).2 = sent_entries st.
Proof. unfold make_image. repeat (case_match; simpl); done. Qed.

Lemma format_message_store w c e st :
  sent_entries (format_message w c e st).2 = sent_entries st.
Proof.
  unfold format_message.
  pose proof (select_text_store w c (clean w (default "No title" (e_title e)))
                (clean w (default ""%string (e_description e))) st) as Es.
  destruct (select_text _ _ _ _ st) as [[t' d'] st1]; simpl in *.
  destruct (shorten d') as [d'' |]; simpl; [| done].
  pose proof (make_image_store w t' (clean w (default "No title" (e_title e))) st1) as Ei.
  destruct (make_image _ _ _ st1) as [ip st2]; simpl in *. congruence.
Qed.

Lemma send_store w m ip st : sent_entries (send w m ip st).2 = sent_entries st.
Proof. unfold send, send_text. repeat (case_match; simpl); done. Qed.

(** The store only grows in [publish]. *)
Lemma publish_store w c e st : sent_entries st ⊆ sent_entries (publish w c e st).2.
Proof.
  unfold publish. set (st0 := emit _ st).
  pose proof (format_message_store w c e st0) as E1.
  destruct (format_message w c e st0) as [[[m ip] |] st1]; simpl in *.
  - pose proof (send_store w m ip st1) as E2.
    destruct (send w m ip st1) as [ok st2]; simpl in *.
    destruct ok; simpl; rewrite E2, E1; [| done].
    intros x Hx. apply elem_of_union. by right.
  - by rewrite E1.
Qed.

Definition guarded_from (s0 : gset string) (e : event) : Prop :=
  match e with
  | EvPublish en seen => exists l, e_link en = Some l /\ (l ∉ seen) /\ (s0 ⊆ seen)
  | _ => True
  end.

Lemma quiet_guarded s0 e : is_inner e = true -> guarded_from s0 e.
Proof. by destruct e. Qed.

Lemma entries_loop_guarded w c es st s0 :
  s0 ⊆ sent_entries st ->
  grows (guarded_from s0) st (entries_loop w c es st)
  /\ s0 ⊆ sent_entries (entries_loop w c es st).
Proof.
  revert st. induction es as [| e r IH]; intros st Hs; simpl.
  { split; [apply grows_refl | done]. }
  destruct (w_stop w (now_of st)); [split; [apply grows_refl | done] |].
  destruct (is_new (sent_entries st) e) eqn:Hnew; [| by apply IH].
  unfold is_new in Hnew. destruct (e_link e) as [l |] eqn:El; [| done].
  apply bool_decide_eq_true in Hnew.
  assert (G1 : grows (guarded_from s0) st (publish w c e st).2).
  { apply grows_publish; [apply quiet_guarded |]. by exists l. }
  pose proof (publish_store w c e st) as S1.
  destruct (IH (publish w c e st).2) as [G2 S2]; [by etrans |].
  split; [eapply grows_trans; eauto | done].
Qed.

Lemma feeds_loop_guarded w c urls st s0 :
  s0 ⊆ sent_entries st ->
  grows (guarded_from s0) st (feeds_loop w c urls st)
  /\ s0 ⊆ sent_entries (feeds_loop w c urls st).
Proof.
  revert st. induction urls as [| u r IH]; intros st Hs; simpl.
  { split; [apply grows_refl | done]. }
  destruct (w_stop w (now_of st)); [split; [apply grows_refl | done] |].
  set (st1 := emit (EvFetch u) st).
  assert (G1 : grows (guarded_from s0) st st1) by (by apply grows_emit_n).
  destruct (w_feed w (now_of st) u) as [[| e es] |].
  - destruct (IH st1 Hs) as [G2 S2]. split; [eapply grows_trans; eauto | done].
  - destruct (entries_loop_guarded w c (batch (e :: es)) st1 s0 Hs) as [G2 S2].
    destruct (IH _ S2) as [G3 S3].
    split; [| done]. eapply grows_trans; [apply G1 |]. eapply grows_trans; eauto.
  - destruct (IH (add_error st1) Hs) as [G2 S2].
    split; [| done]. eapply grows_trans; [apply G1 |].
    eapply grows_trans; [| apply G2]. by apply grows_same.
Qed.

Lemma rss_cycle_guarded w c st : grows (guarded_from (sent_entries st)) st (cycle w c st).
Proof.
  unfold cycle.
  destruct (feeds_loop_guarded w c (RSS_URLS c) st (sent_entries st)) as [G _]; [done |].
  eapply grows_trans; [apply G |]. by apply grows_emit_n.
Qed.

Lemma guarded_from_nothing s0 e : guarded_from s0 e -> guarded_from ∅ e.
Proof.
  destruct e; simpl; try done. intros (l & ? & ? & ?). exists l.
  split; [done |]. split; [done |]. apply empty_subseteq.
Qed.

Lemma rss_loop_guarded w c fuel st : grows (guarded_from ∅) st (rss_loop w c fuel st).2.
Proof.
  revert st. induction fuel as [| n IH]; intros st; simpl; [apply grows_refl |].
  case_match; [| apply grows_refl].
  eapply grows_trans; [| apply IH].
  eapply grows_weaken; [apply guarded_from_nothing | apply rss_cycle_guarded].
Qed.

(** *** The counters between the calls *)

(** The store and the two counters of the publish step. *)
Definition core (st : state) : gset string * Z * Z :=
  (sent_entries st, posts_sent st, errors st).

Lemma enhance_core w c t d st : core (enhance_with_yagpt w c t d st).2 = core st.
Proof. unfold enhance_with_yagpt. repeat (case_match; simpl); done. Qed.

Lemma select_text_core w c t d st : core (select_text w c t d st).2 = core st.
Proof.
  unfold select_text. case_match; [done |].
  pose proof (enhance_core w c t d st) as Es.
  destruct (enhance_with_yagpt w c t d st) as [[[nt nd] |] st1]; simpl in *; [| done].
  by destruct (validate nt nd) as [[|] |].
Qed.

Lemma make_image_core w t o st : core (make_image w t o st).2 = core st.
Proof. unfold make_image. repeat (case_match; simpl); done. Qed.

Lemma format_message_core w c e st : core (format_message w c e st).2 = core st.
Proof.
  unfold format_message.
  pose proof (select_text_core w c (clean w (default "No title" (e_title e)))
                (clean w (default ""%string (e_description e))) st) as Es.
  destruct (select_text _ _ _ _ st) as [[t' d'] st1]; simpl in *.
  destruct (shorten d') as [d'' |]; simpl; [| done].
  pose proof (make_image_core w t' (clean w (default "No title" (e_title e))) st1) as Ei.
  destruct (make_image _ _ _ st1) as [ip st2]; simpl in *. congruence.
Qed.

Lemma send_core w m ip st : core (send w m ip st).2 = core st.
Proof. unfold send, send_text. repeat (case_match; simpl); done. Qed.

(** What [publish] leaves behind: a post that went out is recorded and
    counted, one that did not is counted as an error, and nothing else
    happens to the store and the two counters. *)
Lemma publish_outcome w c e st :
  let r := publish w c e st in
  if r.1
  then core r.2 = ({[ default ""%string (e_link e) ]} ∪ sent_entries st,
                   posts_sent st + 1, errors st)
  else core r.2 = (sent_entries st, posts_sent st, errors st + 1).
Proof.
  unfold publish. set (st0 := emit _ st).
  pose proof (format_message_core w c e st0) as E1.
  destruct (format_message w c e st0) as [[[m ip] |] st1]; simpl in *.
  - pose proof (send_core w m ip st1) as E2.
    destruct (send w m ip st1) as [ok st2]; simpl in *.
    unfold core in *. simpl in *.
    destruct ok; simpl; congruence.
  - unfold core in *. simpl in *. congruence.
Qed.

(** *** The sources of a cycle *)

Definition fetches (ev : list event) : list string :=
  omap (fun e => match e with EvFetch u => Some u | _ => None end) ev.

(** The entries the publish step was entered for. *)
Definition calls (ev : list event) : list entry :=
  omap (fun e => match e with EvPublish e _ => Some e | _ => None end) ev.

Lemma fetches_app_n ev1 ev2 : fetches (ev1 ++ ev2) = fetches ev1 ++ fetches ev2.
Proof. apply omap_app. Qed.

Lemma calls_app ev1 ev2 : calls (ev1 ++ ev2) = calls ev1 ++ calls ev2.
Proof. apply omap_app. Qed.

Lemma inner_fetches ev : Forall (fun e => is_inner e = true) ev -> fetches ev = [].
Proof.
  induction 1 as [| e ev He _ IH]; [done |]. simpl. rewrite IH. by destruct e.
Qed.

Lemma inner_calls ev : Forall (fun e => is_inner e = true) ev -> calls ev = [].
Proof.
  induction 1 as [| e ev He _ IH]; [done |]. simpl. rewrite IH. by destruct e.
Qed.

(** The events of the publish step: its call, then inner events only. *)
Lemma publish_events w c e st :
  exists ev, extends st (publish w c e st).2 (EvPublish e (sent_entries st) :: ev)
    /\ Forall (fun e => is_inner e = true) ev.
Proof.
  unfold publish. set (st0 := emit _ st).
  assert (E0 : extends st st0 [EvPublish e (sent_entries st)]) by done.
  set (P := fun e => is_inner e = true).
  assert (HP : forall e, is_inner e = true -> P e) by done.
  pose proof (grows_format_message P HP w c e st0) as G1.
  destruct (format_message w c e st0) as [[[m ip] |] st1]; simpl in *.
  - pose proof (grows_send P HP w m ip st1) as G2.
    destruct (send w m ip st1) as [ok st2]; simpl in *.
    assert (G3 : grows P st0 (if ok
                  then (true, emit (EvSleep 3) (add_post (set_sent
                         ({[ default ""%string (e_link e) ]} ∪ sent_entries st2) st2)))
                  else (false, add_error st2)).2).
    { eapply grows_trans; [apply G1 |]. eapply grows_trans; [apply G2 |].
      destruct ok; simpl; [| by apply grows_same].
      eapply grows_trans; [| apply grows_emit_n; by apply HP]. by apply grows_same. }
    destruct G3 as (ev & E & F). exists ev. split; [| done].
    apply (extends_trans _ _ _ _ _ E0 E).
  - destruct G1 as (ev & E & F). exists ev. split; [| done].
    apply (extends_trans _ _ _ _ _ E0 E).
Qed.

(** Every entry the loop lets through ends as a post or as an error. *)
Lemma entries_loop_errors w c es st :
  exists ev, extends st (entries_loop w c es st) ev
    /\ fetches ev = []
    /\ errors (entries_loop w c es st) - errors st
       = Z.of_nat (length (calls ev))
         - (posts_sent (entries_loop w c es st) - posts_sent st).
Proof.
  revert st. induction es as [| e r IH]; intros st; simpl.
  { exists []. split; [apply extends_refl |]. split; [done | simpl; lia]. }
  destruct (w_stop w (now_of st)).
  { exists []. split; [apply extends_refl |]. split; [done | simpl; lia]. }
  destruct (is_new (sent_entries st) e); [| apply IH].
  destruct (publish_events w c e st) as (ev1 & E1 & F1).
  pose proof (publish_outcome w c e st) as O. simpl in O.
  destruct (IH (publish w c e st).2) as (ev2 & E2 & F2 & C2).
  eexists. split; [eapply extends_trans; eauto |].
  rewrite fetches_app_n, calls_app, length_app, F2. simpl.
  rewrite (inner_fetches _ F1), (inner_calls _ F1). split; [done |]. simpl.
  unfold core in O. destruct (publish w c e st).1; injection O as _ Hp He; lia.
Qed.

(** Nobody asks the worker to stop. *)
Definition never_stops (w : world) : Prop := forall t, w_stop w t = false.

(** The feeds answer the same whenever they are asked. *)
Definition steady_feed (w : world) : Prop := forall t, w_feed w t = w_feed w 0%nat.

Definition failing_sources (w : world) (urls : list string) : list string :=
  List.filter (fun u => match w_feed w 0 u with None => true | Some _ => false end) urls.

(** One turn of the loop over the sources for a source whose fetch raises:
    one more error, and the loop goes on with the rest of the sources. *)
Lemma feeds_loop_failure w c url r st :
  w_stop w (now_of st) = false -> w_feed w (now_of st) url = None ->
  feeds_loop w c (url :: r) st = feeds_loop w c r (add_error (emit (EvFetch url) st)).
Proof. intros Hs Hf. simpl. by rewrite Hs, Hf. Qed.

Lemma feeds_loop_fetches w c urls st :
  never_stops w ->
  exists ev, extends st (feeds_loop w c urls st) ev /\ fetches ev = urls.
Proof.
  intros Hn. revert st. induction urls as [| u r IH]; intros st; simpl.
  { exists []. split; [apply extends_refl | done]. }
  rewrite Hn. set (st1 := emit (EvFetch u) st).
  assert (E1 : extends st st1 [EvFetch u]) by done.
  destruct (w_feed w (now_of st) u) as [[| e es] |].
  - destruct (IH st1) as (ev & E & F). eexists.
    split; [eapply extends_trans; eauto |]. simpl. by rewrite F.
  - destruct (entries_loop_errors w c (batch (e :: es)) st1) as (ev2 & E2 & F2 & _).
    destruct (IH (entries_loop w c (batch (e :: es)) st1)) as (ev & E & F). eexists.
    split; [eapply extends_trans; [apply E1 |]; eapply extends_trans; eauto |].
    simpl. by rewrite fetches_app_n, F2, F.
  - destruct (IH (add_error st1)) as (ev & E & F). eexists.
    split; [eapply extends_trans; [apply E1 | apply E] |]. simpl. by rewrite F.
Qed.

Lemma feeds_loop_errors w c urls st :
  never_stops w -> steady_feed w ->
  errors (feeds_loop w c urls st) - errors st
  = Z.of_nat (length (failing_sources w urls))
    + Z.of_nat (length (calls (since st (feeds_loop w c urls st))))
    - (posts_sent (feeds_loop w c urls st) - posts_sent st).
Proof.
  intros Hn Hs.
  enough (H : exists ev, extends st (feeds_loop w c urls st) ev
            /\ errors (feeds_loop w c urls st) - errors st
               = Z.of_nat (length (failing_sources w urls))
                 + Z.of_nat (length (calls ev))
                 - (posts_sent (feeds_loop w c urls st) - posts_sent st)).
  { destruct H as (ev & E & H). by rewrite (extends_since _ _ _ E). }
  revert st. induction urls as [| u r IH]; intros st; simpl.
  { exists []. split; [apply extends_refl | simpl; lia]. }
  rewrite Hn, Hs. set (st1 := emit (EvFetch u) st).
  assert (E1 : extends st st1 [EvFetch u]) by done.
  destruct (w_feed w 0 u) as [[| e es] |]; simpl.
  - destruct (IH st1) as (ev & E & H). eexists.
    split; [eapply extends_trans; eauto |]. simpl in *. lia.
  - destruct (entries_loop_errors w c (batch (e :: es)) st1) as (ev2 & E2 & _ & C2).
    destruct (IH (entries_loop w c (batch (e :: es)) st1)) as (ev & E & H). eexists.
    split; [eapply extends_trans; [apply E1 |]; eapply extends_trans; eauto |].
    simpl in *. rewrite calls_app, length_app. lia.
  - destruct (IH (add_error st1)) as (ev & E & H). eexists.
    split; [eapply extends_trans; [apply E1 | apply E] |]. simpl in *. lia.
Qed.

(** *** The entries of a feed *)

Lemma entries_loop_calls w c es st :
  exists ev, extends st (entries_loop w c es st) ev /\ calls ev `sublist_of` es.
Proof.
  revert st. induction es as [| e r IH]; intros st; simpl.
  { exists []. split; [apply extends_refl | done]. }
  destruct (w_stop w (now_of st)).
  { exists []. split; [apply extends_refl | apply sublist_nil_l]. }
  destruct (is_new (sent_entries st) e).
  - destruct (publish_events w c e st) as (ev1 & E1 & F1).
    destruct (IH (publish w c e st).2) as (ev2 & E2 & S2).
    eexists. split; [eapply extends_trans; eauto |].
    rewrite calls_app. simpl. rewrite (inner_calls _ F1). simpl.
    by apply sublist_skip.
  - destruct (IH st) as (ev2 & E2 & S2). exists ev2. split; [done |].
    by apply sublist_cons.
Qed.

Lemma feeds_loop_cons w c url r st :
  feeds_loop w c (url :: r) st = feeds_loop w c r (feeds_loop w c [url] st).
Proof.
  simpl. destruct (w_stop w (now_of st)) eqn:Hs.
  - destruct r; simpl; [done | by rewrite Hs].
  - by destruct (w_feed w (now_of st) url) as [[| e es] |].
Qed.

Lemma feeds_loop_one_calls w c url st :
  calls (since st (feeds_loop w c [url] st))
  `sublist_of` batch (default [] (w_feed w (now_of st) url)).
Proof.
  simpl. destruct (w_stop w (now_of st)).
  { rewrite (extends_since _ _ _ (extends_refl st)). apply sublist_nil_l. }
  set (st1 := emit (EvFetch url) st).
  assert (E1 : extends st st1 [EvFetch url]) by done.
  destruct (w_feed w (now_of st) url) as [[| e es] |]; simpl.
  - rewrite (extends_since _ _ _ E1). apply sublist_nil_l.
  - destruct (entries_loop_calls w c (batch (e :: es)) st1) as (ev & E & S).
    rewrite (extends_since _ _ _ (extends_trans _ _ _ _ _ E1 E)). done.
  - assert (E2 : extends st (add_error st1) [EvFetch url]) by done.
    rewrite (extends_since _ _ _ E2). apply sublist_nil_l.
Qed.

Lemma batch_length es : (length (batch es) <= 10)%nat.
Proof. unfold batch. rewrite length_rev, length_take. lia. Qed.

(** *** The enhancer *)

(** [lo < len(v) < hi]; a value without a length is not within. *)
Definition within (lo hi : nat) (v : jvalue) : bool :=
  match len v with
  | Some n => (lo <? n)%nat && (n <? hi)%nat
  | None => false
  end.

(** The rewritten title is between 10 and 120 characters and the
    rewritten body between 30 and 600, both strictly. *)
Definition acceptable (new_title new_description : jvalue) : bool :=
  within 10 120 new_title && within 30 600 new_description.

Lemma long_is_truthy v n : len v = Some n -> (0 < n)%nat -> truthy v = true.
Proof.
  destruct v as [| | | s | l | m]; simpl; try done; intros [= <-] Hn.
  - destruct s; [simpl in Hn; lia | done].
  - destruct l; [simpl in Hn; lia | done].
  - destruct m; [simpl in Hn; lia | done].
Qed.

Lemma validate_acceptable nt nd :
  validate nt nd = Some true <-> acceptable nt nd = true.
Proof.
  unfold validate, acceptable, within.
  destruct (len nt) as [a |] eqn:Ea.
  2: { destruct (truthy nt); simpl; split; done. }
  destruct (Nat.ltb_spec 10 a) as [Ha | Ha]; simpl.
  2: { destruct (truthy nt); simpl; split; done. }
  rewrite (long_is_truthy nt a Ea) by lia. simpl.
  destruct (len nd) as [b |] eqn:Eb.
  2: { rewrite andb_false_r. destruct (truthy nd); simpl; split; done. }
  destruct (Nat.ltb_spec 30 b) as [Hb | Hb]; simpl.
  2: { rewrite andb_false_r. destruct (truthy nd); simpl; split; done. }
  rewrite (long_is_truthy nd b Eb) by lia. simpl.
  destruct (a <? 120)%nat, (b <? 600)%nat; simpl; split; done.
Qed.

Lemma select_text_accepts w c t d st nt nd st1 :
  yagpt_enabled c = true ->
  enhance_with_yagpt w c t d st = (Some (nt, nd), st1) ->
  if acceptable nt nd
  then (select_text w c t d st).1 = (nt, nd)
       /\ yagpt_used (select_text w c t d st).2 = yagpt_used st1 + 1
  else (select_text w c t d st).1 = (JStr t, JStr d)
       /\ yagpt_used (select_text w c t d st).2 = yagpt_used st1.
Proof.
  intros Hc He. unfold select_text. rewrite Hc, He. simpl.
  pose proof (validate_acceptable nt nd) as V.
  destruct (validate nt nd) as [[|] |]; destruct (acceptable nt nd); try done.
  - destruct V as [V _]. by specialize (V eq_refl).
  - destruct V as [_ V]. by specialize (V eq_refl).
  - destruct V as [_ V]. by specialize (V eq_refl).
Qed.

(** The answer of the enhancer for a text that holds a JSON object. *)
Lemma read_answer_object w t d text data :
  find "{" text <> -1 -> rfind "}" text <> -1 ->
  w_json_loads w (slice (find "{" text) (rfind "}" text + 1) text) = Some (JObj data) ->
  read_answer w t d text
  = (Some (dict_get data "title" (JStr t), dict_get data "description" (JStr d)), false).
Proof.
  intros Hs He Hj. unfold read_answer.
  destruct (Z.eqb_spec (find "{" text) (-1)) as [? | _]; [done |].
  destruct (Z.eqb_spec (rfind "}" text + 1) 0) as [? | _]; [lia |].
  simpl. by rewrite Hj.
Qed.

Lemma clip_input_short d : (Py.len d <= MAX_INPUT_LENGTH)%nat -> clip_input d = d.
Proof.
  intros H. unfold clip_input.
  by destruct (Nat.ltb_spec MAX_INPUT_LENGTH (Py.len d)) as [? | _]; [lia |].
Qed.

(** *** The publisher *)

Lemma now_of_emit_n e st : now_of (emit e st) = (now_of st + 1)%nat.
Proof. unfold now_of. simpl. by rewrite length_app. Qed.

(** All that the send does for a post with an image file. *)
Lemma send_with_image w m p st :
  has_image (Some p) st = true ->
  let t := now_of st in
  let r := send w m (Some p) st in
  since st r.2
  = EvSendPhoto p m :: (if w_photo w t p m then [EvRemove p] else [EvSendText m])
  /\ r.1 = (if w_photo w t p m then true else w_text w (t + 1) m)
  /\ files r.2 = (if w_photo w t p m then files st ∖ {[ p ]} else files st).
Proof.
  intros Hi t r. subst r. unfold send. rewrite Hi. simpl. fold t.
  destruct (w_photo w t p m); simpl.
  - split; [| done]. apply since_app. unfold trace_of, mainn_traced. simpl.
    by rewrite <- app_assoc.
  - rewrite now_of_emit_n. fold t. split; [| done].
    apply since_app. unfold trace_of, mainn_traced. simpl. by rewrite <- app_assoc.
Qed.

(** Whether the send that starts in the state [st] gets the post [m] out:
    with an image file, the photo send or, when that fails, the text send
    that follows it; without one, the text send. *)
Definition delivered (w : world) (m : message) (image_path : option string)
    (st : state) : bool :=
  let t := now_of st in
  if has_image image_path st
  then w_photo w t (default ""%string image_path) m || w_text w (t + 1) m
  else w_text w t m.

Lemma send_delivered w m ip st : (send w m ip st).1 = delivered w m ip st.
Proof.
  unfold send, delivered, send_text. destruct (has_image ip st); [| done].
  destruct (w_photo w (now_of st) _ m); [done |]. simpl. by rewrite now_of_emit_n.
Qed.

(** The publish step answers what its send answers, and a post that went
    out is recorded and counted, one that did not is counted as an error. *)
Lemma publish_delivered w c e st m ip st1 :
  format_message w c e (emit (EvPublish e (sent_entries st)) st) = (Some (m, ip), st1) ->
  (publish w c e st).1 = delivered w m ip st1
  /\ core (publish w c e st).2
     = if delivered w m ip st1
       then ({[ default ""%string (e_link e) ]} ∪ sent_entries st, posts_sent st + 1, errors st)
       else (sent_entries st, posts_sent st, errors st + 1).
Proof.
  intros Hf. pose proof (publish_outcome w c e st) as O. simpl in O.
  assert (R : (publish w c e st).1 = delivered w m ip st1).
  { unfold publish. rewrite Hf. rewrite <- send_delivered.
    destruct (send w m ip st1) as [ok st2]. by destruct ok. }
  split; [exact R |]. rewrite <- R. by destruct (publish w c e st).1.
Qed.

Lemma publish_unformatted w c e st st1 :
  format_message w c e (emit (EvPublish e (sent_entries st)) st) = (None, st1) ->
  (publish w c e st).1 = false
  /\ core (publish w c e st).2 = (sent_entries st, posts_sent st, errors st + 1).
Proof.
  intros Hf. pose proof (publish_outcome w c e st) as O. simpl in O.
  assert (R : (publish w c e st).1 = false) by (unfold publish; by rewrite Hf).
  split; [exact R |]. by rewrite R in O.
Qed.

End MainnFacts.

(** * The claims *)

(** ** A concrete run of each program, used by the examples below *)

Module Demo.

Definition day : Z := Main.day_us.

(** One source; its feed has one fresh entry with a link and no image. *)
Definition entry_a : Main.entry :=
  {| Main.published_parsed := Some (Some (10 * day));
     Main.e_title := Some "Alpha headline";
     Main.e_link := Some "http://n/a";
     Main.e_description := Some "Alpha body";
     Main.media_content := None;
     Main.enclosures := None |}.

Definition entry_of (l : string) : Main.entry :=
  {| Main.published_parsed := Some (Some (10 * day));
     Main.e_title := Some l;
     Main.e_link := Some l;
     Main.e_description := None;
     Main.media_content := None;
     Main.enclosures := None |}.

(** Everything outside works: feeds parse, sends go through, the file
    can be read and written, nobody stops the worker; a set is listed in
    the order of [elements]. *)
Definition calm (feed : string -> option (list Main.entry)) : Main.world :=
  {| Main.w_clean_html := fun s => s;
     Main.w_now := fun _ => 10 * day + 5;
     Main.w_feed := fun _ => feed;
     Main.w_head := fun _ _ => Some 200;
     Main.w_photo := fun _ _ _ => true;
     Main.w_text := fun _ _ => true;
     Main.w_file := fun _ => true;
     Main.w_running := fun _ => true;
     Main.w_order := elements |}.

Definition one_feed (es : list Main.entry) : string -> option (list Main.entry) :=
  fun url => if String.eqb url "http://feed" then Some es else None.

Definition settings_with_delay (d h : Z) : Main.settings :=
  {| Main.rss_urls := ["http://feed"]; Main.post_delay := d;
     Main.check_interval := 2; Main.max_history := h |}.

Definition settings (h : Z) : Main.settings := settings_with_delay 10 h.

Definition start_state (s : gset string) : Main.state :=
  {| Main.sent_news := s; Main.disk := None; Main.posts_sent := 0;
     Main.errors := 0; Main.last_check := None; Main.trace := [] |}.

(** The scenario of the bound: "a" and "b" are in the store, the feed
    brings "c", the bound is 2. *)
Definition w_c : Main.world := calm (one_feed [entry_of "c"]).
Definition st_ab : Main.state := start_state {[ "a"; "b" ]}.

(** An item with an image, and a world in which the probe of the image
    answers [probe] and the photo send goes through or not. *)
Definition item_img : Main.news_item :=
  {| Main.title := "Alpha headline"; Main.link := "http://n/a";
     Main.summary := "Alpha body..."; Main.image := Some "http://img/a.jpg";
     Main.source := "http://feed" |}.

Definition image_world (probe : option Z) (photo_ok : bool) : Main.world :=
  {| Main.w_clean_html := fun s => s;
     Main.w_now := fun _ => 10 * day + 5;
     Main.w_feed := fun _ _ => None;
     Main.w_head := fun _ _ => probe;
     Main.w_photo := fun _ _ _ => photo_ok;
     Main.w_text := fun _ _ => true;
     Main.w_file := fun _ => true;
     Main.w_running := fun _ => true;
     Main.w_order := elements |}.

(** A fresh entry whose image medium has no url: reading it raises. *)
Definition entry_bad : Main.entry :=
  {| Main.published_parsed := Some (Some (10 * day));
     Main.e_title := Some "Bad headline";
     Main.e_link := Some "http://n/bad";
     Main.e_description := None;
     Main.media_content := Some [{| Main.m_type := Some "image/jpeg"; Main.m_ref := None |}];
     Main.enclosures := None |}.

(** An item without an image. *)
Definition item_of (l : string) : Main.news_item :=
  {| Main.title := l; Main.link := l; Main.summary := ""; Main.image := None;
     Main.source := "http://feed" |}.

(** An entry published at time [t]. *)
Definition entry_of' (t : Z) : Main.entry :=
  {| Main.published_parsed := Some (Some t);
     Main.e_title := Some "t"; Main.e_link := Some "l"; Main.e_description := None;
     Main.media_content := None; Main.enclosures := None |}.

(** A feed of eleven fresh entries, the newest first. *)
Definition eleven : list Main.entry :=
  map entry_of ["e11"; "e10"; "e09"; "e08"; "e07"; "e06"; "e05"; "e04"; "e03"; "e02"; "e01"].

Definition calls (t : list Main.event) : list string :=
  omap (fun e => match e with Main.EvPublish i _ => Some (Main.link i) | _ => None end) t.

End Demo.

Module DemoN.

Definition entry_n (l : string) : Mainn.entry :=
  {| Mainn.e_title := Some l; Mainn.e_description := Some "body"; Mainn.e_link := Some l |}.

Definition one_feed (es : list Mainn.entry) : string -> option (list Mainn.entry) :=
  fun url => if String.eqb url "http://feed" then Some es else None.

(** Feeds parse and text sends go through; the enhancer is not asked
    (see [config]); [image] is what the image generator answers and
    [photo_ok] whether a photo send goes through. *)
Definition calm (feed : string -> option (list Mainn.entry))
    (image : option string) (photo_ok : bool) : Mainn.world :=
  {| Mainn.w_clean := fun s => s;
     Mainn.w_json_loads := fun _ => None;
     Mainn.w_feed := fun _ => feed;
     Mainn.w_gpt := fun _ _ _ => Mainn.GptRequestError;
     Mainn.w_image := fun _ _ => image;
     Mainn.w_photo := fun _ _ _ => photo_ok;
     Mainn.w_text := fun _ _ => true;
     Mainn.w_stop := fun _ => false;
     Mainn.w_running := fun _ => true |}.

Definition config : Mainn.config :=
  {| Mainn.RSS_URLS := ["http://feed"]; Mainn.CHECK_INTERVAL := 300;
     Mainn.yagpt_enabled := false |}.

Definition cold : Mainn.state :=
  {| Mainn.sent_entries := ∅; Mainn.files := ∅; Mainn.posts_sent := 0;
     Mainn.errors := 0; Mainn.yagpt_used := 0; Mainn.yagpt_errors := 0;
     Mainn.images_generated := 0; Mainn.trace := [] |}.

Definition calls (t : list Mainn.event) : list string :=
  omap (fun e => match e with
                 | Mainn.EvPublish e _ => Some (default "" (Mainn.e_link e))
                 | _ => None
                 end) t.

(** The enhancer answers with a text around the JSON text "{p}", which
    [json.loads] reads as [payload]. *)
Definition gpt_world (payload : Mainn.jvalue) : Mainn.world :=
  {| Mainn.w_clean := fun s => s;
     Mainn.w_json_loads := fun s => if String.eqb s "{p}" then Some payload else None;
     Mainn.w_feed := fun _ _ => None;
     Mainn.w_gpt := fun _ _ _ => Mainn.GptText "Here: {p} Done.";
     Mainn.w_image := fun _ _ => None;
     Mainn.w_photo := fun _ _ _ => true;
     Mainn.w_text := fun _ _ => true;
     Mainn.w_stop := fun _ => false;
     Mainn.w_running := fun _ => true |}.

Definition config_gpt : Mainn.config :=
  {| Mainn.RSS_URLS := ["http://feed"]; Mainn.CHECK_INTERVAL := 300;
     Mainn.yagpt_enabled := true |}.

(** A rewrite with a title of five characters. *)
Definition short_title : Mainn.jvalue :=
  Mainn.JObj [("title", Mainn.JStr "Short");
              ("description", Mainn.JStr "A body that is long enough to be accepted.")].

(** A payload without a description. *)
Definition title_only : Mainn.jvalue :=
  Mainn.JObj [("title", Mainn.JStr "A rewritten headline")].

(** A description of 3001 characters. *)
Definition long_description : string :=
  string_of_list_ascii (repeat "a"%char 3001).

(** A rewrite whose description is a list of 31 texts of 3001 characters. *)
Definition list_payload : Mainn.jvalue :=
  Mainn.JObj [("title", Mainn.JStr "A rewritten headline");
              ("description", Mainn.JArr (repeat (Mainn.JStr long_description) 31))].

(** The image generator writes the file "temp_images/post_1.jpg". *)
Definition image_path : string := "temp_images/post_1.jpg".

Definition w_img (photo_ok : bool) : Mainn.world :=
  calm (one_feed [entry_n "http://n/a"]) (Some image_path) photo_ok.

(** A feed of twelve entries, the newest first. *)
Definition twelve : list Mainn.entry :=
  map entry_n ["e12"; "e11"; "e10"; "e09"; "e08"; "e07"; "e06"; "e05"; "e04"; "e03";
               "e02"; "e01"].

(** A process is started, the controller is started, one cycle posts the
    entry "http://n/a", the controller is stopped. *)
Definition w_a : Mainn.world := calm (one_feed [entry_n "http://n/a"]) None true.

Definition first_run : Mainn.control :=
  let k := (Mainn.start (Mainn.boot cold)).2 in
  (Mainn.stop {| Mainn.is_running := Mainn.is_running k;
                 Mainn.stop_event := Mainn.stop_event k;
                 Mainn.globals := Mainn.cycle w_a config (Mainn.globals k) |}).2.

(** The process is started again, and the controller with it. *)
Definition second_run : Mainn.control :=
  (Mainn.start (Mainn.boot (Mainn.globals first_run))).2.

End DemoN.

(** ** Duplicate suppression *)

(** The spec's own test, on src/main.py: the same entry fed in two cycles
    is sent in the first and not in the second. *)
Example main_same_entry_two_cycles :
  let w := Demo.calm (Demo.one_feed [Demo.entry_a]) in
  let st1 := Main.cycle w (Demo.settings 100) (Demo.start_state ∅) in
  let st2 := Main.cycle w (Demo.settings 100) st1 in
  Demo.calls (since (Demo.start_state ∅) st1) = ["http://n/a"%string]
  /\ Demo.calls (since st1 st2) = [].
Proof. vm_compute. done. Qed.

(** C1.  In both programs every call of the publish step is made for an
    entry that has a link which is not in the store of sent links at the
    moment of the call; this holds for every event the worker makes, however
    many cycles it runs.  Within one cycle the store at the moment of a call
    still holds every link it held when the cycle began, so no entry whose
    link was in the store at the start of the cycle is sent in that cycle. *)
Theorem publish_only_for_unseen_links :
  (forall w c fuel st,
      Forall (MainFacts.guarded_from ∅) (since st (Main.bot_worker w c fuel st).2))
  /\ (forall w c st,
      Forall (MainFacts.guarded_from (Main.sent_news st)) (since st (Main.cycle w c st)))
  /\ (forall w c fuel st,
      Forall (MainnFacts.guarded_from ∅) (since st (Mainn.rss_loop w c fuel st).2))
  /\ (forall w c st,
      Forall (MainnFacts.guarded_from (Mainn.sent_entries st)) (since st (Mainn.cycle w c st))).
Proof.
  repeat split; intros.
  - apply grows_since, MainFacts.bot_worker_guarded.
  - apply grows_since, MainFacts.cycle_guarded.
  - apply grows_since, MainnFacts.rss_loop_guarded.
  - apply grows_since, MainnFacts.rss_cycle_guarded.
Qed.

(** ** Configuration of src/main.py *)

(** C9.  When one of POST_DELAY, CHECK_INTERVAL and MAX_HISTORY holds a
    string that [int] rejects, all three parameters get their defaults 10,
    300 and 100, whatever the other two hold. *)
Theorem load_params_resets_all_three env :
  Main.non_integer env "POST_DELAY"
  \/ Main.non_integer env "CHECK_INTERVAL"
  \/ Main.non_integer env "MAX_HISTORY" ->
  Main.load_params env = Main.defaults.
Proof.
  unfold Main.load_params, Main.try_params, Main.non_integer, Py.getenv.
  intros [(v & E & Hv) | [(v & E & Hv) | (v & E & Hv)]]; rewrite E.
  - by rewrite Hv.
  - rewrite Hv. clear Hv. destruct (Py.int _); reflexivity.
  - rewrite Hv. clear Hv.
    destruct (Py.int _); [| reflexivity]. destruct (Py.int _); reflexivity.
Qed.

Definition env_bad_interval (name : string) : option string :=
  if String.eqb name "POST_DELAY" then Some "7"%string
  else if String.eqb name "CHECK_INTERVAL" then Some "5 min"%string
  else if String.eqb name "MAX_HISTORY" then Some "50"%string
  else None.

Lemma load_params_resets_all_three_witness :
  Main.non_integer env_bad_interval "CHECK_INTERVAL"
  /\ Main.load_params env_bad_interval = Main.defaults.
Proof.
  assert (H : Main.non_integer env_bad_interval "CHECK_INTERVAL").
  { exists "5 min"%string. split; reflexivity. }
  split; [exact H |].
  apply (load_params_resets_all_three env_bad_interval). right. left. exact H.
Defined.

(** With three integers the parameters are the ones of the environment. *)
Example load_params_all_valid :
  Main.load_params (fun name => if String.eqb name "CHECK_INTERVAL" then Some "60"%string else None)
  = {| Main.POST_DELAY := Some 10; Main.CHECK_INTERVAL := Some 60; Main.MAX_HISTORY := Some 100 |}.
Proof. reflexivity. Qed.

(** ** The bound on the store *)

(** In src/main.py, with a bound of 2 and the links "a" and "b" in the
    store, a cycle that sends the new link "c" leaves three links in the
    store until the end of the cycle; with a set that is listed in the order
    of [elements] ("c", "a", "b"), the eviction that follows keeps "b" and
    drops "c", the link that was recorded last. *)
Lemma store_bound_counterexample :
  2 < Z.of_nat (size (Main.sent_news (Main.cycle_sends Demo.w_c (Demo.settings 2) Demo.st_ab)))
  /\ "c"%string ∈ Main.sent_news (Main.cycle_sends Demo.w_c (Demo.settings 2) Demo.st_ab)
  /\ Main.sent_news (Main.cycle Demo.w_c (Demo.settings 2) Demo.st_ab) = {[ "b"%string ]}.
Proof.
  split; [by vm_compute |]. split.
  - apply (bool_decide_unpack _). by vm_compute.
  - apply (bool_decide_unpack _). by vm_compute.
Qed.

(** In src/main.py, with POST_DELAY = -1, the same cycle is cut short by
    the sleep after its first post: nothing is trimmed, and the store holds
    three links at the end of the cycle, with a bound of 2. *)
Example store_bound_with_refused_delay :
  Main.cycle_raises Demo.w_c (Demo.settings_with_delay (-1) 2) Demo.st_ab = true
  /\ Main.sent_news (Main.cycle Demo.w_c (Demo.settings_with_delay (-1) 2) Demo.st_ab)
     = {[ "a"%string; "b"%string; "c"%string ]}
  /\ Main.disk (Main.cycle Demo.w_c (Demo.settings_with_delay (-1) 2) Demo.st_ab) = None.
Proof.
  split; [by vm_compute |]. split; [| by vm_compute].
  apply (bool_decide_unpack _). by vm_compute.
Qed.

(** C2, as the code has it.  In src/main.py, with MAX_HISTORY = H >= 1:
    while a cycle sends, the store grows by one link for every post that is
    counted, and nothing is evicted before the sends are over.  A cycle is
    cut short exactly when [time.sleep] refuses POST_DELAY (a negative
    number, or one that is too large) and the cycle has sent an item.  At
    the end of a cycle that is not cut short, when the store holds more than
    H links, the eviction keeps exactly ceil(H/2) of the links of the store,
    and otherwise it keeps the store as it is; so at the end of such a cycle
    the store holds at most H links.  A cycle that is cut short leaves the
    store as the sends left it and the file as it was.  In
    src/info_sender/mainn.py nothing is ever taken out of the store. *)
Theorem store_bounded_at_cycle_end w c st :
  Main.order_ok w -> 1 <= Main.max_history c ->
  let mid := Main.cycle_sends w c st in
  let fin := Main.cycle w c st in
  (Main.sent_news st ⊆ Main.sent_news mid
   /\ Z.of_nat (size (Main.sent_news mid)) - Z.of_nat (size (Main.sent_news st))
      = Main.posts_sent mid - Main.posts_sent st)
  /\ Main.sent_news fin ⊆ Main.sent_news mid
  /\ Main.cycle_raises w c st
     = Py.sleep_raises (Main.post_delay c) && (Main.posts_sent st <? Main.posts_sent mid)
  /\ (Main.cycle_raises w c st = false ->
      (Main.max_history c < Z.of_nat (size (Main.sent_news mid)) ->
       Z.of_nat (size (Main.sent_news fin)) = MainFacts.half_up (Main.max_history c))
      /\ (Z.of_nat (size (Main.sent_news mid)) <= Main.max_history c ->
          Main.sent_news fin = Main.sent_news mid)
      /\ Z.of_nat (size (Main.sent_news fin)) <= Main.max_history c)
  /\ (Main.cycle_raises w c st = true ->
      Main.sent_news fin = Main.sent_news mid /\ Main.disk fin = Main.disk st)
  /\ (forall w' c' st', Mainn.sent_entries st' ⊆ Mainn.sent_entries (Mainn.cycle w' c' st')).
Proof.
  intros Ho Hh mid fin. subst mid fin. rewrite MainFacts.cycle_store.
  split; [apply MainFacts.cycle_sends_counts |].
  split; [destruct (Main.cycle_raises w c st); [done | by apply MainFacts.evict_subset] |].
  split; [apply MainFacts.cycle_raises_iff |].
  split.
  { intros ->.
    split; [intros; by apply MainFacts.evict_size_over |].
    split; [intros; by rewrite MainFacts.evict_size_within |].
    by apply MainFacts.evict_bounded. }
  split.
  { intros Hr. rewrite Hr. split; [done |].
    by destruct (MainFacts.cycle_raised w c st Hr) as (_ & Hd & _). }
  intros w' c' st'. unfold Mainn.cycle. simpl.
  by apply MainnFacts.feeds_loop_guarded.
Qed.

Lemma store_bounded_at_cycle_end_witness :
  Main.order_ok Demo.w_c /\ 1 <= Main.max_history (Demo.settings 2)
  /\ Z.of_nat (size (Main.sent_news (Main.cycle Demo.w_c (Demo.settings 2) Demo.st_ab)))
     <= Main.max_history (Demo.settings 2).
Proof.
  assert (Ho : Main.order_ok Demo.w_c) by (intros s; reflexivity).
  assert (Hh : 1 <= Main.max_history (Demo.settings 2)) by (simpl; lia).
  assert (Hr : Main.cycle_raises Demo.w_c (Demo.settings 2) Demo.st_ab = false)
    by (by vm_compute).
  split; [exact Ho |]. split; [exact Hh |].
  exact (proj2 (proj2 (proj1 (proj2 (proj2 (proj2
    (store_bounded_at_cycle_end Demo.w_c (Demo.settings 2) Demo.st_ab Ho Hh)))) Hr))).
Defined.

(** ** The life of the store *)

(** In src/info_sender/mainn.py the store lives in memory only: the link
    posted by the first run is in the store when the controller stops, the
    store of the next process is empty when its controller has started, and
    its first cycle posts the same link again. *)
Lemma store_lifecycle_counterexample :
  "http://n/a"%string ∈ Mainn.sent_entries (Mainn.globals DemoN.first_run)
  /\ Mainn.sent_entries (Mainn.globals DemoN.second_run) = ∅
  /\ DemoN.calls (Mainn.trace (Mainn.cycle DemoN.w_a DemoN.config
                                 (Mainn.globals DemoN.second_run)))
     = ["http://n/a"%string].
Proof.
  split; [apply (bool_decide_unpack _); by vm_compute |].
  split; [apply (bool_decide_unpack _); by vm_compute |].
  by vm_compute.
Qed.

(** C3, as the code has it.  In src/main.py: the worker loads the store
    from the lines of sent_news.txt before its first cycle; during the sends
    of a cycle a link enters the store only if [send_news] was called for
    it, and the store grows by exactly one link for every post that is
    counted; a cycle that comes to its end writes the store to the file
    after its sends and then only waits, while a cycle that is cut short
    (which happens exactly when [time.sleep] refuses POST_DELAY after a
    post) writes nothing and ends in the error handler; a stop command given
    while the bot runs writes the store; what is written reads back as the
    same store when every link is one line (not empty, no character that
    ends a line).  In src/info_sender/mainn.py the store is kept in memory
    only: a new process starts with the empty store, starting and stopping
    the controller leave the store as it is, and the publish step answers
    what its send answers: a link enters the store, and a post is counted,
    exactly when the photo send or the text send got the post out. *)
Theorem store_lifecycle w c st :
  Main.order_ok w -> (forall t, Main.w_file w t = true) ->
  (forall text, Main.disk st = Some text ->
     Main.sent_news (Main.bot_worker w c 0 st).2
     = list_to_set (Py.splitlines (Py.read_text text)))
  /\ (Main.sent_news (Main.cycle_sends w c st)
        ⊆ Main.sent_news st
          ∪ list_to_set (MainFacts.published_links (since st (Main.cycle_sends w c st)))
      /\ Z.of_nat (size (Main.sent_news (Main.cycle_sends w c st)))
         - Z.of_nat (size (Main.sent_news st))
         = Main.posts_sent (Main.cycle_sends w c st) - Main.posts_sent st)
  /\ (Main.cycle_raises w c st = false ->
      (exists k, since (Main.cycle_sends w c st) (Main.cycle w c st)
                 = Main.EvSave (Main.history_text w (Main.sent_news (Main.cycle w c st)))
                   :: replicate k (Main.EvSleep 1))
      /\ Main.disk (Main.cycle w c st)
         = Some (Main.history_text w (Main.sent_news (Main.cycle w c st))))
  /\ (Main.cycle_raises w c st = true ->
      since (Main.cycle_sends w c st) (Main.cycle w c st)
      = [Main.EvAdmin Main.NCritical; Main.EvSleep 60]
      /\ Main.disk (Main.cycle w c st) = Main.disk st
      /\ Main.sent_news (Main.cycle w c st) = Main.sent_news (Main.cycle_sends w c st))
  /\ Main.cycle_raises w c st
     = Py.sleep_raises (Main.post_delay c)
       && (Main.posts_sent st <? Main.posts_sent (Main.cycle_sends w c st))
  /\ (forall s : gset string,
        (forall id, id ∈ s -> PyFacts.one_line id = true) ->
        list_to_set (Py.splitlines (Py.read_text (Main.history_text w s))) = s)
  /\ (forall k, Main.is_running k = true ->
        Main.is_running (Main.stop_bot w k) = false
        /\ Main.sent_news (Main.globals (Main.stop_bot w k)) = Main.sent_news (Main.globals k)
        /\ Main.disk (Main.globals (Main.stop_bot w k))
           = Some (Main.history_text w (Main.sent_news (Main.globals k))))
  /\ (forall previous, Mainn.sent_entries (Mainn.globals (Mainn.boot previous)) = ∅)
  /\ (forall k, Mainn.sent_entries (Mainn.globals (Mainn.start k).2)
                = Mainn.sent_entries (Mainn.globals k)
                /\ Mainn.globals (Mainn.stop k).2 = Mainn.globals k)
  /\ (forall w' c' e st' m ip st1,
        Mainn.format_message w' c' e
          (Mainn.emit (Mainn.EvPublish e (Mainn.sent_entries st')) st')
        = (Some (m, ip), st1) ->
        (Mainn.publish w' c' e st').1 = MainnFacts.delivered w' m ip st1
        /\ MainnFacts.core (Mainn.publish w' c' e st').2
           = if MainnFacts.delivered w' m ip st1
             then ({[ default ""%string (Mainn.e_link e) ]} ∪ Mainn.sent_entries st',
                   Mainn.posts_sent st' + 1, Mainn.errors st')
             else (Mainn.sent_entries st', Mainn.posts_sent st', Mainn.errors st' + 1))
  /\ (forall w' c' e st' st1,
        Mainn.format_message w' c' e
          (Mainn.emit (Mainn.EvPublish e (Mainn.sent_entries st')) st')
        = (None, st1) ->
        (Mainn.publish w' c' e st').1 = false
        /\ MainnFacts.core (Mainn.publish w' c' e st').2
           = (Mainn.sent_entries st', Mainn.posts_sent st', Mainn.errors st' + 1)).
Proof.
  intros Ho Hf. split.
  { intros text Hd. unfold Main.bot_worker. simpl.
    apply MainFacts.load_history_store; [done | apply Hf]. }
  split.
  { split; [apply MainFacts.cycle_sends_recorded | apply MainFacts.cycle_sends_counts]. }
  split.
  { intros Hr. destruct (MainFacts.cycle_done w c st Hr) as (k & E & _ & D).
    split; [exists k; by apply extends_since | by apply D]. }
  split.
  { intros Hr. destruct (MainFacts.cycle_raised w c st Hr) as (S1 & D1 & _ & E1).
    split; [by apply extends_since | done]. }
  split; [apply MainFacts.cycle_raises_iff |].
  split; [intros s Hs; by apply MainFacts.history_round_trip |].
  split.
  { intros k Hk. unfold Main.stop_bot. rewrite Hk. simpl.
    split; [done |]. split; [apply MainFacts.save_history_store |].
    apply MainFacts.save_history_disk, Hf. }
  split; [done |]. split.
  { intros k. unfold Mainn.start, Mainn.stop. split; by case_match. }
  split.
  - intros w' c' e st' m ip st1. apply MainnFacts.publish_delivered.
  - intros w' c' e st' st1. apply MainnFacts.publish_unformatted.
Qed.

Lemma store_lifecycle_witness :
  Main.order_ok Demo.w_c /\ (forall t, Main.w_file Demo.w_c t = true)
  /\ Main.disk (Main.cycle Demo.w_c (Demo.settings 2) Demo.st_ab)
     = Some (Main.history_text Demo.w_c
               (Main.sent_news (Main.cycle Demo.w_c (Demo.settings 2) Demo.st_ab))).
Proof.
  assert (Ho : Main.order_ok Demo.w_c) by (intros s; reflexivity).
  assert (Hf : forall t, Main.w_file Demo.w_c t = true) by (intros t; reflexivity).
  assert (Hr : Main.cycle_raises Demo.w_c (Demo.settings 2) Demo.st_ab = false)
    by (by vm_compute).
  split; [exact Ho |]. split; [exact Hf |].
  exact (proj2 (proj1 (proj2 (proj2
    (store_lifecycle Demo.w_c (Demo.settings 2) Demo.st_ab Ho Hf))) Hr)).
Defined.

(** ** Failing sources *)

(** C4.  In both programs a source whose fetch or parse fails does not keep
    the cycle from asking the others: the sources asked in a cycle are all
    the configured ones, in their order, whatever fails (in src/main.py: all
    that are not blank; in src/info_sender/mainn.py: as long as nobody stops
    the worker).  Each failing source adds one to the error counter: with
    feeds that answer the same whenever asked, the errors of [get_news] grow
    by the number of failing sources, and the errors of the loop of
    mainn.py grow by the number of failing sources plus the number of
    entries whose publish step did not end in a post. *)
Theorem source_failures_are_isolated :
  (forall w urls st,
      MainFacts.fetches (since st (Main.get_news w urls st).2)
      = map Py.strip (List.filter MainFacts.nonblank urls))
  /\ (forall w urls st, MainFacts.steady w ->
      Main.errors (Main.get_news w urls st).2
      = Main.errors st + Z.of_nat (length (MainFacts.failing_sources w urls)))
  /\ (forall w c urls st, MainnFacts.never_stops w ->
      MainnFacts.fetches (since st (Mainn.feeds_loop w c urls st)) = urls)
  /\ (forall w c urls st, MainnFacts.never_stops w -> MainnFacts.steady_feed w ->
      Mainn.errors (Mainn.feeds_loop w c urls st) - Mainn.errors st
      = Z.of_nat (length (MainnFacts.failing_sources w urls))
        + Z.of_nat (length (MainnFacts.calls (since st (Mainn.feeds_loop w c urls st))))
        - (Mainn.posts_sent (Mainn.feeds_loop w c urls st) - Mainn.posts_sent st)).
Proof.
  split; [| split; [| split]].
  - intros w urls st. unfold Main.get_news.
    destruct (MainFacts.get_news_loop_fetches w urls []
                (Main.set_last_check (Main.w_now w (Main.now_of st)) st)) as (ev & E & F).
    rewrite <- F. f_equal. by apply since_app.
  - intros w urls st Hs. unfold Main.get_news.
    by rewrite MainFacts.get_news_loop_errors.
  - intros w c urls st Hn.
    destruct (MainnFacts.feeds_loop_fetches w c urls st Hn) as (ev & E & F).
    by rewrite (extends_since _ _ _ E).
  - intros w c urls st Hn Hs. by apply MainnFacts.feeds_loop_errors.
Qed.

(** The spec's test: of two sources the first fails and the second
    answers; both are asked and one error is counted. *)
Lemma source_failures_are_isolated_witness :
  MainFacts.steady (Demo.calm (Demo.one_feed [Demo.entry_a]))
  /\ MainFacts.fetches
       (since (Demo.start_state ∅)
          (Main.get_news (Demo.calm (Demo.one_feed [Demo.entry_a]))
             ["http://down"; "http://feed"]%string (Demo.start_state ∅)).2)
     = ["http://down"; "http://feed"]%string
  /\ Main.errors (Main.get_news (Demo.calm (Demo.one_feed [Demo.entry_a]))
                    ["http://down"; "http://feed"]%string (Demo.start_state ∅)).2
     = 1.
Proof.
  assert (Hs : MainFacts.steady (Demo.calm (Demo.one_feed [Demo.entry_a])))
    by (intros t; split; reflexivity).
  split; [exact Hs |]. split.
  - exact (proj1 source_failures_are_isolated
             (Demo.calm (Demo.one_feed [Demo.entry_a]))
             ["http://down"; "http://feed"]%string (Demo.start_state ∅)).
  - exact (proj1 (proj2 source_failures_are_isolated)
             (Demo.calm (Demo.one_feed [Demo.entry_a]))
             ["http://down"; "http://feed"]%string (Demo.start_state ∅) Hs).
Defined.

(** ** The entries of a feed *)

(** In src/main.py a feed of eleven fresh entries is sent whole, in the
    order of the feed list. *)
Lemma feed_batch_counterexample :
  Demo.calls (Main.trace (Main.cycle (Demo.calm (Demo.one_feed Demo.eleven))
                            (Demo.settings 100) (Demo.start_state ∅)))
  = ["e11"; "e10"; "e09"; "e08"; "e07"; "e06"; "e05"; "e04"; "e03"; "e02"; "e01"]%string.
Proof. by vm_compute. Qed.

(** In src/info_sender/mainn.py a feed of twelve entries gives the ten
    first of the feed list, the last of them first. *)
Example mainn_batch_of_twelve :
  DemoN.calls (Mainn.trace (Mainn.cycle (DemoN.calm (DemoN.one_feed DemoN.twelve) None true)
                              DemoN.config DemoN.cold))
  = ["e03"; "e04"; "e05"; "e06"; "e07"; "e08"; "e09"; "e10"; "e11"; "e12"]%string.
Proof. by vm_compute. Qed.

(** In src/main.py an entry that raises ends the reading of its feed: of
    a feed whose first entry has an image medium without a url and whose
    second entry is good, no item is kept, and one error is counted. *)
Example main_feed_stops_at_raising_entry :
  (Main.get_news (Demo.calm (Demo.one_feed [Demo.entry_bad; Demo.entry_a]))
     ["http://feed"%string] (Demo.start_state ∅)).1 = []
  /\ Main.errors (Main.get_news (Demo.calm (Demo.one_feed [Demo.entry_bad; Demo.entry_a]))
                    ["http://feed"%string] (Demo.start_state ∅)).2 = 1.
Proof. split; by vm_compute. Qed.

(** C6, as the code has it.  In src/info_sender/mainn.py, for each source
    of a cycle, the entries the publish step is entered for are taken, in
    this order, from the reversed list of the first ten entries of the feed:
    at most ten, the last of the ten first; and the loop over the sources
    is the one-source loop run source after source.  In src/main.py
    [get_news] goes through the entries of a feed in the order of the feed
    list, with no cap and no reversal, up to the first entry whose turn
    raises: the items it keeps are the items of the turns before that one,
    in their order, and the entries after it are not read. *)
Theorem feed_batches :
  (forall es, (length (Mainn.batch es) <= 10)%nat /\ Mainn.batch es = rev (take 10 es))
  /\ (forall w c url st,
        MainnFacts.calls (since st (Mainn.feeds_loop w c [url] st))
        `sublist_of` rev (take 10 (default [] (Mainn.w_feed w (Mainn.now_of st) url))))
  /\ (forall w c url r st,
        Mainn.feeds_loop w c (url :: r) st
        = Mainn.feeds_loop w c r (Mainn.feeds_loop w c [url] st))
  /\ (forall cl now url es acc,
        Main.read_entries cl now url es acc
        = (acc ++ MainFacts.kept (map (Main.read_entry cl now url) es),
           MainFacts.raises (map (Main.read_entry cl now url) es))).
Proof.
  split; [| split; [| split]].
  - intros es. split; [apply MainnFacts.batch_length | done].
  - intros. apply MainnFacts.feeds_loop_one_calls.
  - intros. apply MainnFacts.feeds_loop_cons.
  - intros. apply MainFacts.read_entries_all.
Qed.

(** ** The enhancer *)

Lemma format_message_text w c e st m ip st' :
  Mainn.format_message w c e st = (Some (m, ip), st') ->
  let chosen := (Mainn.select_text w c
                   (Mainn.clean w (default "No title"%string (Mainn.e_title e)))
                   (Mainn.clean w (default ""%string (Mainn.e_description e))) st).1 in
  Mainn.msg_title m = chosen.1 /\ Mainn.shorten chosen.2 = Some (Mainn.msg_description m).
Proof.
  unfold Mainn.format_message.
  destruct (Mainn.select_text _ _ _ _ st) as [[t' d'] st1]; simpl.
  destruct (Mainn.shorten d') as [d'' |]; [| done].
  destruct (Mainn.make_image _ _ _ st1) as [ip' st2]. by intros [= <- <- <-].
Qed.

(** C7.  When the enhancer answers with a rewritten title and body, the
    post takes them in place of the original title and body exactly when
    the length of the title is strictly between 10 and 120 and the length
    of the body strictly between 30 and 600 (and then the use is counted);
    otherwise it takes the original title and body.  For texts,
    [acceptable] is these four comparisons, and what [select_text] takes is
    what [format_message] puts in the post. *)
Theorem enhancement_accepted_iff_in_range w c title description st new_title new_description st1 :
  Mainn.yagpt_enabled c = true ->
  Mainn.enhance_with_yagpt w c title description st = (Some (new_title, new_description), st1) ->
  (if MainnFacts.acceptable new_title new_description
   then (Mainn.select_text w c title description st).1 = (new_title, new_description)
        /\ Mainn.yagpt_used (Mainn.select_text w c title description st).2
           = Mainn.yagpt_used st1 + 1
   else (Mainn.select_text w c title description st).1
        = (Mainn.JStr title, Mainn.JStr description)
        /\ Mainn.yagpt_used (Mainn.select_text w c title description st).2
           = Mainn.yagpt_used st1)
  /\ (forall a b : string,
        MainnFacts.acceptable (Mainn.JStr a) (Mainn.JStr b) = true
        <-> ((10 < Py.len a)%nat /\ (Py.len a < 120)%nat)
            /\ ((30 < Py.len b)%nat /\ (Py.len b < 600)%nat))
  /\ (forall e m ip st',
        title = Mainn.clean w (default "No title"%string (Mainn.e_title e)) ->
        description = Mainn.clean w (default ""%string (Mainn.e_description e)) ->
        Mainn.format_message w c e st = (Some (m, ip), st') ->
        Mainn.msg_title m = (Mainn.select_text w c title description st).1.1
        /\ Mainn.shorten (Mainn.select_text w c title description st).1.2
           = Some (Mainn.msg_description m)).
Proof.
  intros Hc He. split; [by apply MainnFacts.select_text_accepts |]. split.
  - intros a b. unfold MainnFacts.acceptable, MainnFacts.within. simpl.
    rewrite !andb_true_iff, !Nat.ltb_lt. tauto.
  - intros e m ip st' -> -> Hf. by apply (format_message_text w c e st m ip st').
Qed.

(** The spec's test: a rewritten title of five characters is turned down
    and the original title and body are used. *)
Lemma enhancement_accepted_iff_in_range_witness :
  Mainn.yagpt_enabled DemoN.config_gpt = true
  /\ (Mainn.select_text (DemoN.gpt_world DemoN.short_title) DemoN.config_gpt
        "An original headline" "An original body" DemoN.cold).1
     = (Mainn.JStr "An original headline", Mainn.JStr "An original body").
Proof.
  split; [reflexivity |].
  exact (proj1 (proj1 (enhancement_accepted_iff_in_range
    (DemoN.gpt_world DemoN.short_title) DemoN.config_gpt
    "An original headline" "An original body" DemoN.cold
    (Mainn.JStr "Short") (Mainn.JStr "A body that is long enough to be accepted.")
    (Mainn.emit (Mainn.EvGpt "An original headline" "An original body") DemoN.cold)
    eq_refl eq_refl))).
Defined.

(** A description of 3001 characters and an answer without a description:
    what comes back as the description is not the description that was
    given, but its first 3000 characters followed by three dots. *)
Lemma partial_payload_counterexample :
  (Mainn.enhance_with_yagpt (DemoN.gpt_world DemoN.title_only) DemoN.config_gpt
     "An original headline" DemoN.long_description DemoN.cold).1
  = Some (Mainn.JStr "A rewritten headline",
          Mainn.JStr (Py.take_str 3000 DemoN.long_description ++ "...")%string)
  /\ (Py.take_str 3000 DemoN.long_description ++ "...")%string <> DemoN.long_description.
Proof.
  split; [by vm_compute |].
  intros H. apply (f_equal String.length) in H. vm_compute in H. discriminate H.
Qed.

(** C10, as the code has it.  When the text of the answer holds a JSON
    object, [enhance_with_yagpt] does not turn the answer down for a missing
    key and counts no error: a missing title is the title that was given,
    and a missing description is the description as it was put into the
    prompt, which is the description that was given when that has at most
    3000 characters and its first 3000 characters followed by three dots
    when it is longer. *)
Theorem partial_payload_is_filled_in w c title description st text data :
  Mainn.yagpt_enabled c = true ->
  Mainn.w_gpt w (Mainn.now_of st) title (Mainn.clip_input description) = Mainn.GptText text ->
  Mainn.find "{" text <> -1 -> Mainn.rfind "}" text <> -1 ->
  Mainn.w_json_loads w
    (Mainn.slice (Mainn.find "{" text) (Mainn.rfind "}" text + 1) text)
  = Some (Mainn.JObj data) ->
  let r := Mainn.enhance_with_yagpt w c title description st in
  (exists new_title new_description,
      r.1 = Some (new_title, new_description)
      /\ new_title = default (Mainn.JStr title) (Mainn.lookup_key "title" data)
      /\ new_description
         = default (Mainn.JStr (Mainn.clip_input description))
             (Mainn.lookup_key "description" data))
  /\ Mainn.yagpt_errors r.2 = Mainn.yagpt_errors st
  /\ ((Py.len description <= 3000)%nat -> Mainn.clip_input description = description)
  /\ ((3000 < Py.len description)%nat ->
      Mainn.clip_input description = (Py.take_str 3000 description ++ "...")%string).
Proof.
  intros Hc Hg Hs He Hj r. subst r. unfold Mainn.enhance_with_yagpt.
  rewrite Hc, Hg. simpl.
  rewrite (MainnFacts.read_answer_object w title _ text data Hs He Hj). simpl.
  split; [by do 2 eexists |]. split; [done |]. split.
  - apply MainnFacts.clip_input_short.
  - intros H. unfold Mainn.clip_input, Mainn.MAX_INPUT_LENGTH.
    by destruct (Nat.ltb_spec 3000 (Py.len description)) as [_ | ?]; [| lia].
Qed.

Lemma partial_payload_is_filled_in_witness :
  Mainn.yagpt_enabled DemoN.config_gpt = true
  /\ exists new_title new_description,
      (Mainn.enhance_with_yagpt (DemoN.gpt_world DemoN.title_only) DemoN.config_gpt
         "An original headline" "An original body" DemoN.cold).1
      = Some (new_title, new_description)
      /\ new_title = Mainn.JStr "A rewritten headline"
      /\ new_description = Mainn.JStr "An original body".
Proof.
  split; [reflexivity |].
  exact (proj1 (partial_payload_is_filled_in
    (DemoN.gpt_world DemoN.title_only) DemoN.config_gpt
    "An original headline" "An original body" DemoN.cold
    "Here: {p} Done." [("title"%string, Mainn.JStr "A rewritten headline")]
    eq_refl eq_refl ltac:(vm_compute; discriminate) ltac:(vm_compute; discriminate)
    eq_refl)).
Defined.

(** ** The publisher *)

(** In src/main.py an item has an image whose probe answers 404: no photo
    send is attempted, the text send is the only send. *)
Lemma photo_first_counterexample :
  Main.truthy_image (Main.image Demo.item_img) = true
  /\ since (Demo.start_state ∅)
       (Main.send_news (Demo.image_world (Some 404) true) Demo.item_img
          (Demo.start_state ∅)).2
     = [Main.EvPublish Demo.item_img ∅; Main.EvHead "http://img/a.jpg";
        Main.EvSendText (Main.format_message Demo.item_img)].
Proof. split; [reflexivity | by vm_compute]. Qed.

(** C5, as the code has it.  For an entry that has an image,
    src/info_sender/mainn.py first attempts the photo send, and src/main.py
    first probes the image with a HEAD request and attempts the photo send
    only when the probe answers 200.  In both, when the photo is not
    delivered (the photo send fails; in main.py also: the probe fails or
    answers another status) the text send is made exactly once in the same
    call and nothing is tried again, and when the photo is delivered no text
    send is made.  A publish whose text send goes through is counted as a
    post and not as an error. *)
Theorem photo_first_then_text_once :
  (forall w item st,
      Main.truthy_image (Main.image item) = true ->
      let url := default ""%string (Main.image item) in
      let msg := Main.format_message item in
      let t := Main.now_of st in
      let r := Main.send_news w item st in
      let delivered := MainFacts.probe_ok w (t + 1) url && Main.w_photo w (t + 2) url msg in
      since st r.2
      = [Main.EvPublish item (Main.sent_news st); Main.EvHead url]
        ++ (if MainFacts.probe_ok w (t + 1) url
            then Main.EvSendPhoto url msg
                 :: (if Main.w_photo w (t + 2) url msg then []
                     else MainFacts.text_events w (t + 3) item)
            else MainFacts.text_events w (t + 2) item)
      /\ MainFacts.photos (since st r.2) = (if MainFacts.probe_ok w (t + 1) url then 1 else 0)%nat
      /\ MainFacts.texts (since st r.2) = (if delivered then 0 else 1)%nat
      /\ r.1 = (if delivered then true
                else Main.w_text w (t + 2 + MainFacts.photos (since st r.2)) msg)
      /\ Main.posts_sent r.2 = Main.posts_sent st + (if r.1 then 1 else 0)
      /\ Main.errors r.2 = Main.errors st + (if r.1 then 0 else 1))
  /\ (forall w m p st,
      Mainn.has_image (Some p) st = true ->
      let t := Mainn.now_of st in
      let r := Mainn.send w m (Some p) st in
      since st r.2
      = Mainn.EvSendPhoto p m
        :: (if Mainn.w_photo w t p m then [Mainn.EvRemove p] else [Mainn.EvSendText m])
      /\ r.1 = (if Mainn.w_photo w t p m then true else Mainn.w_text w (t + 1) m))
  /\ (forall w m st,
      let r := Mainn.send w m None st in
      since st r.2 = [Mainn.EvSendText m] /\ r.1 = Mainn.w_text w (Mainn.now_of st) m)
  /\ (forall w c e st m ip st1,
      Mainn.format_message w c e (Mainn.emit (Mainn.EvPublish e (Mainn.sent_entries st)) st)
      = (Some (m, ip), st1) ->
      (Mainn.publish w c e st).1 = (Mainn.send w m ip st1).1
      /\ Mainn.posts_sent (Mainn.publish w c e st).2
         = Mainn.posts_sent st + (if (Mainn.send w m ip st1).1 then 1 else 0)
      /\ Mainn.errors (Mainn.publish w c e st).2
         = Mainn.errors st + (if (Mainn.send w m ip st1).1 then 0 else 1)).
Proof.
  split; [| split; [| split]].
  - intros w item st Hi url msg t r delivered.
    destruct (MainFacts.send_news_with_image w item st Hi) as (Ev & R & P & Er).
    fold url msg t r in Ev, R, P, Er. rewrite Ev.
    split; [done |]. subst delivered.
    unfold MainFacts.text_events in *. fold msg in R |- *.
    destruct (MainFacts.probe_ok w (t + 1) url); simpl.
    + destruct (Main.w_photo w (t + 2) url msg); simpl.
      * by repeat split.
      * set (tail := if Main.w_text w (t + 3) msg then _ else _).
        assert (Hp : MainFacts.photos
                       (Main.EvPublish item (Main.sent_news st) :: Main.EvHead url
                        :: Main.EvSendPhoto url msg :: Main.EvSendText msg :: tail) = 1%nat)
          by (subst tail; by destruct (Main.w_text w (t + 3) msg)).
        assert (Ht : MainFacts.texts
                       (Main.EvPublish item (Main.sent_news st) :: Main.EvHead url
                        :: Main.EvSendPhoto url msg :: Main.EvSendText msg :: tail) = 1%nat)
          by (subst tail; by destruct (Main.w_text w (t + 3) msg)).
        rewrite Hp, Ht. replace (t + 2 + 1)%nat with (t + 3)%nat by lia.
        by repeat split.
    + set (tail := if Main.w_text w (t + 2) msg then _ else _).
      assert (Hp : MainFacts.photos
                     (Main.EvPublish item (Main.sent_news st) :: Main.EvHead url
                      :: Main.EvSendText msg :: tail) = 0%nat)
        by (subst tail; by destruct (Main.w_text w (t + 2) msg)).
      assert (Ht : MainFacts.texts
                     (Main.EvPublish item (Main.sent_news st) :: Main.EvHead url
                      :: Main.EvSendText msg :: tail) = 1%nat)
        by (subst tail; by destruct (Main.w_text w (t + 2) msg)).
      rewrite Hp, Ht. replace (t + 2 + 0)%nat with (t + 2)%nat by lia.
      by repeat split.
  - intros w m p st Hi t r.
    destruct (MainnFacts.send_with_image w m p st Hi) as (Ev & R & _). done.
  - intros w m st. simpl. split; [| done].
    apply since_app. by unfold trace_of, mainn_traced.
  - intros w c e st m ip st1 Hf.
    destruct (MainnFacts.publish_delivered w c e st m ip st1 Hf) as [R O].
    rewrite MainnFacts.send_delivered. split; [exact R |].
    unfold MainnFacts.core in O.
    destruct (MainnFacts.delivered w m ip st1); injection O as _ -> ->; split; lia.
Qed.

(** The spec's test: the photo send fails, the text send is made once, the
    publish is counted as a post. *)
Lemma photo_first_then_text_once_witness :
  Main.truthy_image (Main.image Demo.item_img) = true
  /\ MainFacts.texts
       (since (Demo.start_state ∅)
          (Main.send_news (Demo.image_world (Some 200) false) Demo.item_img
             (Demo.start_state ∅)).2) = 1%nat
  /\ Main.posts_sent (Main.send_news (Demo.image_world (Some 200) false) Demo.item_img
                        (Demo.start_state ∅)).2 = 1.
Proof.
  split; [reflexivity |].
  pose proof (proj1 photo_first_then_text_once
                (Demo.image_world (Some 200) false) Demo.item_img (Demo.start_state ∅)
                eq_refl) as H.
  split; [exact (proj1 (proj2 (proj2 H))) | exact (proj1 (proj2 (proj2 (proj2 (proj2 H)))))].
Defined.

(** ** The image file *)

Lemma send_keeps_image_on_failure w m p st :
  Mainn.has_image (Some p) st = true ->
  Mainn.w_photo w (Mainn.now_of st) p m = false ->
  p ∈ Mainn.files (Mainn.send w m (Some p) st).2.
Proof.
  intros Hi Hp. destruct (MainnFacts.send_with_image w m p st Hi) as (_ & _ & F).
  rewrite F, Hp. unfold Mainn.has_image in Hi.
  apply andb_true_iff in Hi as [_ Hi]. by apply bool_decide_eq_true in Hi.
Qed.

(** C8.  In src/info_sender/mainn.py the image file is removed when the
    photo send goes through, and it is still there after the cycle when the
    photo send fails and the post goes out as text. *)
Theorem image_left_behind_when_photo_fails :
  Mainn.files (Mainn.cycle (DemoN.w_img true) DemoN.config DemoN.cold) = ∅
  /\ Mainn.files (Mainn.cycle (DemoN.w_img false) DemoN.config DemoN.cold)
     = {[ DemoN.image_path ]}
  /\ Mainn.posts_sent (Mainn.cycle (DemoN.w_img false) DemoN.config DemoN.cold) = 1.
Proof.
  split; [apply (bool_decide_unpack _); by vm_compute |].
  split; [apply (bool_decide_unpack _); by vm_compute | by vm_compute].
Qed.

(** * Further properties of the code *)

(** ** Lengths of strings *)

Lemma len_append (a b : string) : Py.len (a ++ b)%string = (Py.len a + Py.len b)%nat.
Proof. unfold Py.len. induction a as [| c a IH]; simpl; [done | by rewrite IH]. Qed.

Lemma len_substring (i n : nat) (s : string) : (Py.len (String.substring i n s) <= n)%nat.
Proof.
  unfold Py.len. revert i n. induction s as [| c s IH]; intros i n.
  - destruct i, n; simpl; lia.
  - destruct i as [| i]; simpl.
    + destruct n as [| n]; simpl; [lia |]. specialize (IH 0%nat n). lia.
    + apply IH.
Qed.

Lemma len_take_str (n : nat) (s : string) : (Py.len (Py.take_str n s) <= n)%nat.
Proof. apply len_substring. Qed.

Lemma take_str_short (n : nat) (s : string) : (Py.len s <= n)%nat -> Py.take_str n s = s.
Proof.
  unfold Py.take_str, Py.len. revert n. induction s as [| c s IH]; intros n H.
  - by destruct n.
  - destruct n as [| n]; simpl in *; [lia |]. rewrite IH; [done | lia].
Qed.

(** ** src/main.py: the items of [get_news] *)

Module MainItems.
Import Main.

Lemma lower_char_idem c : lower_char (lower_char c) = lower_char c.
Proof. by destruct c as [[] [] [] [] [] [] [] []]. Qed.

Lemma lower_idem s : lower (lower s) = lower s.
Proof. induction s as [| c s IH]; simpl; [done |]. by rewrite lower_char_idem, IH. Qed.

Lemma lower_truthy s : Py.truthy_str (lower s) = Py.truthy_str s.
Proof. by destruct s. Qed.

Lemma truthy_of_lower u v : lower u = lower v -> Py.truthy_str u = Py.truthy_str v.
Proof. intros H. by rewrite <- (lower_truthy u), <- (lower_truthy v), H. Qed.





End MainItems.

(** X1.  [is_image_url] does not look at the case of letters: two urls
    that are equal up to the case of their letters are both taken for an
    image or both not; and no url, or the empty url, is never an image. *)
Theorem is_image_url_ignores_case :
  (forall u v, Main.lower u = Main.lower v ->
     Main.is_image_url (Some u) = Main.is_image_url (Some v))
  /\ Main.is_image_url None = false
  /\ Main.is_image_url (Some ""%string) = false.
Proof.
  split; [| done]. intros u v H. unfold Main.is_image_url.
  by rewrite (MainItems.truthy_of_lower u v H), H.
Qed.

Lemma is_image_url_ignores_case_witness :
  Main.lower "HTTP://IMG/A.JPG" = Main.lower "http://img/a.jpg"
  /\ Main.is_image_url (Some "HTTP://IMG/A.JPG"%string) = true.
Proof.
  split; [reflexivity |].
  exact (eq_trans (proj1 is_image_url_ignores_case "HTTP://IMG/A.JPG"%string
                     "http://img/a.jpg"%string eq_refl) eq_refl).
Defined.


(** X3.  The freshness filter of [get_news]: an entry without a
    publication time, or with one that is no time, is skipped; an entry with
    a publication time is skipped exactly when it is two whole days old or
    older, so entries of up to two days, and entries dated in the future,
    are read. *)
Theorem freshness_filter cl now url e :
  match Main.published_parsed e with
  | Some (Some t) => Main.read_entry cl now url e = Main.Skip <-> 2 * Main.day_us <= now - t
  | _ => Main.read_entry cl now url e = Main.Skip
  end.
Proof.
  unfold Main.read_entry.
  destruct (Main.published_parsed e) as [[t |] |]; try done.
  assert (H : (1 <? Main.age_days now t) = true <-> 2 * Main.day_us <= now - t).
  { rewrite Z.ltb_lt. unfold Main.age_days, Main.day_us.
    split; intros H; Z.div_mod_to_equations; lia. }
  destruct (1 <? Main.age_days now t).
  - split; [intros _; by apply H | done].
  - split; [| intros H'; apply H in H'; done].
    destruct (match Main.media_content e with
              | Some ms => Main.find_image ms | None => inl None end) as [img1 | []];
      [| done].
    by destruct (if negb (Main.truthy_image img1) then _ else _) as [img2 | []].
Qed.

Example entry_of_47_hours_is_read :
  Main.read_entry (fun s => s) (10 * Main.day_us) "u"
    (Demo.entry_of' (10 * Main.day_us - 47 * 3600 * 1000000)) <> Main.Skip.
Proof. by vm_compute. Qed.

(** ** src/main.py: the history and the pace of a cycle *)

Module MainMore.
Import Main.

Lemma slice_from_zero {A} (l : list A) : slice_from 0 l = l.
Proof. unfold slice_from. simpl. by rewrite Z.min_l by lia. Qed.

Lemma slice_from_nonneg_length {A} (k : Z) (l : list A) :
  0 <= k ->
  Z.of_nat (length (slice_from k l)) = Z.of_nat (length l) - Z.min k (Z.of_nat (length l)).
Proof.
  intros Hk. unfold slice_from.
  destruct (Z.ltb_spec k 0) as [? | _]; [lia |]. rewrite length_drop. lia.
Qed.

Lemma evict_zero w st : order_ok w -> sent_news (evict w 0 st) = sent_news st.
Proof.
  intros Ho. unfold evict. case_match; [| done]. simpl.
  rewrite slice_from_zero. by apply MainFacts.order_round_trip.
Qed.

Lemma evict_negative w h st :
  order_ok w -> h < 0 ->
  Z.of_nat (size (sent_news (evict w h st)))
  = Z.of_nat (size (sent_news st)) - Z.min ((- h) / 2) (Z.of_nat (size (sent_news st))).
Proof.
  intros Ho Hh. unfold evict.
  destruct (Z.ltb_spec h (Z.of_nat (size (sent_news st)))) as [_ | ?]; [| lia].
  simpl. rewrite size_list_to_set.
  - rewrite slice_from_nonneg_length by (Z.div_mod_to_equations; lia).
    by rewrite MainFacts.order_length.
  - unfold slice_from. eapply sublist_NoDup; [| apply sublist_drop].
    by apply MainFacts.order_NoDup.
Qed.

Lemma count_new_mono (s s' : gset string) news :
  s ⊆ s' -> (count_new s' news <= count_new s news)%nat.
Proof.
  intros Hs. unfold count_new. induction news as [| item r IH]; simpl; [done |].
  rewrite !filter_cons.
  destruct (decide (is_new s' item = true)) as [H' | H'].
  - assert (H : is_new s item = true).
    { unfold is_new in *. apply andb_true_iff in H' as [Hl Hn].
      apply bool_decide_eq_true in Hn. rewrite Hl. simpl.
      apply bool_decide_eq_true. intros Hin. apply Hn. by apply Hs. }
    destruct (decide (is_new s item = true)); [simpl; lia | done].
  - destruct (decide (is_new s item = true)); simpl; lia.
Qed.

Lemma count_new_le_length (s : gset string) news : (count_new s news <= length news)%nat.
Proof. unfold count_new. apply length_filter. Qed.

Lemma send_loop_sent_le_new w d news k st :
  ((send_loop w d news k st).1 <= k + count_new (sent_news st) news)%nat.
Proof.
  revert k st. induction news as [| item r IH]; intros k st; [simpl; lia |].
  assert (Hc : count_new (sent_news st) (item :: r)
               = ((if is_new (sent_news st) item then 1 else 0)
                  + count_new (sent_news st) r)%nat).
  { unfold count_new. rewrite filter_cons.
    destruct (is_new (sent_news st) item); by case_decide. }
  rewrite Hc. clear Hc. simpl.
  destruct (w_running w (now_of st)); [| simpl; lia].
  destruct (is_new (sent_news st) item).
  - pose proof (MainFacts.send_news_store w item st) as Es.
    destruct (send_news w item st) as [ok st1]. simpl in Es.
    destruct ok.
    + destruct (Py.sleep_raises d); [simpl; lia |].
      set (st2 := emit _ _). specialize (IH (S k) st2).
      assert (Hm : (count_new (sent_news st2) r <= count_new (sent_news st) r)%nat).
      { apply count_new_mono. subst st2. simpl. rewrite Es. apply union_subseteq_r. }
      simpl. lia.
    + specialize (IH k st1). rewrite Es in IH. simpl. lia.
  - specialize (IH k st). simpl. lia.
Qed.

End MainMore.

(** X4.  The trim of the history for a bound that is not positive: with
    MAX_HISTORY = 0 nothing is ever trimmed (the slice [-0//2:] is the whole
    list), so the store at the end of a cycle is the store after the sends;
    with a negative MAX_HISTORY = -m the trim drops m/2 links, or all of
    them when there are fewer. *)
Theorem history_trim_without_positive_bound w c st :
  Main.order_ok w ->
  (Main.sent_news (Main.evict w 0 st) = Main.sent_news st)
  /\ (Main.max_history c = 0 ->
      Main.sent_news (Main.cycle w c st) = Main.sent_news (Main.cycle_sends w c st))
  /\ (forall h, h < 0 ->
      Z.of_nat (size (Main.sent_news (Main.evict w h st)))
      = Z.of_nat (size (Main.sent_news st))
        - Z.min ((- h) / 2) (Z.of_nat (size (Main.sent_news st)))).
Proof.
  intros Ho. split; [by apply MainMore.evict_zero |]. split.
  - intros Hc. rewrite MainFacts.cycle_store, Hc.
    destruct (Main.cycle_raises w c st); [done | by apply MainMore.evict_zero].
  - intros h Hh. by apply MainMore.evict_negative.
Qed.

Lemma history_trim_without_positive_bound_witness :
  Main.order_ok Demo.w_c
  /\ Main.sent_news (Main.evict Demo.w_c 0 Demo.st_ab) = Main.sent_news Demo.st_ab.
Proof.
  assert (Ho : Main.order_ok Demo.w_c) by (intros s; reflexivity).
  split; [exact Ho |].
  exact (proj1 (history_trim_without_positive_bound Demo.w_c (Demo.settings 0)
                  Demo.st_ab Ho)).
Defined.

(** A store that holds the empty link does not survive: the text that
    is written for it is empty, and it is read back as the empty store. *)
Example history_loses_the_empty_link :
  Main.history_text Demo.w_c {[ ""%string ]} = ""%string
  /\ Main.sent_news
       (Main.load_history Demo.w_c
          (Main.save_history Demo.w_c (Demo.start_state {[ ""%string ]})).2).2
     = ∅.
Proof. split; [by vm_compute |]. apply (bool_decide_unpack _). by vm_compute. Qed.

(** X5.  The history survives the end of the process when its links are
    lines: after a cycle that came to its end, with a file that can be
    written and read, the store a new process has after its start is the set
    of the lines of the text the cycle wrote; and when every link of the
    store is one line (not empty, without a character that ends a line),
    that is the store the cycle ended with. *)
Theorem history_survives_restart w w' c st :
  Main.order_ok w -> (forall t, Main.w_file w t = true) ->
  (forall t, Main.w_file w' t = true) ->
  Main.cycle_raises w c st = false ->
  Main.sent_news (Main.globals (Main.boot w' (Main.cycle w c st)))
  = list_to_set (Py.splitlines (Py.read_text
                   (Main.history_text w (Main.sent_news (Main.cycle w c st)))))
  /\ ((forall id, id ∈ Main.sent_news (Main.cycle w c st) -> PyFacts.one_line id = true) ->
      Main.sent_news (Main.globals (Main.boot w' (Main.cycle w c st)))
      = Main.sent_news (Main.cycle w c st)).
Proof.
  intros Ho Hf Hf' Hr.
  assert (E : Main.sent_news (Main.globals (Main.boot w' (Main.cycle w c st)))
              = list_to_set (Py.splitlines (Py.read_text
                  (Main.history_text w (Main.sent_news (Main.cycle w c st)))))).
  { unfold Main.boot. simpl. apply MainFacts.load_history_store; [| apply Hf'].
    simpl. destruct (MainFacts.cycle_done w c st Hr) as (k & _ & _ & D). by apply D. }
  split; [exact E |]. intros Hs. rewrite E. by apply MainFacts.history_round_trip.
Qed.

Lemma history_survives_restart_witness :
  Main.order_ok Demo.w_c /\ (forall t, Main.w_file Demo.w_c t = true)
  /\ Main.cycle_raises Demo.w_c (Demo.settings 100) Demo.st_ab = false
  /\ Main.sent_news (Main.globals (Main.boot Demo.w_c
                                     (Main.cycle Demo.w_c (Demo.settings 100) Demo.st_ab)))
     = Main.sent_news (Main.cycle Demo.w_c (Demo.settings 100) Demo.st_ab).
Proof.
  assert (Ho : Main.order_ok Demo.w_c) by (intros s; reflexivity).
  assert (Hf : forall t, Main.w_file Demo.w_c t = true) by (intros t; reflexivity).
  assert (Hr : Main.cycle_raises Demo.w_c (Demo.settings 100) Demo.st_ab = false)
    by (by vm_compute).
  assert (Hs : forall id,
             id ∈ Main.sent_news (Main.cycle Demo.w_c (Demo.settings 100) Demo.st_ab) ->
             PyFacts.one_line id = true).
  { intros id Hid.
    assert (Hc : Main.sent_news (Main.cycle Demo.w_c (Demo.settings 100) Demo.st_ab)
                 = {[ "a"%string; "b"%string; "c"%string ]})
      by (apply (bool_decide_unpack _); by vm_compute).
    rewrite Hc in Hid. set_unfold in Hid. by destruct Hid as [[-> | ->] | ->]. }
  split; [exact Ho |]. split; [exact Hf |]. split; [exact Hr |].
  exact (proj2 (history_survives_restart Demo.w_c Demo.w_c (Demo.settings 100) Demo.st_ab
                  Ho Hf Hf Hr) Hs).
Defined.

(** X6.  The wait between two checks: the worker sleeps one second at a
    time, at most CHECK_INTERVAL times; it goes on sleeping as long as it
    reads the run flag up and stops at the first reading that finds it down,
    so a stop takes effect within one sleep; and nothing else is done while
    waiting. *)
Theorem wait_is_interruptible w n st :
  exists k, (k <= n)%nat
    /\ since st (Main.wait_loop w n st) = replicate k (Main.EvSleep 1)
    /\ (forall j, (j < k)%nat -> Main.w_running w (Main.now_of st + j) = true)
    /\ ((k < n)%nat -> Main.w_running w (Main.now_of st + k) = false)
    /\ Main.sent_news (Main.wait_loop w n st) = Main.sent_news st
    /\ Main.disk (Main.wait_loop w n st) = Main.disk st.
Proof.
  destruct (MainFacts.wait_loop_events w n st) as (k & Hk & E & Hup & Hdown).
  exists k. split; [done |]. split; [by apply extends_since |].
  split; [done |]. split; [done |].
  split; [apply MainFacts.wait_loop_store | apply MainFacts.wait_loop_disk].
Qed.

(** X7.  The numbers of a cycle: the number of items sent in the loop of
    a cycle (the number the admin is told as sent) is at most the number of
    items counted as new before the loop (the number the admin is told as
    found), which is at most the number of items fetched. *)
Theorem sent_at_most_found w d news st :
  ((Main.send_loop w d news 0 st).1 <= Main.count_new (Main.sent_news st) news)%nat
  /\ (Main.count_new (Main.sent_news st) news <= length news)%nat.
Proof.
  split; [| apply MainMore.count_new_le_length].
  pose proof (MainMore.send_loop_sent_le_new w d news 0 st). lia.
Qed.

(** ** The flag is read before every publish *)

Section checked.
Context {S E : Type} `{Traced S E}.
Variable is_call : E -> bool.
Variable flag : nat -> bool.

(** Every call event of [ev] sits at a time at which the flag reads true,
    when the first event of [ev] sits at time [base]. *)
Definition checked (base : nat) (ev : list E) : Prop :=
  forall k e, ev !! k = Some e -> is_call e = true -> flag (base + k) = true.

Lemma checked_quiet base ev : Forall (fun e => is_call e = false) ev -> checked base ev.
Proof.
  intros F k e Hk Hc. rewrite Forall_lookup in F. specialize (F k e Hk). congruence.
Qed.

Lemma checked_app base ev1 ev2 :
  checked base ev1 -> checked (base + length ev1) ev2 -> checked base (ev1 ++ ev2).
Proof.
  intros C1 C2 k e Hk Hc. destruct (decide (k < length ev1)%nat) as [Hlt | Hge].
  - rewrite lookup_app_l in Hk by done. by eapply C1.
  - rewrite lookup_app_r in Hk by lia.
    replace (base + k)%nat with (base + length ev1 + (k - length ev1))%nat by lia.
    by eapply C2.
Qed.

Lemma checked_cons base e ev :
  (is_call e = true -> flag base = true) -> checked (base + 1) ev -> checked base (e :: ev).
Proof.
  intros He C k e' Hk Hc. destruct k as [| k]; simpl in Hk.
  - injection Hk as <-. rewrite Nat.add_0_r. by apply He.
  - replace (base + Datatypes.S k)%nat with (base + 1 + k)%nat by lia. by eapply C.
Qed.

(** [steps st st']: [st'] has the trace of [st] followed by checked events. *)
Definition steps (st st' : S) : Prop :=
  exists ev, extends st st' ev /\ checked (length (trace_of st)) ev.

Lemma steps_refl st : steps st st.
Proof. exists []. split; [apply extends_refl |]. by intros k e Hk. Qed.

Lemma steps_trans st1 st2 st3 : steps st1 st2 -> steps st2 st3 -> steps st1 st3.
Proof.
  intros (ev1 & E1 & C1) (ev2 & E2 & C2). exists (ev1 ++ ev2).
  split; [by eapply extends_trans |]. apply checked_app; [done |].
  unfold extends in E1. by rewrite E1, length_app in C2.
Qed.

Lemma steps_quiet st st' : grows (fun e => is_call e = false) st st' -> steps st st'.
Proof. intros (ev & Eq & F). exists ev. split; [done | by apply checked_quiet]. Qed.

Lemma steps_lookup st st' i e :
  steps st st' -> trace_of st' !! i = Some e -> (length (trace_of st) <= i)%nat ->
  is_call e = true -> flag i = true.
Proof.
  intros (ev & Eq & C) Hi Hle Hc. unfold extends in Eq. rewrite Eq in Hi.
  rewrite lookup_app_r in Hi by done.
  replace i with (length (trace_of st) + (i - length (trace_of st)))%nat by lia.
  by eapply C.
Qed.
End checked.

Module MainPolls.
Import Main.

Definition is_send (e : event) : bool :=
  match e with
  | EvHead _ | EvSendPhoto _ _ | EvSendText _ | EvAdmin _ => true
  | _ => false
  end.

Lemma text_events_sends w t item : Forall (fun e => is_send e = true) (MainFacts.text_events w t item).
Proof.
  unfold MainFacts.text_events. destruct (w_text w t _); repeat constructor.
Qed.

(** The events of [send_news]: its call, then probes, sends and notices. *)
Lemma send_news_events w item st :
  exists ev, extends st (send_news w item st).2 (EvPublish item (sent_news st) :: ev)
    /\ Forall (fun e => is_send e = true) ev.
Proof.
  unfold send_news. set (st1 := emit (EvPublish item (sent_news st)) st).
  assert (E1 : extends st st1 [EvPublish item (sent_news st)]) by done.
  assert (T : forall st2 ev2, extends st1 st2 ev2 -> Forall (fun e => is_send e = true) ev2 ->
            exists ev, extends st (send_text w item st2).2 (EvPublish item (sent_news st) :: ev)
                       /\ Forall (fun e => is_send e = true) ev).
  { intros st2 ev2 E2 F2.
    destruct (MainFacts.send_text_spec w item st2) as (E3 & _).
    exists (ev2 ++ MainFacts.text_events w (now_of st2) item). split.
    - apply (extends_trans _ _ _ _ _ E1 (extends_trans _ _ _ _ _ E2 E3)).
    - apply Forall_app. split; [done | apply text_events_sends]. }
  destruct (truthy_image (image item)).
  2: { apply (T st1 []); [apply extends_refl | constructor]. }
  set (url := default ""%string (image item)).
  set (st2 := emit (EvHead url) st1).
  assert (E2 : extends st1 st2 [EvHead url]) by done.
  assert (F2 : Forall (fun e => is_send e = true) [EvHead url]) by (by repeat constructor).
  destruct (w_head w (now_of st1) url) as [status |]; [| by eapply T].
  destruct (status =? 200); [| by eapply T].
  set (st3 := emit (EvSendPhoto url (format_message item)) st2).
  assert (E3 : extends st1 st3 [EvHead url; EvSendPhoto url (format_message item)]).
  { unfold extends, trace_of, main_traced. subst st3 st2. simpl. by rewrite <- app_assoc. }
  assert (F3 : Forall (fun e => is_send e = true)
                 [EvHead url; EvSendPhoto url (format_message item)])
    by (by repeat constructor).
  destruct (w_photo w (now_of st2) url (format_message item)); [| by eapply T].
  eexists. split; [apply (extends_trans _ _ _ _ _ E1 E3) | done].
Qed.

Definition polled (w : world) : state -> state -> Prop :=
  steps MainFacts.is_call (w_running w).

Lemma send_is_quiet e : is_send e = true -> MainFacts.is_call e = false.
Proof. by destruct e. Qed.

Lemma send_loop_polled w d news k st : polled w st (send_loop w d news k st).2.1.
Proof.
  revert k st. induction news as [| item r IH]; intros k st; simpl.
  { apply steps_refl. }
  destruct (w_running w (now_of st)) eqn:Hr; simpl; [| apply steps_refl].
  destruct (is_new (sent_news st) item); [| apply IH].
  destruct (send_news_events w item st) as (ev & Ev & F).
  assert (P1 : polled w st (send_news w item st).2).
  { eexists. split; [exact Ev |]. apply checked_cons; [done |].
    apply checked_quiet. eapply Forall_impl; [exact F | apply send_is_quiet]. }
  destruct (send_news w item st) as [ok st1]; simpl in *.
  destruct ok.
  - destruct (Py.sleep_raises d); simpl.
    { eapply steps_trans; [exact P1 |]. apply steps_quiet. by apply grows_same. }
    eapply steps_trans; [exact P1 |]. eapply steps_trans; [| apply IH].
    apply steps_quiet. eapply grows_trans; [| by apply MainFacts.grows_emit].
    by apply grows_same.
  - eapply steps_trans; [exact P1 | apply IH].
Qed.

Lemma quiet_polled w st st' :
  grows (fun e => MainFacts.is_call e = false) st st' -> polled w st st'.
Proof. apply steps_quiet. Qed.

Lemma cycle_polled w c st : polled w st (cycle w c st).
Proof.
  set (Q := fun e => MainFacts.is_call e = false).
  assert (HQ : forall e, MainFacts.is_call e = false -> Q e) by done.
  assert (Hs : polled w st (cycle_sends w c st)).
  { unfold cycle_sends, try_sends.
    pose proof (MainFacts.grows_get_news Q HQ w (rss_urls c) st) as G.
    destruct (get_news w (rss_urls c) st) as [news st1]; simpl in *.
    set (st2 := if (0 <? count_new _ _)%nat then _ else _).
    assert (G2 : polled w st1 st2).
    { subst st2.
      case_match; [apply quiet_polled, (MainFacts.grows_admin Q HQ) | apply steps_refl]. }
    pose proof (send_loop_polled w (post_delay c) news 0 st2) as G3.
    destruct (send_loop w (post_delay c) news 0 st2) as [k [st3 raised]]; simpl in *.
    eapply steps_trans; [apply quiet_polled, G |].
    eapply steps_trans; [exact G2 |].
    destruct raised; simpl; [exact G3 |]. eapply steps_trans; [exact G3 |].
    case_match; [apply quiet_polled, (MainFacts.grows_admin Q HQ) | apply steps_refl]. }
  rewrite MainFacts.cycle_cases. destruct (cycle_raises w c st).
  - eapply steps_trans; [exact Hs |]. apply quiet_polled, (MainFacts.grows_on_error Q _ HQ).
  - unfold keep_history.
    eapply steps_trans; [| apply quiet_polled, (MainFacts.grows_wait Q HQ)].
    eapply steps_trans; [| apply quiet_polled, (MainFacts.grows_save Q HQ)].
    eapply steps_trans; [| apply quiet_polled, (MainFacts.grows_evict Q)].
    exact Hs.
Qed.

Lemma worker_loop_polled w c fuel st : polled w st (worker_loop w c fuel st).2.
Proof.
  revert st. induction fuel as [| n IH]; intros st; simpl; [apply steps_refl |].
  case_match; [| apply steps_refl]. eapply steps_trans; [apply cycle_polled | apply IH].
Qed.

Lemma bot_worker_polled w c fuel st : polled w st (bot_worker w c fuel st).2.
Proof.
  set (Q := fun e => MainFacts.is_call e = false).
  assert (HQ : forall e, MainFacts.is_call e = false -> Q e) by done.
  unfold bot_worker.
  set (st1 := (load_history w (send_admin_message NWorkerStarted st)).2).
  assert (G1 : polled w st st1).
  { eapply steps_trans; [apply quiet_polled, (MainFacts.grows_admin Q HQ) |].
    apply quiet_polled, (MainFacts.grows_load Q HQ). }
  pose proof (worker_loop_polled w c fuel st1) as G2.
  destruct (worker_loop w c fuel st1) as [ended st2]; simpl in *.
  destruct ended; simpl.
  - eapply steps_trans; [exact G1 |]. eapply steps_trans; [exact G2 |].
    apply quiet_polled, (MainFacts.grows_admin Q HQ).
  - eapply steps_trans; eauto.
Qed.

End MainPolls.

Module MainnPolls.
Import Mainn.

Definition is_publish (e : event) : bool :=
  match e with EvPublish _ _ => true | _ => false end.

Definition polled_n (w : world) : state -> state -> Prop :=
  steps is_publish (fun t => negb (w_stop w t)).

Lemma inner_is_quiet e : MainnFacts.is_inner e = true -> is_publish e = false.
Proof. by destruct e. Qed.

Lemma entries_loop_polled w c es st : polled_n w st (entries_loop w c es st).
Proof.
  revert st. induction es as [| e r IH]; intros st; simpl; [apply steps_refl |].
  destruct (w_stop w (now_of st)) eqn:Hs; [apply steps_refl |].
  destruct (is_new (sent_entries st) e); [| apply IH].
  destruct (MainnFacts.publish_events w c e st) as (ev & Ev & F).
  eapply steps_trans; [| apply IH].
  eexists. split; [exact Ev |]. apply checked_cons.
  - intros _. change (length (trace_of st)) with (now_of st). by rewrite Hs.
  - apply checked_quiet. eapply Forall_impl; [exact F | apply inner_is_quiet].
Qed.

Lemma one_event_polled w st e : is_publish e = false -> polled_n w st (emit e st).
Proof.
  intros He. exists [e]. split; [done |]. apply checked_quiet. by repeat constructor.
Qed.

Lemma feeds_loop_polled w c urls st : polled_n w st (feeds_loop w c urls st).
Proof.
  revert st. induction urls as [| u r IH]; intros st; simpl; [apply steps_refl |].
  destruct (w_stop w (now_of st)); [apply steps_refl |].
  set (st1 := emit (EvFetch u) st).
  assert (G1 : polled_n w st st1) by (by apply one_event_polled).
  destruct (w_feed w (now_of st) u) as [[| e es] |].
  - eapply steps_trans; [exact G1 | apply IH].
  - eapply steps_trans; [exact G1 |].
    eapply steps_trans; [apply entries_loop_polled | apply IH].
  - eapply steps_trans; [exact G1 |]. eapply steps_trans; [| apply IH].
    apply steps_quiet. by apply grows_same.
Qed.

Lemma rss_loop_polled w c fuel st : polled_n w st (rss_loop w c fuel st).2.
Proof.
  revert st. induction fuel as [| n IH]; intros st; simpl; [apply steps_refl |].
  case_match; [| apply steps_refl]. eapply steps_trans; [| apply IH].
  unfold cycle. eapply steps_trans; [apply feeds_loop_polled |].
  by apply one_event_polled.
Qed.

End MainnPolls.

(** X8.  The workers read their flag before every publish: in the trace
    of [bot_worker] every call of [send_news] is made at a moment at which
    the worker has just read [is_running] as true, and in the trace of
    [rss_loop] every publish step is entered at a moment at which the worker
    has just read the stop event as not set; so once the flag is read as
    down, no entry is sent. *)
Theorem flag_read_before_every_publish :
  (forall w c fuel st i item seen,
      Main.trace (Main.bot_worker w c fuel st).2 !! i = Some (Main.EvPublish item seen) ->
      (Main.now_of st <= i)%nat ->
      Main.w_running w i = true)
  /\ (forall w c fuel st i e seen,
      Mainn.trace (Mainn.rss_loop w c fuel st).2 !! i = Some (Mainn.EvPublish e seen) ->
      (Mainn.now_of st <= i)%nat ->
      Mainn.w_stop w i = false).
Proof.
  split.
  - intros w c fuel st i item seen Hi Hle.
    by apply (steps_lookup MainFacts.is_call (Main.w_running w) st _ i _
                (MainPolls.bot_worker_polled w c fuel st) Hi Hle).
  - intros w c fuel st i e seen Hi Hle.
    apply negb_true_iff.
    by apply (steps_lookup MainnPolls.is_publish (fun t => negb (Mainn.w_stop w t)) st _ i _
                (MainnPolls.rss_loop_polled w c fuel st) Hi Hle).
Qed.

Lemma flag_read_before_every_publish_witness :
  Main.trace (Main.bot_worker Demo.w_c (Demo.settings 100) 1 Demo.st_ab).2 !! 3%nat
  = Some (Main.EvPublish
            {| Main.title := "c"; Main.link := "c"; Main.summary := "";
               Main.image := None; Main.source := "http://feed" |}
            {[ "a"%string; "b"%string ]})
  /\ (Main.now_of Demo.st_ab <= 3)%nat
  /\ Main.w_running Demo.w_c 3 = true.
Proof.
  assert (H1 : Main.trace (Main.bot_worker Demo.w_c (Demo.settings 100) 1 Demo.st_ab).2 !! 3%nat
               = Some (Main.EvPublish
                         {| Main.title := "c"; Main.link := "c"; Main.summary := "";
                            Main.image := None; Main.source := "http://feed" |}
                         {[ "a"%string; "b"%string ]})) by (by vm_compute).
  assert (H2 : (Main.now_of Demo.st_ab <= 3)%nat) by (vm_compute; lia).
  split; [exact H1 |]. split; [exact H2 |].
  exact (proj1 flag_read_before_every_publish Demo.w_c (Demo.settings 100) 1%nat
           Demo.st_ab 3%nat _ _ H1 H2).
Defined.

Module MainPace.
Import Main.

Definition is_sleep (e : event) : bool :=
  match e with EvSleep _ => true | _ => false end.

Definition sleeps (ev : list event) : list event := List.filter is_sleep ev.

Lemma sleeps_app ev1 ev2 : sleeps (ev1 ++ ev2) = sleeps ev1 ++ sleeps ev2.
Proof. apply List.filter_app. Qed.

Lemma sends_do_not_sleep ev : Forall (fun e => MainPolls.is_send e = true) ev -> sleeps ev = [].
Proof.
  induction 1 as [| e ev He _ IH]; [done |]. simpl. rewrite IH. by destruct e.
Qed.

(** One call of [send_news], with the state it is made in. *)
Definition call : Type := news_item * state.

Definition went_out (w : world) (c : call) : bool := (send_news w c.1 c.2).1.

(** The events of one turn of the loop that calls [send_news]: the events
    of the call, and the sleep of line 299 when the call answered true. *)
Definition turn_events (w : world) (d : Z) (c : call) : list event :=
  since c.2 (send_news w c.1 c.2).2 ++ (if went_out w c then [EvSleep d] else []).

Lemma send_news_extends w item st :
  extends st (send_news w item st).2 (since st (send_news w item st).2).
Proof.
  destruct (MainFacts.send_news_first w item st) as [ev E].
  by rewrite (extends_since _ _ _ E).
Qed.

Lemma send_news_never_sleeps w item st : sleeps (since st (send_news w item st).2) = [].
Proof.
  destruct (MainPolls.send_news_events w item st) as (ev & E & F).
  rewrite (extends_since _ _ _ E). simpl. by apply sends_do_not_sleep.
Qed.

Lemma send_loop_turns w d news k st :
  Py.sleep_raises d = false ->
  exists calls : list call,
    extends st (send_loop w d news k st).2.1 (concat (map (turn_events w d) calls))
    /\ map fst calls `sublist_of` news
    /\ (send_loop w d news k st).1 = (k + length (List.filter (went_out w) calls))%nat
    /\ (send_loop w d news k st).2.2 = false.
Proof.
  intros Hd. revert k st. induction news as [| item r IH]; intros k st; simpl.
  { exists []. split; [apply extends_refl |]. split; [done |]. simpl. split; [lia | done]. }
  destruct (w_running w (now_of st)); simpl.
  2: { exists []. split; [apply extends_refl |]. split; [apply sublist_nil_l |].
       simpl. split; [lia | done]. }
  destruct (is_new (sent_news st) item).
  2: { destruct (IH k st) as (calls & E & Hs & Hk & Hr). exists calls.
       split; [done |]. split; [by apply sublist_cons | done]. }
  pose proof (send_news_extends w item st) as E1.
  assert (Hw : went_out w (item, st) = (send_news w item st).1) by done.
  unfold turn_events in *.
  destruct (send_news w item st) as [ok st1] eqn:Esn; simpl in *.
  rewrite Hd. destruct ok.
  - set (st2 := emit _ _).
    destruct (IH (S k) st2) as (calls & E & Hs & Hk & Hr).
    exists ((item, st) :: calls). simpl. rewrite Esn, Hw. simpl.
    split; [| split; [by apply sublist_skip | split; [lia | done]]].
    eapply extends_trans; [| exact E].
    apply (extends_trans st st1 st2 _ [EvSleep d] E1). done.
  - destruct (IH k st1) as (calls & E & Hs & Hk & Hr).
    exists ((item, st) :: calls). simpl. rewrite Esn, Hw. simpl.
    split; [| split; [by apply sublist_skip | done]].
    rewrite app_nil_r. eapply extends_trans; [exact E1 | exact E].
Qed.

End MainPace.

(** X9.  The pace of the sends, for a POST_DELAY that [time.sleep] takes:
    the events of the loop of a cycle are the events of its calls of
    [send_news], one call after the other, each call that answered true
    followed at once by one sleep of POST_DELAY, and no call that answered
    false followed by one; the calls are made for items of the news in their
    order, a call itself never sleeps, and the calls that answered true are
    as many as the items counted as sent and as the posts counted. *)
Theorem one_delay_for_every_post w d news st :
  Py.sleep_raises d = false ->
  exists calls : list MainPace.call,
    since st (Main.send_loop w d news 0 st).2.1
    = concat (map (MainPace.turn_events w d) calls)
    /\ map fst calls `sublist_of` news
    /\ Forall (fun c : MainPace.call =>
                 MainPace.sleeps (since c.2 (Main.send_news w c.1 c.2).2) = []) calls
    /\ (Main.send_loop w d news 0 st).1 = length (List.filter (MainPace.went_out w) calls)
    /\ Main.posts_sent (Main.send_loop w d news 0 st).2.1 - Main.posts_sent st
       = Z.of_nat (Main.send_loop w d news 0 st).1
    /\ (Main.send_loop w d news 0 st).2.2 = false.
Proof.
  intros Hd. destruct (MainPace.send_loop_turns w d news 0 st Hd) as (calls & E & Hs & Hk & Hr).
  exists calls. split; [by apply extends_since |]. split; [done |].
  split; [apply Forall_forall; intros c _; apply MainPace.send_news_never_sleeps |].
  split; [done |]. split; [| done].
  destruct (MainFacts.send_loop_counts w d news 0 st) as (_ & _ & K). simpl in K. lia.
Qed.

(** Two items that go out in the calm world, with a delay of ten
    seconds. *)
Lemma one_delay_for_every_post_witness :
  Py.sleep_raises 10 = false
  /\ exists calls : list MainPace.call,
      since (Demo.start_state ∅)
        (Main.send_loop (Demo.calm (fun _ => None)) 10
           [Demo.item_of "a"; Demo.item_of "b"] 0 (Demo.start_state ∅)).2.1
      = concat (map (MainPace.turn_events (Demo.calm (fun _ => None)) 10) calls)
      /\ (Main.send_loop (Demo.calm (fun _ => None)) 10
            [Demo.item_of "a"; Demo.item_of "b"] 0 (Demo.start_state ∅)).1
         = length (List.filter (MainPace.went_out (Demo.calm (fun _ => None))) calls).
Proof.
  split; [reflexivity |].
  destruct (one_delay_for_every_post (Demo.calm (fun _ => None)) 10
              [Demo.item_of "a"; Demo.item_of "b"] (Demo.start_state ∅) eq_refl)
    as (calls & E & _ & _ & K & _).
  exists calls. split; [exact E | exact K].
Defined.

(** ** src/info_sender/mainn.py: the text of a post *)

Module MainnText.
Import Mainn.

(** The answer of the enhancer cannot be read as a JSON object. *)
Definition unreadable (w : world) (text : string) : Prop :=
  find "{" text = -1 \/ rfind "}" text = -1
  \/ w_json_loads w (slice (find "{" text) (rfind "}" text + 1) text) = None.

Lemma read_answer_unreadable w t d text :
  unreadable w text -> read_answer w t d text = (None, false).
Proof.
  unfold unreadable, read_answer. intros [H | [H | H]].
  - by rewrite H.
  - rewrite H. simpl. by rewrite orb_true_r.
  - destruct ((find "{" text =? -1) || (rfind "}" text + 1 =? 0)); [done |].
    by rewrite H.
Qed.

Lemma enhance_trace w c t d st :
  yagpt_enabled c = true ->
  trace (enhance_with_yagpt w c t d st).2 = trace st ++ [EvGpt t (clip_input d)].
Proof.
  intros Hc. unfold enhance_with_yagpt. rewrite Hc. simpl.
  destruct (w_gpt w (now_of st) t (clip_input d)) as [| | text]; try done.
  destruct (read_answer w t (clip_input d) text) as [r counted]. by destruct counted.
Qed.

Lemma select_text_trace w c t d st :
  trace (select_text w c t d st).2
  = trace st ++ (if yagpt_enabled c then [EvGpt t (clip_input d)] else []).
Proof.
  unfold select_text. destruct (yagpt_enabled c) eqn:Hc; simpl.
  2: { by rewrite app_nil_r. }
  pose proof (enhance_trace w c t d st Hc) as T.
  destruct (enhance_with_yagpt w c t d st) as [[[nt nd] |] st1]; simpl in *; [| done].
  by destruct (validate nt nd) as [[|] |].
Qed.

Lemma shorten_bound v v' n :
  shorten v = Some v' -> len v' = Some n -> (n <= 503)%nat.
Proof.
  unfold shorten. destruct (len v) as [k |] eqn:Hk; [| done].
  destruct (Nat.ltb_spec 500 k) as [Hlt | Hle].
  - destruct v as [| | | s | |]; try done. intros [= <-]. simpl. intros [= <-].
    rewrite len_append. pose proof (len_take_str 500 s). simpl. lia.
  - intros [= <-]. rewrite Hk. intros [= <-]. lia.
Qed.

Lemma shorten_text s : exists s', shorten (JStr s) = Some (JStr s').
Proof. unfold shorten. simpl. case_match; by eexists. Qed.

End MainnText.

(** X10.  An enhancer that fails does not keep the post from going out
    with its original text: when the request fails or the response is
    malformed, the original title and description are used and one enhancer
    error is counted; when the text of the response holds no JSON object
    that can be read, the original title and description are used and no
    error is counted.  In every case the request is made once and not
    repeated. *)
Theorem enhancer_failure_keeps_original w c t d st :
  Mainn.yagpt_enabled c = true ->
  let r := Mainn.select_text w c t d st in
  since st r.2 = [Mainn.EvGpt t (Mainn.clip_input d)]
  /\ match Mainn.w_gpt w (Mainn.now_of st) t (Mainn.clip_input d) with
     | Mainn.GptText text =>
         MainnText.unreadable w text ->
         r.1 = (Mainn.JStr t, Mainn.JStr d)
         /\ Mainn.yagpt_errors r.2 = Mainn.yagpt_errors st
         /\ Mainn.yagpt_used r.2 = Mainn.yagpt_used st
     | _ =>
         r.1 = (Mainn.JStr t, Mainn.JStr d)
         /\ Mainn.yagpt_errors r.2 = Mainn.yagpt_errors st + 1
         /\ Mainn.yagpt_used r.2 = Mainn.yagpt_used st
     end.
Proof.
  intros Hc r. subst r. split.
  { apply since_app. unfold trace_of, mainn_traced.
    by rewrite MainnText.select_text_trace, Hc. }
  unfold Mainn.select_text, Mainn.enhance_with_yagpt. rewrite Hc. simpl.
  destruct (Mainn.w_gpt w (Mainn.now_of st) t (Mainn.clip_input d)) as [| | text]; try done.
  intros Hu. by rewrite (MainnText.read_answer_unreadable w t _ text Hu).
Qed.

Lemma enhancer_failure_keeps_original_witness :
  Mainn.yagpt_enabled DemoN.config_gpt = true
  /\ since DemoN.cold
       (Mainn.select_text (DemoN.calm (fun _ => None) None true) DemoN.config_gpt
          "An original headline" "An original body" DemoN.cold).2
     = [Mainn.EvGpt "An original headline" "An original body"].
Proof.
  split; [reflexivity |].
  exact (proj1 (enhancer_failure_keeps_original
                  (DemoN.calm (fun _ => None) None true) DemoN.config_gpt
                  "An original headline" "An original body" DemoN.cold eq_refl)).
Defined.



(** The enhancer answers with a description that is a list of 31 items:
    the list passes the test of the lengths and is the description of the
    post, whatever the length of its items. *)
Example description_may_be_a_list :
  exists m ip st',
    Mainn.format_message (DemoN.gpt_world DemoN.list_payload) DemoN.config_gpt
      (DemoN.entry_n "http://n/a") DemoN.cold = (Some (m, ip), st')
    /\ Mainn.msg_description m = Mainn.JArr (repeat (Mainn.JStr DemoN.long_description) 31).
Proof. do 3 eexists. split; by vm_compute. Qed.

(** X12.  The description of a post: whenever [format_message] makes a
    post, a description that is a text has at most 503 characters (500 and
    the three dots); with the enhancer switched off the description is
    always such a text; and a description that is no text is a value the
    enhancer gave in place of the description, of a length (a number of
    items, not of characters) above 30 and at most 500. *)
Theorem description_is_bounded w c e st m ip st' :
  Mainn.format_message w c e st = (Some (m, ip), st') ->
  match Mainn.msg_description m with
  | Mainn.JStr s => (Py.len s <= 503)%nat
  | d => Mainn.yagpt_enabled c = true
         /\ exists n, Mainn.len d = Some n /\ (30 < n <= 500)%nat
  end.
Proof.
  intros Hf. destruct (format_message_text w c e st m ip st' Hf) as [_ Hs]. simpl in Hs.
  set (t := Mainn.clean w (default "No title"%string (Mainn.e_title e))) in *.
  set (d := Mainn.clean w (default ""%string (Mainn.e_description e))) in *.
  assert (Hsel : (Mainn.select_text w c t d st).1.2 = Mainn.JStr d
                 \/ (Mainn.yagpt_enabled c = true
                     /\ exists n, Mainn.len (Mainn.select_text w c t d st).1.2 = Some n
                                  /\ (30 < n)%nat)).
  { unfold Mainn.select_text. destruct (Mainn.yagpt_enabled c); simpl; [| by left].
    destruct (Mainn.enhance_with_yagpt w c t d st) as [[[nt nd] |] st1]; simpl; [| by left].
    destruct (Mainn.validate nt nd) as [[|] |] eqn:Hv; simpl; try by left.
    right. split; [done |]. unfold Mainn.validate in Hv.
    destruct (Mainn.truthy nt); simpl in Hv; [| done].
    destruct (Mainn.len nt) as [a |]; [| done].
    destruct (10 <? a)%nat; simpl in Hv; [| done].
    destruct (Mainn.truthy nd); simpl in Hv; [| done].
    destruct (Mainn.len nd) as [b |]; [| done].
    exists b. split; [done |]. injection Hv as Hv.
    apply andb_true_iff in Hv as [Hv _]. apply andb_true_iff in Hv as [Hv _].
    by apply Nat.ltb_lt. }
  destruct (Mainn.msg_description m) as [| | | s | items | members] eqn:Hm.
  4: { apply (MainnText.shorten_bound _ _ _ Hs). done. }
  all: destruct Hsel as [Hsel | (Hc & n & Hn & H30)];
    [rewrite Hsel in Hs; by destruct (MainnText.shorten_text d) as [s' Hs'];
     rewrite Hs' in Hs |].
  all: split; [done |]; exists n; unfold Mainn.shorten in Hs; rewrite Hn in Hs;
    destruct (Nat.ltb_spec 500 n) as [Hlt | Hle];
    [by destruct (Mainn.select_text w c t d st).1.2 |];
    injection Hs as Hs; rewrite <- Hs; split; [done | lia].
Qed.

Lemma description_is_bounded_witness :
  exists m ip st',
    Mainn.format_message DemoN.w_a DemoN.config
      {| Mainn.e_title := Some "t"; Mainn.e_description := Some DemoN.long_description;
         Mainn.e_link := Some "l" |} DemoN.cold = (Some (m, ip), st')
    /\ match Mainn.msg_description m with
       | Mainn.JStr s => (Py.len s <= 503)%nat
       | d => Mainn.yagpt_enabled DemoN.config = true
              /\ exists n, Mainn.len d = Some n /\ (30 < n <= 500)%nat
       end.
Proof.
  eexists _, _, _.
  assert (H1 : Mainn.format_message DemoN.w_a DemoN.config
      {| Mainn.e_title := Some "t"; Mainn.e_description := Some DemoN.long_description;
         Mainn.e_link := Some "l" |} DemoN.cold
      = (Some ({| Mainn.msg_title := Mainn.JStr "t";
                  Mainn.msg_description :=
                    Mainn.JStr (Py.take_str 500 DemoN.long_description ++ "...")%string;
                  Mainn.msg_link := "l" |}, None),
         Mainn.emit (Mainn.EvImage (Mainn.JStr "t")) DemoN.cold)) by (by vm_compute).
  split; [exact H1 |].
  exact (description_is_bounded _ _ _ _ _ _ _ H1).
Defined.

(** ** src/info_sender/mainn.py: the place of the text *)

(** X13.  The text is placed inside the image: without an offset, a text
    that is not wider than the image lies within the width of the image for
    every horizontal position ("left", "right", and centred for anything
    else), and when it is centred the space on its left is the space on its
    right or one less; the same holds for the height. *)
Theorem text_is_placed_inside image text position :
  0 <= text -> text <= image ->
  (0 <= Mainn.calculate_x_position image text position 0
   /\ Mainn.calculate_x_position image text position 0 + text <= image)
  /\ (0 <= Mainn.calculate_y_position image text position 0
      /\ Mainn.calculate_y_position image text position 0 + text <= image)
  /\ (position <> "left"%string -> position <> "right"%string ->
      let x := Mainn.calculate_x_position image text position 0 in
      x <= image - (x + text) <= x + 1)
  /\ (position <> "top"%string -> position <> "bottom"%string ->
      let y := Mainn.calculate_y_position image text position 0 in
      y <= image - (y + text) <= y + 1).
Proof.
  intros H0 H1. unfold Mainn.calculate_x_position, Mainn.calculate_y_position.
  split; [| split; [| split]].
  - destruct (String.eqb position "left"); [lia |].
    destruct (String.eqb position "right"); [lia |]. Z.div_mod_to_equations. lia.
  - destruct (String.eqb position "top"); [lia |].
    destruct (String.eqb position "bottom"); [lia |]. Z.div_mod_to_equations. lia.
  - intros Hl Hr. apply String.eqb_neq in Hl, Hr. rewrite Hl, Hr. simpl.
    Z.div_mod_to_equations. lia.
  - intros Hl Hr. apply String.eqb_neq in Hl, Hr. rewrite Hl, Hr. simpl.
    Z.div_mod_to_equations. lia.
Qed.

Lemma text_is_placed_inside_witness :
  0 <= 501 /\ 501 <= 1200
  /\ 0 <= Mainn.calculate_x_position 1200 501 "center" 0
  /\ Mainn.calculate_x_position 1200 501 "center" 0 + 501 <= 1200.
Proof.
  assert (H0 : 0 <= 501) by lia. assert (H1 : 501 <= 1200) by lia.
  split; [exact H0 |]. split; [exact H1 |].
  exact (proj1 (text_is_placed_inside 1200 501 "center" H0 H1)).
Defined.

(** ** The controllers *)

(** X14.  The controller of mainn.py: a restart always ends with a running
    controller whose stop event is clear and whose counters are all zero,
    [start] answers true in it whatever the state before (the error reply of
    the restart command is never given), and the store of sent links and the
    image files are what they were; a start of a running controller and a
    stop of a stopped one answer false and change nothing. *)
Theorem controller_restart (k : Mainn.control) :
  ((Mainn.restart k).1 = true
   /\ Mainn.is_running (Mainn.restart k).2 = true
   /\ Mainn.stop_event (Mainn.restart k).2 = false
   /\ Mainn.posts_sent (Mainn.globals (Mainn.restart k).2) = 0
   /\ Mainn.errors (Mainn.globals (Mainn.restart k).2) = 0
   /\ Mainn.yagpt_used (Mainn.globals (Mainn.restart k).2) = 0
   /\ Mainn.yagpt_errors (Mainn.globals (Mainn.restart k).2) = 0
   /\ Mainn.images_generated (Mainn.globals (Mainn.restart k).2) = 0
   /\ Mainn.sent_entries (Mainn.globals (Mainn.restart k).2)
      = Mainn.sent_entries (Mainn.globals k)
   /\ Mainn.files (Mainn.globals (Mainn.restart k).2) = Mainn.files (Mainn.globals k))
  /\ Mainn.start (Mainn.start k).2 = (false, (Mainn.start k).2)
  /\ Mainn.stop (Mainn.stop k).2 = (false, (Mainn.stop k).2).
Proof.
  unfold Mainn.restart, Mainn.start, Mainn.stop.
  destruct k as [[] se g]; simpl; repeat split; done.
Qed.

(** X15.  The commands of main.py: a restart always ends with the flag
    up and the counters at zero, and keeps the store; it writes the history
    when the bot was running and leaves the file alone when it was not; a
    pause lowers the flag without writing the history and without any call
    to the outside. *)
Theorem commands_of_main w (k : Main.control) :
  (forall t, Main.w_file w t = true) ->
  (Main.is_running (Main.restart_bot w k) = true
   /\ Main.posts_sent (Main.globals (Main.restart_bot w k)) = 0
   /\ Main.errors (Main.globals (Main.restart_bot w k)) = 0
   /\ Main.last_check (Main.globals (Main.restart_bot w k)) = None
   /\ Main.sent_news (Main.globals (Main.restart_bot w k)) = Main.sent_news (Main.globals k)
   /\ Main.disk (Main.globals (Main.restart_bot w k))
      = if Main.is_running k
        then Some (Main.history_text w (Main.sent_news (Main.globals k)))
        else Main.disk (Main.globals k))
  /\ (Main.is_running (Main.pause_bot k) = false
      /\ Main.globals (Main.pause_bot k) = Main.globals k).
Proof.
  intros Hf. unfold Main.restart_bot, Main.stop_bot, Main.start_bot, Main.pause_bot.
  destruct k as [[] g]; simpl.
  - unfold Main.save_history. rewrite Hf. simpl. repeat split; done.
  - repeat split; done.
Qed.

Lemma commands_of_main_witness :
  (forall t, Main.w_file Demo.w_c t = true)
  /\ Main.is_running
       (Main.restart_bot Demo.w_c {| Main.is_running := true; Main.globals := Demo.st_ab |})
     = true.
Proof.
  assert (Hf : forall t, Main.w_file Demo.w_c t = true) by (intros t; reflexivity).
  split; [exact Hf |].
  exact (proj1 (proj1 (commands_of_main Demo.w_c
                         {| Main.is_running := true; Main.globals := Demo.st_ab |} Hf))).
Defined.

(** ** src/main.py: the start of the module *)

Lemma split_on_nonempty c s : Main.split_on c s <> [].
Proof.
  destruct s as [| a r]; simpl; [done |].
  destruct (Ascii.eqb a c); [done |]. by destruct (Main.split_on c r).
Qed.

Lemma blank_urls_give_nothing w urls acc st :
  Forall (fun u => MainFacts.nonblank u = false) urls ->
  Main.get_news_loop w urls acc st = (acc, st).
Proof.
  induction 1 as [| u r Hu _ IH]; simpl; [done |].
  unfold MainFacts.nonblank in Hu. by rewrite Hu.
Qed.

(** X16.  The check of the required settings cannot see that RSS_URLS is
    missing: the split of a string is never the empty list, so the module
    raises exactly when BOT_TOKEN, CHANNEL_ID or ADMIN_ID is not set or
    empty; and with RSS_URLS not set or empty the list of sources is the one
    empty url, for which [get_news] asks no source and returns no item. *)
Theorem startup_check_misses_sources env :
  Main.startup_raises env
  = (Main.unset env "BOT_TOKEN" || Main.unset env "CHANNEL_ID" || Main.unset env "ADMIN_ID")
  /\ (Main.unset env "RSS_URLS" = true ->
      Main.RSS_URLS env = [""%string]
      /\ forall w st,
          (Main.get_news w (Main.RSS_URLS env) st).1 = []
          /\ since st (Main.get_news w (Main.RSS_URLS env) st).2 = []).
Proof.
  split.
  - unfold Main.startup_raises, Main.RSS_URLS.
    pose proof (split_on_nonempty "," (Py.getenv env "RSS_URLS" "")) as H.
    destruct (Main.split_on "," (Py.getenv env "RSS_URLS" "")); [done |].
    by rewrite orb_false_r.
  - intros Hu.
    assert (E : Main.RSS_URLS env = [""%string]).
    { unfold Main.RSS_URLS, Py.getenv, Main.unset in *.
      destruct (env "RSS_URLS") as [v |]; [| done]. by destruct v. }
    split; [exact E |]. intros w st. rewrite E. unfold Main.get_news.
    rewrite blank_urls_give_nothing by (by repeat constructor). simpl.
    split; [done |]. apply since_app. unfold trace_of, main_traced. simpl.
    by rewrite app_nil_r.
Qed.

Lemma startup_check_misses_sources_witness :
  Main.unset (fun name => if String.eqb name "RSS_URLS" then None else Some "x"%string)
    "RSS_URLS" = true
  /\ Main.startup_raises
       (fun name => if String.eqb name "RSS_URLS" then None else Some "x"%string) = false
  /\ Main.RSS_URLS (fun name => if String.eqb name "RSS_URLS" then None else Some "x"%string)
     = [""%string].
Proof.
  split; [reflexivity |]. split; [reflexivity |].
  exact (proj1 (proj2 (startup_check_misses_sources
    (fun name => if String.eqb name "RSS_URLS" then None else Some "x"%string)) eq_refl)).
Defined.

(** ** src/info_sender/mainn.py: reading the environment *)

(** X17.  A boolean setting has to be set: [get_env_var] with the type
    bool calls [lower] on what [os.getenv] gave, so when the variable is not
    set and the default is a boolean (as for DISABLE_YAGPT and DEBUG_GRID)
    the call ends in an exception that nothing catches, instead of giving
    the default; when the variable is set, the setting is true exactly for
    the words true, 1, yes and y in any case of letters. *)
Theorem boolean_setting_must_be_set (F : Type) (to_float : Mainn.pyval F -> Mainn.conv F)
    (float_to_int : F -> Mainn.conv Z) (env : string -> option string) :
  (forall name b required,
      env name = None ->
      Mainn.get_env_var F to_float float_to_int env name (Mainn.VBool b) required Mainn.TBool
      = Mainn.Raises)
  /\ (env "DISABLE_YAGPT"%string = None ->
      Mainn.DISABLE_YAGPT F to_float float_to_int env = Mainn.Raises)
  /\ (env "DEBUG_GRID"%string = None ->
      Mainn.DEBUG_GRID F to_float float_to_int env = Mainn.Raises)
  /\ (forall name default required s,
      env name = Some s ->
      Mainn.get_env_var F to_float float_to_int env name default required Mainn.TBool
      = Mainn.Returns (Mainn.VBool (bool_decide (Main.lower s ∈ Mainn.truthy_words)))).
Proof.
  split; [| split; [| split]].
  - intros name b required He. unfold Mainn.get_env_var. by rewrite He.
  - intros He. unfold Mainn.DISABLE_YAGPT, Mainn.get_env_var. by rewrite He.
  - intros He. unfold Mainn.DEBUG_GRID, Mainn.get_env_var. by rewrite He.
  - intros name default required s He. unfold Mainn.get_env_var. rewrite He.
    do 2 f_equal. unfold Mainn.truthy_words. simpl.
    destruct (String.eqb_spec (Main.lower s) "true") as [-> | H1]; [done |].
    destruct (String.eqb_spec (Main.lower s) "1") as [-> | H2]; [done |].
    destruct (String.eqb_spec (Main.lower s) "yes") as [-> | H3]; [done |].
    destruct (String.eqb_spec (Main.lower s) "y") as [-> | H4]; [done |].
    simpl. symmetry. apply bool_decide_eq_false.
    rewrite !elem_of_cons, elem_of_nil. tauto.
Qed.

(** An environment in which nothing is set, and one in which only
    OWNER_ID is set, to a word. *)
Definition env_nothing : string -> option string := fun _ => None.

Definition env_owner_word : string -> option string :=
  fun name => if String.eqb name "OWNER_ID" then Some "me"%string else None.

Lemma boolean_setting_must_be_set_witness :
  env_nothing "DISABLE_YAGPT"%string = None
  /\ Mainn.DISABLE_YAGPT unit (fun _ => Mainn.Caught) (fun _ => Mainn.Caught) env_nothing
     = Mainn.Raises.
Proof.
  split; [reflexivity |].
  exact (proj1 (proj2 (boolean_setting_must_be_set unit (fun _ => Mainn.Caught)
                         (fun _ => Mainn.Caught) env_nothing)) eq_refl).
Defined.

(** X18.  A number that cannot be read falls back on its own default, and
    only on that: for a variable of type int that is set to a string [int]
    rejects, [get_env_var] gives the default of that variable, whatever the
    other variables hold and also when the variable is required; so a
    CHECK_INTERVAL that is no number gives 300, and an OWNER_ID that is no
    number does not stop the program but leaves it with no owner.  The
    program exits only for a required variable that is not set. *)
Theorem number_falls_back_on_default (F : Type) (to_float : Mainn.pyval F -> Mainn.conv F)
    (float_to_int : F -> Mainn.conv Z) (env : string -> option string) :
  (forall name default required s,
      env name = Some s ->
      Mainn.get_env_var F to_float float_to_int env name default required Mainn.TInt
      = Mainn.Returns (match Py.int s with Some z => Mainn.VInt z | None => default end))
  /\ (forall s, env "CHECK_INTERVAL"%string = Some s -> Py.int s = None ->
      Mainn.CHECK_INTERVAL_setting F to_float float_to_int env
      = Mainn.Returns (Mainn.VInt 300))
  /\ (forall s, env "OWNER_ID"%string = Some s -> Py.int s = None ->
      Mainn.OWNER_ID F to_float float_to_int env = Mainn.Returns Mainn.VNone)
  /\ (forall name default ty,
      Mainn.get_env_var F to_float float_to_int env name default true ty = Mainn.Exits
      <-> env name = None /\ default = Mainn.VNone).
Proof.
  split; [| split; [| split]].
  - intros name default required s He. unfold Mainn.get_env_var. rewrite He. simpl.
    by destruct (Py.int s).
  - intros s He Hs. unfold Mainn.CHECK_INTERVAL_setting, Mainn.get_env_var.
    rewrite He. simpl. by rewrite Hs.
  - intros s He Hs. unfold Mainn.OWNER_ID, Mainn.get_env_var.
    rewrite He. simpl. by rewrite Hs.
  - intros name default ty. unfold Mainn.get_env_var. split.
    + destruct (env name) as [s |].
      * destruct ty; simpl; try done.
        -- by destruct (Py.int s).
        -- by destruct (Mainn.ints (Main.split_on "," s)).
        -- by destruct (to_float (Mainn.VStr s)).
      * destruct default; try done; destruct ty; simpl; try done;
          repeat case_match; done.
    + intros [-> ->]. done.
Qed.

Lemma number_falls_back_on_default_witness :
  env_owner_word "OWNER_ID"%string = Some "me"%string
  /\ Py.int "me" = None
  /\ Mainn.OWNER_ID unit (fun _ => Mainn.Caught) (fun _ => Mainn.Caught) env_owner_word
     = Mainn.Returns Mainn.VNone.
Proof.
  split; [reflexivity |]. split; [reflexivity |].
  exact (proj1 (proj2 (proj2 (number_falls_back_on_default unit (fun _ => Mainn.Caught)
    (fun _ => Mainn.Caught) env_owner_word))) "me"%string eq_refl eq_refl).
Defined.

(** ** The command handlers *)

Module Handlers.

(** Every reply was sent with the keyboard of the controls the handler
    left behind. *)
Definition keyboards_fit_n (r : Mainn.control * list Mainn.reply) : Prop :=
  Forall (fun x => Mainn.keyboard_running x = Mainn.is_running r.1) r.2.

Definition keyboards_fit (r : Main.control * list Main.reply) : Prop :=
  Forall (fun x => Main.keyboard_running x = Main.is_running r.1) r.2.

Lemma fit_one_n t k : keyboards_fit_n (k, Mainn.reply_to t k).
Proof. by repeat constructor. Qed.

Lemma fit_none_n k : keyboards_fit_n (k, []).
Proof. constructor. Qed.

Lemma fit_one t k : keyboards_fit (k, Main.reply_to t k).
Proof. by repeat constructor. Qed.

Lemma fit_none k : keyboards_fit (k, []).
Proof. constructor. Qed.

Lemma start_command_fit_n owner m k : keyboards_fit_n (Mainn.start_command owner m k).
Proof.
  unfold Mainn.start_command. case_match; [apply fit_none_n |].
  destruct (Mainn.start k) as [ok k']. apply fit_one_n.
Qed.

Lemma stop_command_fit_n owner m k : keyboards_fit_n (Mainn.stop_command owner m k).
Proof.
  unfold Mainn.stop_command. case_match; [apply fit_none_n |].
  destruct (Mainn.stop k) as [ok k']. apply fit_one_n.
Qed.

Lemma restart_command_fit_n owner m k : keyboards_fit_n (Mainn.restart_command owner m k).
Proof.
  unfold Mainn.restart_command. case_match; [apply fit_none_n |].
  destruct (Mainn.restart k) as [ok k']. apply fit_one_n.
Qed.

Lemma plain_fit_n t owner m k :
  keyboards_fit_n (if negb (Mainn.authorized owner m) then (k, [])
                   else (k, Mainn.reply_to t k)).
Proof. case_match; [apply fit_none_n | apply fit_one_n]. Qed.

Lemma handle_text_fit_n owner m k : keyboards_fit_n (Mainn.handle_text_messages owner m k).
Proof.
  unfold Mainn.handle_text_messages. case_match; [apply fit_none_n |].
  destruct (Mainn.text m) as [t |]; [| apply fit_none_n].
  repeat case_match;
    first [ apply start_command_fit_n | apply stop_command_fit_n
          | apply restart_command_fit_n | apply fit_one_n | apply plain_fit_n ].
Qed.

Lemma plain_fit t admin m k :
  keyboards_fit (if negb (Main.authorized admin m) then (k, [])
                 else (k, Main.reply_to t k)).
Proof. case_match; [apply fit_none | apply fit_one]. Qed.

Lemma start_command_fit w admin m k : keyboards_fit (Main.start_command w admin m k).
Proof. unfold Main.start_command. case_match; [apply fit_none | apply fit_one]. Qed.

Lemma pause_command_fit w admin m k : keyboards_fit (Main.pause_command w admin m k).
Proof. unfold Main.pause_command. case_match; [apply fit_none | apply fit_one]. Qed.

Lemma stop_command_fit w admin m k : keyboards_fit (Main.stop_command w admin m k).
Proof. unfold Main.stop_command. case_match; [apply fit_none | apply fit_one]. Qed.

Lemma restart_command_fit w admin m k : keyboards_fit (Main.restart_command w admin m k).
Proof. unfold Main.restart_command. case_match; [apply fit_none | apply fit_one]. Qed.

Lemma handle_text_fit w admin m k : keyboards_fit (Main.handle_text_messages w admin m k).
Proof.
  unfold Main.handle_text_messages. case_match; [apply fit_one |].
  repeat case_match;
    first [ apply start_command_fit | apply pause_command_fit | apply stop_command_fit
          | apply restart_command_fit | apply fit_one
          | apply (plain_fit Main.TSources) | apply (plain_fit Main.TWelcome) ].
Qed.

End Handlers.

(** X19.  The commands of mainn.py obey the owner only: a message without
    a user, or from a user who is not OWNER_ID, or any message when OWNER_ID
    is no integer, is passed over by every handler without a reply and
    without a change of the controller; a restart never gives the error
    reply; and every reply carries the keyboard of the state the handler
    left behind. *)
Theorem only_the_owner_commands owner m k :
  (Mainn.authorized owner m = false ->
   Forall (fun h : Mainn.handler => h owner m k = (k, [])) Mainn.control_handlers)
  /\ (Mainn.authorized owner m = true <->
      exists id, Mainn.from_user m = Some id /\ owner = Some id)
  /\ Forall (fun x => Mainn.said x <> Mainn.TRestartError)
       (Mainn.restart_command owner m k).2
  /\ Forall (fun h : Mainn.handler => Handlers.keyboards_fit_n (h owner m k))
       Mainn.control_handlers.
Proof.
  split; [| split; [| split]].
  - intros Ha. unfold Mainn.control_handlers.
    repeat constructor;
      unfold Mainn.send_welcome, Mainn.send_status, Mainn.send_stats, Mainn.start_command,
        Mainn.stop_command, Mainn.restart_command, Mainn.sources_command,
        Mainn.handle_text_messages; by rewrite Ha.
  - unfold Mainn.authorized. destruct (Mainn.from_user m) as [id |], owner as [o |].
    + rewrite Z.eqb_eq. split; [intros ->; by exists o | by intros (x & [= ->] & [= ->])].
    + split; [done | by intros (x & _ & ?)].
    + split; [done | by intros (x & ? & _)].
    + split; [done | by intros (x & ? & _)].
  - unfold Mainn.restart_command. case_match; [constructor |].
    unfold Mainn.restart, Mainn.start, Mainn.stop.
    destruct k as [[] se g]; simpl; by repeat constructor.
  - unfold Mainn.control_handlers. repeat constructor.
    + apply Handlers.plain_fit_n.
    + apply Handlers.plain_fit_n.
    + apply Handlers.plain_fit_n.
    + apply Handlers.start_command_fit_n.
    + apply Handlers.stop_command_fit_n.
    + apply Handlers.restart_command_fit_n.
    + apply Handlers.plain_fit_n.
    + apply Handlers.handle_text_fit_n.
Qed.

Definition stranger : Mainn.chat_message :=
  {| Mainn.from_user := Some 7; Mainn.text := Some "/stop"%string |}.

Lemma only_the_owner_commands_witness :
  Mainn.authorized (Some 42) stranger = false
  /\ Mainn.stop_command (Some 42) stranger (Mainn.start (Mainn.boot DemoN.cold)).2
     = ((Mainn.start (Mainn.boot DemoN.cold)).2, []).
Proof.
  split; [reflexivity |].
  pose proof (proj1 (only_the_owner_commands (Some 42) stranger
                       (Mainn.start (Mainn.boot DemoN.cold)).2) eq_refl) as H.
  exact (proj1 (Forall_lookup _ _) H 4%nat Mainn.stop_command eq_refl).
Defined.

(** X20.  The commands of main.py obey the admin only: a message from
    anyone whose id is not ADMIN_ID is passed over by every command handler
    without a reply, and answered by the handler of the buttons with the
    denial only; in both cases the controls stay as they are.  The handlers
    for the welcome, the status, the statistics and the sources never change
    the controls, and every reply carries the keyboard of the state the
    handler left behind. *)
Theorem only_the_admin_commands w admin m k :
  (Main.sender m <> admin ->
   Forall (fun h : Main.handler => h w admin m k = (k, [])) Main.command_handlers
   /\ Main.handle_text_messages w admin m k = (k, Main.reply_to Main.TDenied k))
  /\ ((Main.send_welcome w admin m k).1 = k /\ (Main.send_status w admin m k).1 = k
      /\ (Main.send_stats w admin m k).1 = k /\ (Main.sources_command w admin m k).1 = k)
  /\ Forall (fun h : Main.handler => Handlers.keyboards_fit (h w admin m k))
       (Main.handle_text_messages :: Main.command_handlers).
Proof.
  split; [| split].
  - intros Hs. assert (Ha : Main.authorized admin m = false).
    { unfold Main.authorized. by apply String.eqb_neq. }
    split.
    + unfold Main.command_handlers.
      repeat constructor;
        unfold Main.send_welcome, Main.send_status, Main.send_stats, Main.start_command,
          Main.pause_command, Main.stop_command, Main.restart_command,
          Main.sources_command; by rewrite Ha.
    + unfold Main.handle_text_messages. by rewrite Ha.
  - unfold Main.send_welcome, Main.send_status, Main.send_stats, Main.sources_command.
    by destruct (negb (Main.authorized admin m)).
  - unfold Main.command_handlers. repeat constructor.
    + apply Handlers.handle_text_fit.
    + apply (Handlers.plain_fit Main.TWelcome).
    + apply (Handlers.plain_fit Main.TStatus).
    + apply (Handlers.plain_fit Main.TCombined).
    + apply Handlers.start_command_fit.
    + apply Handlers.pause_command_fit.
    + apply Handlers.stop_command_fit.
    + apply Handlers.restart_command_fit.
    + apply (Handlers.plain_fit Main.TSources).
Qed.

Definition passer_by : Main.chat_message :=
  {| Main.sender := "7"; Main.text := "🛑 Остановить" |}.

Lemma only_the_admin_commands_witness :
  Main.sender passer_by <> "42"%string
  /\ Main.handle_text_messages Demo.w_c "42" passer_by
       {| Main.is_running := true; Main.globals := Demo.st_ab |}
     = ({| Main.is_running := true; Main.globals := Demo.st_ab |},
        Main.reply_to Main.TDenied {| Main.is_running := true; Main.globals := Demo.st_ab |}).
Proof.
  assert (H : Main.sender passer_by <> "42"%string) by discriminate.
  split; [exact H |].
  exact (proj2 (proj1 (only_the_admin_commands Demo.w_c "42" passer_by
                         {| Main.is_running := true; Main.globals := Demo.st_ab |}) H)).
Defined.

(** ** src/info_sender/mainn.py: the lines of the title *)

Module MainnWrap.
Import Mainn.

(** The characters of a string. *)
Definition chars := list_ascii_of_string.

Lemma len_take_exact (k : nat) (s : string) :
  Py.len (String.substring 0 k s) = Nat.min k (Py.len s).
Proof.
  unfold Py.len. revert k. induction s as [| c s IH]; intros k.
  - by destruct k.
  - destruct k as [| k]; simpl; [done |]. by rewrite IH.
Qed.

Lemma slice_to_take {A} (m : Z) (l : list A) :
  0 <= m -> slice_to m l = take (Z.to_nat (Z.min m (Z.of_nat (length l)))) l.
Proof. intros Hm. unfold slice_to. by destruct (Z.ltb_spec m 0) as [? | _]; [lia |]. Qed.

Lemma limit_lines_cut (m : Z) (lines : list string) (l : string) :
  1 <= m -> m < Z.of_nat (length lines) ->
  lines !! (Z.to_nat m - 1)%nat = Some l ->
  limit_lines m lines
  = Some (take (Z.to_nat m - 1) lines
          ++ [if (15 <? Py.len l)%nat then (drop_last3 l ++ "...")%string else l]).
Proof.
  intros H1 Hlt Hl. unfold limit_lines.
  destruct (Z.ltb_spec m (Z.of_nat (length lines))) as [_ | ?]; [| lia].
  rewrite slice_to_take by lia. rewrite Z.min_l by lia.
  set (k := Z.to_nat m).
  assert (Hk : (1 <= k <= length lines)%nat) by lia.
  assert (Hlen : length (take k lines) = k) by (rewrite length_take; lia).
  assert (Hlast : last (take k lines) = Some l).
  { rewrite last_lookup, Hlen, lookup_take_lt by lia.
    replace (Nat.pred k) with (k - 1)%nat by lia. done. }
  rewrite Hlast.
  assert (Hrem : removelast (take k lines) = take (k - 1) lines).
  { rewrite removelast_firstn_len, Hlen.
    replace (Nat.pred k) with (k - 1)%nat by lia.
    change (take (k - 1) (take k lines) = take (k - 1) lines).
    rewrite take_take. f_equal. lia. }
  destruct (15 <? Py.len l)%nat.
  - by rewrite Hrem.
  - f_equal. rewrite <- Hrem.
    destruct (take k lines) as [| x xs] eqn:E using rev_ind; [done |].
    rewrite last_snoc in Hlast. injection Hlast as ->.
    by rewrite removelast_last.
Qed.


Lemma chars_app (a b : string) : chars (a ++ b)%string = chars a ++ chars b.
Proof. unfold chars. induction a as [| c a IH]; simpl; [done | by rewrite IH]. Qed.

Lemma str_app_cons (c : ascii) (a b : string) :
  (String c a ++ b)%string = String c (a ++ b).
Proof. reflexivity. Qed.

Lemma str_app_assoc (a b c : string) : ((a ++ b) ++ c = a ++ (b ++ c))%string.
Proof. induction a as [| x a IH]; [done | rewrite !str_app_cons; by f_equal]. Qed.

Lemma str_app_nil_r (a : string) : (a ++ "")%string = a.
Proof. induction a as [| x a IH]; [done | rewrite !str_app_cons; by f_equal]. Qed.

(** A text that starts and ends with a character that is no white space. *)
Definition tight (s : list ascii) : Prop :=
  (exists a r, s = a :: r /\ Py.is_space a = false)
  /\ (exists r b, s = r ++ [b] /\ Py.is_space b = false).

Lemma tight_app (s x t : list ascii) : tight s -> tight t -> tight (s ++ x ++ t).
Proof.
  intros [(a & r & -> & Ha) _] [_ (r' & b & -> & Hb)]. split.
  - by exists a, (r ++ x ++ r' ++ [b]).
  - exists ((a :: r) ++ x ++ r'), b. split; [| done]. by rewrite <- !app_assoc.
Qed.

Lemma lstrip_tight (s : list ascii) : tight s -> Py.lstrip s = s.
Proof. intros [(a & r & -> & Ha) _]. simpl. by rewrite Ha. Qed.

Lemma strip_chars_tight (s : list ascii) (sp : ascii) :
  tight s -> Py.is_space sp = true -> Py.strip_chars (s ++ [sp]) = s.
Proof.
  intros Ht Hsp. unfold Py.strip_chars.
  assert (H1 : Py.lstrip (s ++ [sp]) = s ++ [sp]).
  { destruct Ht as [(a & r & -> & Ha) _]. simpl. by rewrite Ha. }
  rewrite H1, rev_app_distr. simpl. rewrite Hsp.
  destruct Ht as [_ (r & b & -> & Hb)].
  rewrite rev_app_distr. simpl. rewrite Hb.
  change (b :: rev r) with (rev [b] ++ rev r). by rewrite <- rev_app_distr, rev_involutive.
Qed.

(** What [split] gives: words without white space. *)
Definition is_word (w : string) : Prop :=
  w <> "" /\ Forall (fun c => Py.is_space c = false) (chars w).

Lemma is_word_tight (w : string) : is_word w -> tight (chars w).
Proof.
  intros [Hne Hall]. destruct w as [| a w]; [done |]. simpl in *. split.
  - exists a, (chars w). split; [done |]. by inversion Hall.
  - destruct (chars w) as [| x xs] eqn:E using rev_ind.
    + exists [], a. split; [done |]. by inversion Hall.
    + exists (a :: xs), x. split; [done |].
      inversion Hall as [| ? ? _ Hr]; subst.
      apply Forall_app in Hr as [_ Hx]. by inversion Hx.
Qed.

Lemma split_loop_words (s word : list ascii) :
  Forall (fun c => Py.is_space c = false) word ->
  Forall is_word (Py.split_loop s word).
Proof.
  revert word. induction s as [| c r IH]; intros word Hw; simpl.
  - destruct word as [| a word]; [constructor |].
    constructor; [| constructor]. split; [done |].
    by rewrite list_ascii_of_string_of_list_ascii.
  - destruct (Py.is_space c) eqn:Hc.
    + destruct word as [| a word]; [apply IH; constructor |].
      constructor; [| apply IH; constructor]. split; [done |].
      by rewrite list_ascii_of_string_of_list_ascii.
    + apply IH. apply Forall_app. split; [done |]. by constructor.
Qed.

Lemma split_words (s : string) : Forall is_word (Py.split s).
Proof. apply split_loop_words. constructor. Qed.

(** [" ".join(g)] *)
Definition line_of (g : list string) : string := String.concat " " g.

(** The words of a line that is being filled: a blank after every word. *)
Fixpoint spaced (g : list string) : string :=
  match g with
  | [] => ""
  | w :: r => (w ++ " " ++ spaced r)%string
  end.

Lemma spaced_snoc (g : list string) (w : string) :
  spaced (g ++ [w]) = ((spaced g ++ w) ++ " ")%string.
Proof.
  induction g as [| x g IH]; [reflexivity |].
  change (spaced ((x :: g) ++ [w])) with (x ++ " " ++ spaced (g ++ [w]))%string.
  change (spaced (x :: g)) with (x ++ " " ++ spaced g)%string.
  rewrite IH. by rewrite !str_app_assoc.
Qed.

Lemma spaced_line (g : list string) :
  g <> [] -> spaced g = (line_of g ++ " ")%string.
Proof.
  induction g as [| x g IH]; [done |]. intros _.
  destruct g as [| y g].
  - reflexivity.
  - change (line_of (x :: y :: g)) with (x ++ " " ++ line_of (y :: g))%string.
    change (spaced (x :: y :: g)) with (x ++ " " ++ spaced (y :: g))%string.
    rewrite IH by done. by rewrite !str_app_assoc.
Qed.

Lemma tight_line (g : list string) :
  g <> [] -> Forall is_word g -> tight (chars (line_of g)).
Proof.
  induction g as [| x g IH]; [done |]. intros _ Hg.
  inversion Hg as [| ? ? Hx Hr]; subst.
  destruct g as [| y g].
  - by apply is_word_tight.
  - change (line_of (x :: y :: g)) with (x ++ " " ++ line_of (y :: g))%string.
    rewrite !chars_app. apply tight_app; [by apply is_word_tight | by apply IH].
Qed.

Lemma strip_spaced (g : list string) :
  g <> [] -> Forall is_word g -> Py.strip (spaced g) = line_of g.
Proof.
  intros Hne Hg. rewrite spaced_line by done. unfold Py.strip.
  fold (chars (line_of g ++ " ")%string). rewrite chars_app.
  change (chars " ") with [" "%char].
  rewrite strip_chars_tight; [| by apply tight_line | done].
  apply string_of_list_ascii_of_string.
Qed.

Lemma truthy_spaced (g : list string) : g <> [] -> Py.truthy_str (spaced g) = true.
Proof. destruct g as [| [| c w] g]; done. Qed.

(** The words of the lines: [g] are the words of the line that is being
    filled, [gs] the words of the lines that are complete. *)
Definition close_group (g : list string) (gs : list (list string)) : list (list string) :=
  match g with
  | [] => gs
  | _ => gs ++ [g]
  end.

Fixpoint group_loop (width : string -> Z) (max_width : Z) (words g : list string)
    (gs : list (list string)) : list (list string) * list string :=
  match words with
  | [] => (gs, g)
  | w :: r =>
      if width (spaced (g ++ [w])) <=? max_width
      then group_loop width max_width r (g ++ [w]) gs
      else group_loop width max_width r [w] (close_group g gs)
  end.

Lemma close_line_spaced (g : list string) (gs : list (list string)) :
  Forall is_word g ->
  close_line (spaced g) (map line_of gs) = map line_of (close_group g gs).
Proof.
  intros Hg. unfold close_line, close_group.
  destruct g as [| x g]; [done |].
  rewrite truthy_spaced by done. rewrite strip_spaced by done.
  by rewrite map_app.
Qed.

Lemma wrap_loop_groups width mw (words g : list string) (gs : list (list string)) :
  Forall is_word words -> Forall is_word g ->
  wrap_loop width mw words (spaced g) (map line_of gs)
  = (map line_of (group_loop width mw words g gs).1,
     spaced (group_loop width mw words g gs).2).
Proof.
  revert g gs. induction words as [| w r IH]; intros g gs Hw Hg; [done |].
  inversion Hw as [| ? ? Hw1 Hr]; subst.
  cbn [wrap_loop group_loop]. rewrite <- spaced_snoc.
  destruct (width (spaced (g ++ [w])) <=? mw).
  - apply IH; [done |]. apply Forall_app. split; [done | by constructor].
  - rewrite close_line_spaced by done.
    change (w ++ " ")%string with (spaced [w]).
    apply IH; [done | by constructor].
Qed.

Section groups.
Variable width : string -> Z.
Variable mw : Z.

Definition fits (g : list string) : Prop :=
  (length g <= 1)%nat \/ width (spaced g) <= mw.

(** A line is closed only when the next word did not fit on it. *)
Definition chain (l : list (list string)) : Prop :=
  forall i a w r, l !! i = Some a -> l !! S i = Some (w :: r) ->
    mw < width (spaced (a ++ [w])).

Lemma chain_last (gs : list (list string)) (x : string) (g0 g1 : list string) :
  chain (gs ++ [x :: g0]) -> chain (gs ++ [x :: g1]).
Proof.
  intros Hc i a w r Ha Hw.
  destruct (decide (S i < length gs)%nat) as [Hlt | Hge].
  - rewrite lookup_app_l in Ha by lia. rewrite lookup_app_l in Hw by lia.
    apply (Hc i a w r); by rewrite lookup_app_l by lia.
  - destruct (decide (S i = length gs)) as [He | Hne].
    + rewrite lookup_app_l in Ha by lia.
      rewrite lookup_app_r in Hw by lia.
      replace (S i - length gs)%nat with 0%nat in Hw by lia.
      simpl in Hw. injection Hw as <- <-.
      apply (Hc i a x g0); [by rewrite lookup_app_l by lia |].
      rewrite lookup_app_r by lia.
      by replace (S i - length gs)%nat with 0%nat by lia.
    + apply lookup_lt_Some in Hw. rewrite length_app in Hw. simpl in Hw. lia.
Qed.

Lemma chain_snoc (l : list (list string)) (a : list string) (w : string) (r : list string) :
  chain (l ++ [a]) -> mw < width (spaced (a ++ [w])) ->
  chain ((l ++ [a]) ++ [w :: r]).
Proof.
  intros Hc Hw i b v s Hb Hv.
  destruct (decide (S i < length (l ++ [a]))%nat) as [Hlt | Hge].
  - rewrite lookup_app_l in Hb by lia. rewrite lookup_app_l in Hv by lia.
    by apply (Hc i b v s).
  - destruct (decide (S i = length (l ++ [a]))) as [He | Hne].
    + rewrite lookup_app_l in Hb by lia.
      rewrite lookup_app_r in Hv by lia.
      replace (S i - length (l ++ [a]))%nat with 0%nat in Hv by lia.
      simpl in Hv. injection Hv as <- <-.
      rewrite length_app in He. simpl in He.
      rewrite lookup_app_r in Hb by lia.
      replace (i - length l)%nat with 0%nat in Hb by lia.
      simpl in Hb. by injection Hb as <-.
    + apply lookup_lt_Some in Hv. rewrite length_app in Hv. simpl in Hv. lia.
Qed.

Lemma chain_single (g : list string) : chain [g].
Proof. intros i a w r _ Hw. by destruct i. Qed.

Lemma group_loop_spec (words g : list string) (gs gs' : list (list string)) (g' : list string) :
  group_loop width mw words g gs = (gs', g') ->
  (g = [] -> gs = []) ->
  Forall (fun g => g <> []) gs -> Forall fits gs -> fits g -> chain (gs ++ [g]) ->
  concat gs' ++ g' = concat gs ++ g ++ words
  /\ (g' = [] -> gs' = [] /\ words = [] /\ g = [])
  /\ Forall (fun g => g <> []) gs' /\ Forall fits gs' /\ fits g' /\ chain (gs' ++ [g']).
Proof.
  revert g gs. induction words as [| w r IH]; intros g gs E Hg Hne Hf Hfg Hc.
  - simpl in E. injection E as <- <-. rewrite app_nil_r. naive_solver.
  - simpl in E. destruct (Z.leb_spec (width (spaced (g ++ [w]))) mw) as [Hle | Hgt].
    + apply IH in E as (E1 & E2 & E3 & E4 & E5 & E6).
      * rewrite E1, <- app_assoc. split; [done |]. split; [| done].
        intros Hn. destruct (E2 Hn) as (_ & _ & ?). by destruct g.
      * by destruct g.
      * done.
      * done.
      * by right.
      * destruct g as [| x g]; [| by apply (chain_last gs x g)].
        rewrite (Hg eq_refl). apply chain_single.
    + apply IH in E as (E1 & E2 & E3 & E4 & E5 & E6).
      * split.
        { rewrite E1. unfold close_group. destruct g as [| x g].
          - by rewrite (Hg eq_refl).
          - rewrite concat_app. simpl. rewrite app_nil_r, <- !app_assoc. done. }
        split; [| done]. intros Hn. by destruct (E2 Hn) as (_ & _ & ?).
      * done.
      * unfold close_group. destruct g; [done |].
        apply Forall_app. split; [done |]. by constructor.
      * unfold close_group. destruct g; [done |].
        apply Forall_app. split; [done |]. by constructor.
      * left. simpl. lia.
      * unfold close_group. destruct g as [| x g].
        { rewrite (Hg eq_refl). apply chain_single. }
        by apply chain_snoc.
Qed.

End groups.

Lemma wrap_groups width mw (words : list string) :
  Forall is_word words ->
  exists groups,
    wrap width mw words = map (String.concat " ") groups
    /\ concat groups = words
    /\ Forall (fun g => g <> []) groups
    /\ Forall (fun g => (length g <= 1)%nat
                        \/ width (String.concat " " g ++ " ")%string <= mw) groups
    /\ (forall i g w r, groups !! i = Some g -> groups !! S i = Some (w :: r) ->
          mw < width (String.concat " " (g ++ [w]) ++ " ")%string).
Proof.
  intros Hw.
  destruct (group_loop width mw words [] []) as [gs g] eqn:E.
  pose proof (wrap_loop_groups width mw words [] [] Hw (Forall_nil_2 _)) as Hl.
  rewrite E in Hl. simpl in Hl.
  destruct (group_loop_spec width mw words [] [] gs g E) as (E1 & E2 & E3 & E4 & E5 & E6);
    [done | constructor | constructor | left; simpl; lia | apply chain_single |].
  assert (Hwords : Forall is_word g).
  { apply (Forall_forall is_word). intros x Hx.
    apply (proj1 (Forall_forall is_word words) Hw).
    simpl in E1. rewrite <- E1. apply elem_of_app. by right. }
  exists (close_group g gs). unfold wrap. rewrite Hl.
  split; [by apply close_line_spaced |].
  destruct g as [| x g]; simpl.
  - destruct (E2 eq_refl) as (-> & -> & _). split; [done |]. split; [constructor |].
    split; [constructor |]. intros i a w r Ha. by destruct i.
  - simpl in E1. split; [by rewrite concat_app; simpl; rewrite app_nil_r |].
    split; [apply Forall_app; split; [done | by constructor] |].
    split.
    + apply Forall_app. split.
      * apply (Forall_forall _ gs). intros a Ha.
        pose proof (proj1 (Forall_forall _ gs) E3 a Ha) as Hna.
        pose proof (proj1 (Forall_forall _ gs) E4 a Ha) as Hfa.
        fold (line_of a). rewrite <- spaced_line by done. exact Hfa.
      * constructor; [| constructor].
        fold (line_of (x :: g)). rewrite <- spaced_line by done. exact E5.
    + intros i a w r Ha Hb. fold (line_of (a ++ [w])).
      rewrite <- spaced_line by (by destruct a). by apply (E6 i a w r).
Qed.

(** Three lines of a title, the second one longer than 15 characters. *)
Definition long_lines : list string :=
  ["Scientists have found"; "a new kind of deep sea fish"; "near the coast"]%string.

End MainnWrap.

(** X21.  The title on the image has at most max_lines lines (mainn.py,
    lines 253-256), for a limit of one line or more: the lines are left as
    they are when they are no more than the limit; otherwise the first
    max_lines lines are kept, all but the last of them unchanged, and the
    last of them has its last three characters replaced by three dots when
    it is longer than 15 characters, which leaves its length as it was, and
    is unchanged when it is not. *)
Theorem title_lines_are_limited (m : Z) (lines : list string) :
  1 <= m ->
  exists ls,
    Mainn.limit_lines m lines = Some ls
    /\ Z.of_nat (length ls) = Z.min m (Z.of_nat (length lines))
    /\ (Z.of_nat (length lines) <= m -> ls = lines)
    /\ (forall i, (S i < length ls)%nat -> ls !! i = lines !! i)
    /\ (forall l, m < Z.of_nat (length lines) ->
          lines !! (Z.to_nat m - 1)%nat = Some l ->
          last ls = Some (if (15 <? Py.len l)%nat
                          then (Mainn.drop_last3 l ++ "...")%string else l)
          /\ ((15 < Py.len l)%nat ->
              Py.len (Mainn.drop_last3 l ++ "...")%string = Py.len l)).
Proof.
  intros Hm. destruct (Z.le_gt_cases (Z.of_nat (length lines)) m) as [Hle | Hgt].
  - exists lines. unfold Mainn.limit_lines.
    destruct (Z.ltb_spec m (Z.of_nat (length lines))) as [? | _]; [lia |].
    split; [done |]. split; [lia |]. split; [done |]. split; [done |].
    intros l ?. lia.
  - destruct (lookup_lt_is_Some_2 lines (Z.to_nat m - 1)) as [l0 Hl0]; [lia |].
    rewrite (MainnWrap.limit_lines_cut m lines l0) by done.
    eexists. split; [reflexivity |].
    assert (Hk : length (take (Z.to_nat m - 1) lines) = (Z.to_nat m - 1)%nat)
      by (rewrite length_take; lia).
    split; [rewrite length_app, Hk; simpl; lia |].
    split; [lia |]. split.
    + intros i Hi. rewrite length_app, Hk in Hi. simpl in Hi.
      rewrite lookup_app_l by lia. apply lookup_take_lt. lia.
    + intros l _ Hl. rewrite Hl0 in Hl. injection Hl as <-.
      split; [by rewrite last_snoc |].
      intros H15. unfold Mainn.drop_last3. rewrite len_append.
      fold (Py.len l0). rewrite MainnWrap.len_take_exact.
      change (Py.len "...") with 3%nat. lia.
Qed.

Lemma title_lines_are_limited_witness :
  1 <= 2
  /\ exists ls, Mainn.limit_lines 2 MainnWrap.long_lines = Some ls
      /\ Z.of_nat (length ls) = Z.min 2 (Z.of_nat (length MainnWrap.long_lines)).
Proof.
  split; [lia |].
  destruct (title_lines_are_limited 2 MainnWrap.long_lines ltac:(lia)) as (ls & E & Hlen & _).
  by exists ls.
Defined.

(** X22.  The lines of the title (mainn.py, lines 235-251) are the words of
    [title.split()] in their order, none lost and none twice: every line is
    one or more words in a row joined by single blanks; a line of more than
    one word was measured, with a blank at its end, to be no wider than the
    text area; and a line ends only where the next word, added to it, was
    measured to be wider than the text area. *)
Theorem title_is_wrapped (width : string -> Z) (mw : Z) (title : string) :
  exists groups,
    Mainn.wrap width mw (Py.split title) = map (String.concat " ") groups
    /\ concat groups = Py.split title
    /\ Forall (fun g => g <> []) groups
    /\ Forall (fun g => (length g <= 1)%nat
                        \/ width (String.concat " " g ++ " ")%string <= mw) groups
    /\ (forall i g w r, groups !! i = Some g -> groups !! S i = Some (w :: r) ->
          mw < width (String.concat " " (g ++ [w]) ++ " ")%string).
Proof. apply MainnWrap.wrap_groups, MainnWrap.split_words. Qed.
